(** * Monifactory build script: the mod cache reconciliation of [DownloadModsTarget]

    Shallow embedding of [src/build/index.ts], lines 153-233: the target that
    keeps [dist/modcache] in step with [manifest.json], using the record of the
    previous run kept in [dist/cache.json].

    Conventions of the embedding.
    - A JavaScript object used as a dictionary is an association list in
      property-creation order; [Object_keys] lists array-index keys first, in
      ascending numeric order, then the other keys in creation order, as
      [Object.keys] does.
    - Project identifiers are the non-negative integers of a CurseForge
      manifest; the dictionary keys are their decimal strings, as produced by
      the template literal [`${projectID}`].  Only own properties are
      modelled: a decimal string never names a property inherited from
      [Object.prototype], and a key of the record that does is not a key of
      [newData], so the first loop deletes it and the second [filter] then
      reads the same inherited value on both sides of [!==].
    - The values of the record are the objects the target itself writes,
      [{ file, fileID, required }]; they are all truthy.
    - [fileID] values are the JSON primitives a manifest carries (an integer, a
      string, or nothing at all); [!==] on them is structural disequality.
    - The file system is the part the target touches: the two JSON files and
      the set of file names in [dist/modcache].  [Juke.rm] takes a glob
      pattern: which files a pattern expands to is given by the world
      ([Juke_glob]), and a statement that needs a recorded name to be matched
      literally, as a name without glob characters is, has it as a
      hypothesis.  Every call that acts on the outside world is also
      appended to a log, in program order.
    - [fs.mkdirSync], [Juke.rm] and [fs.writeFileSync] are taken to succeed.
      A run in which one of them throws ends at that call with its error; such
      runs are not among the runs described here, and no statement says how
      or why a run fails beyond the failures of the manifest, of the record
      and of a download.
    - [DownloadCF] comes from [./lib/curseforge.ts]; it is a parameter of the
      development: given the mod and file identifiers it either yields the name
      of the file it stored in the target directory, or fails (a rejected
      promise).  Its outcome is taken to depend on its arguments only.

    The packaging targets and the helpers of the same file are embedded
    further down, with conventions of their own. *)

From Stdlib Require Import List String Ascii Bool ZArith NArith Lia Permutation.
From Stdlib Require Import DecimalString Sorted.
Import ListNotations.
Local Open Scope string_scope.
Local Open Scope list_scope.

(** ** JavaScript values and objects *)

Module JS.

(** The primitives that occur as [fileID]. *)
Inductive value : Type :=
| undefined
| number (z : Z)
| text (s : string).

(** [a === b] on these primitives. *)
Definition strict_eq (a b : value) : bool :=
  match a, b with
  | undefined, undefined => true
  | number x, number y => Z.eqb x y
  | text x, text y => String.eqb x y
  | _, _ => false
  end.

(** [`${n}`] for a non-negative integer [n]. *)
Definition template (n : N) : string :=
  NilZero.string_of_uint (N.to_uint n).

(** [`${f}`] for an optional string: [undefined] prints as its name. *)
Definition template_opt (f : option string) : string :=
  match f with
  | Some s => s
  | None => "undefined"
  end.

(** An array index is a canonical numeric string below [2^32 - 1]. *)
Definition array_index (k : string) : option N :=
  match NilZero.uint_of_string k with
  | Some u =>
      let n := N.of_uint u in
      if String.eqb (template n) k && N.ltb n (2 ^ 32 - 1) then Some n else None
  | None => None
  end.

Definition is_index (k : string) : bool :=
  match array_index k with Some _ => true | None => false end.

Definition index_value (k : string) : N :=
  match array_index k with Some n => n | None => 0%N end.

(** [xs.includes(x)] on an array of strings. *)
Definition includes (xs : list string) (x : string) : bool :=
  existsb (String.eqb x) xs.

(** An object used as a dictionary: its own properties, in creation order. *)
Definition Obj (V : Type) : Type := list (string * V).

Section Obj.
Context {V : Type}.

(** [o[k]] *)
Fixpoint get (o : Obj V) (k : string) : option V :=
  match o with
  | [] => None
  | (k', v) :: o' => if String.eqb k k' then Some v else get o' k
  end.

(** [o[k] = v]: an existing property keeps its place, a new one goes last. *)
Fixpoint set (o : Obj V) (k : string) (v : V) : Obj V :=
  match o with
  | [] => [(k, v)]
  | (k', v') :: o' =>
      if String.eqb k k' then (k', v) :: o' else (k', v') :: set o' k v
  end.

(** [delete o[k]] *)
Definition delete (o : Obj V) (k : string) : Obj V :=
  filter (fun p => negb (String.eqb k (fst p))) o.

Definition own_keys (o : Obj V) : list string := map fst o.

(** Insertion sort of array-index keys by numeric value. *)
Fixpoint insert_index (k : string) (ks : list string) : list string :=
  match ks with
  | [] => [k]
  | k' :: ks' =>
      if N.leb (index_value k) (index_value k') then k :: ks
      else k' :: insert_index k ks'
  end.

Definition sort_index (ks : list string) : list string :=
  fold_right insert_index [] ks.

(** [Object.keys(o)]: array indices in ascending order, then the other keys
    in creation order. *)
Definition Object_keys (o : Obj V) : list string :=
  sort_index (filter is_index (own_keys o))
    ++ filter (fun k => negb (is_index k)) (own_keys o).

(** [JSON.stringify(o)], as the sequence of members it prints. *)
Definition JSON_stringify (o : Obj V) : list (string * V) :=
  flat_map (fun k => match get o k with Some v => [(k, v)] | None => [] end)
           (Object_keys o).

(** [JSON.parse] of an object literal given by its members: a repeated
    name keeps its first position and takes its last value. *)
Definition JSON_parse (members : list (string * V)) : Obj V :=
  fold_left (fun o m => set o (fst m) (snd m)) members [].

End Obj.

End JS.

Import JS.

(** ** Data of the target *)

(** One element of [manifest.files]. *)
Record ManifestFile : Type := mkManifestFile {
  projectID : N;
  fileID : value;
  required : bool
}.

(** A value of [newData], [oldData] and [dataKeys]: [{ file, fileID, required }].
    A missing [file] property and [file: undefined] read the same and print the
    same under [JSON.stringify]; both are [None]. *)
Record ModData : Type := mkModData {
  md_file : option string;
  md_fileID : value;
  md_required : bool
}.

Definition Cache : Type := Obj ModData.

(** What [JSON.parse(fs.readFileSync(path))] meets at [path]. *)
Inductive JsonFile (A : Type) : Type :=
| Absent
| Unparsable
| Parsed (content : A).
Arguments Absent {A}.
Arguments Unparsable {A}.
Arguments Parsed {A} content.

(** Calls that act outside the process, in the order they are issued.  [Juke_rm]
    also records the [pid] of the loop iteration that issued it. *)
Inductive Event : Type :=
| fs_mkdirSync (path : string)
| Juke_rm (pid : string) (path : string)
| DownloadCF_call (modID : string) (modFileID : value) (dir : string)
| fs_writeFileSync (path : string) (data : list (string * ModData)).

(** [Juke_glob pattern path]: whether the pattern that [Juke.rm] is given
    expands to the existing file [path].  [Juke.rm] takes glob patterns (line
    349 removes [dist/*.zip]); the expansion belongs to the library, and
    nothing is assumed about it unless a statement says so. *)
Record World : Type := mkWorld {
  manifest_json : JsonFile (list ManifestFile);
  cache_json : JsonFile (list (string * ModData));
  modcache : list string;
  Juke_glob : string -> string -> bool;
  log : list Event
}.

Inductive Exception : Type :=
| SyntaxError (path : string)
| ENOENT (path : string)
| TypeError
| DownloadFailed (modID : string) (modFileID : value).

Inductive Completion (A : Type) : Type :=
| Normal (a : A)
| Throw (e : Exception).
Arguments Normal {A} a.
Arguments Throw {A} e.

(** ** World primitives *)

Definition emit (e : Event) (w : World) : World :=
  mkWorld (manifest_json w) (cache_json w) (modcache w) (Juke_glob w)
          (log w ++ [e]).

(** [fs.mkdirSync("dist/modcache", { recursive: true })], when it succeeds:
    the directory keeps whatever it holds. *)
Definition mkdir_modcache (w : World) : World :=
  emit (fs_mkdirSync "dist/modcache") w.

(** Whether [Juke.rm(`dist/modcache/${name}`)] removes the file [f] of
    [dist/modcache]. *)
Definition matched (w : World) (name f : string) : bool :=
  Juke_glob w ("dist/modcache/" ++ name) ("dist/modcache/" ++ f).
Arguments matched : simpl never.

(** [Juke.rm(`dist/modcache/${file}`)], when it succeeds: the files of the
    directory that the pattern expands to are gone afterwards; a pattern that
    expands to nothing is no error. *)
Definition rm_modcache (pid : string) (file : option string) (w : World) : World :=
  let name := template_opt file in
  emit (Juke_rm pid ("dist/modcache/" ++ name))
       (mkWorld (manifest_json w) (cache_json w)
                (filter (fun f => negb (matched w name f)) (modcache w))
                (Juke_glob w) (log w)).

(** The directory without the file called [name]. *)
Definition remove_name (name : string) (dir : list string) : list string :=
  filter (fun f => negb (String.eqb name f)) dir.

(** Modelled from the spec: [DownloadCF] is defined in [./lib/curseforge.ts],
    which is not among the sources.  By section 4.4, step 2 of the design, a
    fetch that succeeds writes the bytes under the returned file name inside
    the cache directory: afterwards [fileName] is in [dist/modcache], and the
    other files are as they were. *)
Definition store_modcache (fileName : string) (w : World) : World :=
  mkWorld (manifest_json w) (cache_json w)
          (fileName :: remove_name fileName (modcache w)) (Juke_glob w) (log w).

(** [fs.writeFileSync("dist/cache.json", JSON.stringify(dataKeys))], when it
    succeeds: the file holds the data written. *)
Definition write_cache_json (dataKeys : Cache) (w : World) : World :=
  let data := JSON_stringify dataKeys in
  emit (fs_writeFileSync "dist/cache.json" data)
       (mkWorld (manifest_json w) (Parsed data) (modcache w) (Juke_glob w)
                (log w)).

(** ** The diff of the cache-hit branch (lines 166-212) *)

(** Lines 168-173. *)
Definition build_newData (files : list ManifestFile) : Cache :=
  fold_left
    (fun newData data =>
       set newData (template (projectID data))
           (mkModData None (fileID data) (required data)))
    files [].

(** The locals the loops update.  Line 212 makes [dataKeys] the object
    [oldData]; in the branch without a record the field holds [dataKeys]
    itself. *)
Record Locals : Type := mkLocals {
  oldData : Cache;
  mIdToDownload : list string
}.

(** Lines 179-180: the keys the first loop walks. *)
Definition added_or_removed (oldDataKeys newDataKeys : list string) : list string :=
  filter (fun pid => negb (includes newDataKeys pid)) oldDataKeys
    ++ filter (fun x => negb (includes oldDataKeys x)) newDataKeys.

(** Lines 181-193: one iteration of the first loop. *)
Definition removed_or_added (newData : Cache) (s : Locals * World) (pid : string)
  : Locals * World :=
  let (st, w) := s in
  match get (oldData st) pid with
  | Some fromOldData =>
      (mkLocals (delete (oldData st) pid) (mIdToDownload st),
       rm_modcache pid (md_file fromOldData) w)
  | None =>
      match get newData pid with
      | Some fromNewData =>
          if includes (mIdToDownload st) pid then s
          else (mkLocals (set (oldData st) pid fromNewData)
                         (mIdToDownload st ++ [pid]), w)
      | None => s
      end
  end.

(** Lines 197-198: the callback of the second [filter].  Reading [fileID] off
    a missing [oldData[pid]] is a [TypeError]. *)
Definition fileID_changed (newData oldData : Cache) (pid : string)
  : Completion bool :=
  match get newData pid with
  | None => Normal false
  | Some n =>
      match get oldData pid with
      | None => Throw TypeError
      | Some o => Normal (negb (strict_eq (md_fileID o) (md_fileID n)))
      end
  end.

(** [xs.filter(p)] for a callback that may throw. *)
Fixpoint filter_throwing (p : string -> Completion bool) (xs : list string)
  : Completion (list string) :=
  match xs with
  | [] => Normal []
  | x :: xs' =>
      match p x with
      | Throw e => Throw e
      | Normal b =>
          match filter_throwing p xs' with
          | Throw e => Throw e
          | Normal ys => Normal (if b then x :: ys else ys)
          end
      end
  end.

(** Lines 199-210: one iteration of the second loop. *)
Definition updated (newData : Cache) (st : Locals) (pid : string) (w : World)
  : World * Completion Locals :=
  match get (oldData st) pid with
  | Some fromOldData =>
      let w' := rm_modcache pid (md_file fromOldData) w in
      let ids := if includes (mIdToDownload st) pid then mIdToDownload st
                 else mIdToDownload st ++ [pid] in
      match get newData pid with
      | None => (w', Throw TypeError)
      | Some n =>
          (w', Normal (mkLocals
                         (set (oldData st) pid
                              (mkModData None (md_fileID n) (md_required n)))
                         ids))
      end
  | None => (w, Normal st)
  end.

(** A [for ... of] loop whose body acts on the world and may throw. *)
Fixpoint for_of {A : Type} (body : A -> string -> World -> World * Completion A)
         (xs : list string) (a : A) (w : World) : World * Completion A :=
  match xs with
  | [] => (w, Normal a)
  | x :: xs' =>
      match body a x w with
      | (w', Throw e) => (w', Throw e)
      | (w', Normal a') => for_of body xs' a' w'
      end
  end.

(** Lines 167-212, after [oldData] has been read. *)
Definition diff (files : list ManifestFile) (oldData0 : Cache) (w : World)
  : World * Completion Locals :=
  let newData := build_newData files in
  let oldDataKeys := Object_keys oldData0 in
  let newDataKeys := Object_keys newData in
  let (st1, w1) := fold_left (removed_or_added newData)
                             (added_or_removed oldDataKeys newDataKeys)
                             (mkLocals oldData0 [], w) in
  match filter_throwing (fileID_changed newData (oldData st1)) oldDataKeys with
  | Throw e => (w1, Throw e)
  | Normal changed => for_of (updated newData) changed st1 w1
  end.

(** Lines 215-220: no [dist/cache.json], every manifest entry is scheduled. *)
Definition remap (files : list ManifestFile) : Locals :=
  fold_left
    (fun st data =>
       mkLocals
         (set (oldData st) (template (projectID data))
              (mkModData None (fileID data) (required data)))
         (mIdToDownload st ++ [template (projectID data)]))
    files (mkLocals [] []).

(** Lines 162-221: the state the download loop starts from. *)
Definition plan (files : list ManifestFile) (w : World)
  : World * Completion Locals :=
  match cache_json w with
  | Absent => (w, Normal (remap files))
  | Unparsable => (w, Throw (SyntaxError "dist/cache.json"))
  | Parsed members => diff files (JSON_parse members) w
  end.

(** ** The download loop and the target *)

Section Target.

(** [DownloadCF({ modID, modFileID }, "dist/modcache/")]: [Some fileName]
    when the promise resolves, [None] when it rejects. *)
Variable DownloadCF : string -> value -> option string.

(** Lines 224-229: one iteration of the download loop. *)
Definition download (dataKeys : Cache) (modID : string) (w : World)
  : World * Completion Cache :=
  match get dataKeys modID with
  | None => (w, Throw TypeError)
  | Some file =>
      let w' := emit (DownloadCF_call modID (md_fileID file) "dist/modcache/") w in
      match DownloadCF modID (md_fileID file) with
      | None => (w', Throw (DownloadFailed modID (md_fileID file)))
      | Some fileName =>
          (store_modcache fileName w',
           Normal (set dataKeys modID
                       (mkModData (Some fileName) (md_fileID file)
                                  (md_required file))))
      end
  end.

(** The [executes] function of [DownloadModsTarget]. *)
Definition DownloadModsTarget (w : World) : World * Completion unit :=
  match manifest_json w with
  | Absent => (w, Throw (ENOENT "manifest.json"))
  | Unparsable => (w, Throw (SyntaxError "manifest.json"))
  | Parsed files =>
      match plan files (mkdir_modcache w) with
      | (w1, Throw e) => (w1, Throw e)
      | (w1, Normal st) =>
          match for_of download (mIdToDownload st) (oldData st) w1 with
          | (w2, Throw e) => (w2, Throw e)
          | (w2, Normal dataKeys) => (write_cache_json dataKeys w2, Normal tt)
          end
      end
  end.

End Target.

(** ** Closed forms and observations used to state the properties *)

(** [o[k]["file"]], when [o[k]] is there. *)
Definition file_of (o : Cache) (k : string) : option string :=
  match get o k with Some e => md_file e | None => None end.

(** The removals issued for the keys [ks], each naming the file [o] records. *)
Definition rm_all (o : Cache) (ks : list string) (w : World) : World :=
  fold_left (fun w k => rm_modcache k (file_of o k) w) ks w.

(** The event of the removal issued for [k]. *)
Definition rm_event (o : Cache) (k : string) : Event :=
  Juke_rm k ("dist/modcache/" ++ template_opt (file_of o k)).

(** Line 179: the keys of the record that the manifest no longer has. *)
Definition removed_keys (old nd : Cache) : list string :=
  filter (fun pid => negb (includes (Object_keys nd) pid)) (Object_keys old).

(** Line 180: the keys of the manifest that the record does not have. *)
Definition added_keys (old nd : Cache) : list string :=
  filter (fun x => negb (includes (Object_keys old) x)) (Object_keys nd).

(** Lines 197-198 on the record as it was read: [k] is in both, with
    different [fileID]s. *)
Definition changed (old nd : Cache) (k : string) : bool :=
  match get nd k, get old k with
  | Some n, Some o => negb (strict_eq (md_fileID o) (md_fileID n))
  | _, _ => false
  end.

Definition changed_keys (old nd : Cache) : list string :=
  filter (changed old nd) (Object_keys old).

(** Line 192: [oldData[k] = {...newData[k]}]. *)
Definition add_new (nd o : Cache) (k : string) : Cache :=
  match get nd k with Some n => set o k n | None => o end.

(** Lines 205-209: the entry of an updated mod, without a [file]. *)
Definition put_updated (nd o : Cache) (k : string) : Cache :=
  match get nd k with
  | Some n => set o k (mkModData None (md_fileID n) (md_required n))
  | None => o
  end.

(** [oldData] after the first loop. *)
Definition after_first (old nd : Cache) : Cache :=
  fold_left (add_new nd) (added_keys old nd)
    (fold_left (@delete ModData) (removed_keys old nd) old).

(** [oldData] after the second loop, which is [dataKeys]. *)
Definition diff_result (old nd : Cache) : Cache :=
  fold_left (put_updated nd) (changed_keys old nd)
    (fold_left (add_new nd) (added_keys old nd)
       (fold_left (@delete ModData) (removed_keys old nd) old)).

(** [d[k].fileID], the [modFileID] the download loop passes on. *)
Definition fid_of (d : Cache) (k : string) : value :=
  match get d k with Some e => md_fileID e | None => undefined end.

(** The event of the download requested for [k]. *)
Definition call_event (d : Cache) (k : string) : Event :=
  DownloadCF_call k (fid_of d k) "dist/modcache/".

(** The record a run starts from: what [dist/cache.json] parses to, or
    nothing. *)
Definition old_of (c : JsonFile (list (string * ModData))) : Cache :=
  match c with Parsed members => JSON_parse members | _ => [] end.

(** The keys a run issues a [Juke.rm] for, in order. *)
Definition removals_of (files : list ManifestFile)
           (c : JsonFile (list (string * ModData))) : list string :=
  match c with
  | Parsed _ =>
      removed_keys (old_of c) (build_newData files)
        ++ changed_keys (old_of c) (build_newData files)
  | _ => []
  end.

(** [mIdToDownload] when the download loop starts. *)
Definition scheduled_of (files : list ManifestFile)
           (c : JsonFile (list (string * ModData))) : list string :=
  match c with
  | Parsed _ =>
      added_keys (old_of c) (build_newData files)
        ++ changed_keys (old_of c) (build_newData files)
  | _ => map (fun d => template (projectID d)) files
  end.

(** [dataKeys] when the download loop starts. *)
Definition planned_of (files : list ManifestFile)
           (c : JsonFile (list (string * ModData))) : Cache :=
  match c with
  | Parsed _ => diff_result (old_of c) (build_newData files)
  | _ => build_newData files
  end.

(** The events a run appended to the log. *)
Definition new_events (w w' : World) : list Event :=
  skipn (List.length (log w)) (log w').

Definition is_rm (e : Event) : bool :=
  match e with Juke_rm _ _ => true | _ => false end.

Definition is_call (e : Event) : bool :=
  match e with DownloadCF_call _ _ _ => true | _ => false end.

Definition is_write (e : Event) : bool :=
  match e with fs_writeFileSync _ _ => true | _ => false end.

(** The removals a list of events holds for one artifact. *)
Definition removals_for (pid : string) (evs : list Event) : list Event :=
  filter (fun e => match e with Juke_rm p _ => String.eqb p pid | _ => false end) evs.

(** An object with everything but the [fileID] forgotten. *)
Definition versions (o : Cache) : Obj value :=
  map (fun p => (fst p, md_fileID (snd p))) o.

(** Every file of the directory is named by an entry, by one entry only, and
    every entry names a file of the directory. *)
Definition consistent (dir : list string) (st : Cache) : Prop :=
  (forall f, In f dir -> exists k e, get st k = Some e /\ md_file e = Some f)
  /\ (forall k1 k2 e1 e2 f,
         get st k1 = Some e1 -> get st k2 = Some e2 ->
         md_file e1 = Some f -> md_file e2 = Some f -> k1 = k2)
  /\ (forall k e, get st k = Some e -> exists f, md_file e = Some f /\ In f dir).

(** The pattern that [Juke.rm] is given for [name] matches the file [name]
    and no other file of the directory: so it is for a name without glob
    characters. *)
Definition literal (w : World) (name : string) : Prop :=
  forall f, matched w name f = String.eqb name f.

(** Among the downloads a run asks for, [DownloadCF] gives one file name to
    one mod only, and never the name the record holds for a mod that the run
    keeps as it is. *)
Definition names_by_mod (DownloadCF : string -> value -> option string)
           (files : list ManifestFile)
           (c : JsonFile (list (string * ModData))) : Prop :=
  let asked m := DownloadCF m (fid_of (planned_of files c) m) in
  (forall m1 m2 f,
      In m1 (scheduled_of files c) -> In m2 (scheduled_of files c) ->
      asked m1 = Some f -> asked m2 = Some f -> m1 = m2)
  /\ (forall m f k e,
         In m (scheduled_of files c) -> asked m = Some f ->
         get (old_of c) k = Some e -> md_file e = Some f ->
         In k (removals_of files c)).

(** ** Concrete worlds: the scenarios of the design, and a few more *)

(** A [DownloadCF] that always succeeds. *)
Definition jar (modID : string) (v : value) : option string :=
  Some (modID ++ "-" ++ match v with text s => s | _ => "x" end ++ ".jar")%string.

(** A world with a parsed manifest and an empty log, in which the patterns
    of [Juke.rm] match literally: the file names of the scenarios have no
    glob characters. *)
Definition world0 (files : list ManifestFile)
           (cache : JsonFile (list (string * ModData))) (dir : list string) : World :=
  mkWorld (Parsed files) cache dir String.eqb [].

(** Scenario 3: the record has mod 1 at version a, the manifest at b. *)
Definition scenario3 : World :=
  world0 [mkManifestFile 1 (text "b") true]
         (Parsed [("1", mkModData (Some "f1") (text "a") true)]) ["f1"].

(** A [DownloadCF] that fails for project 2 only. *)
Definition jar_but_2 (modID : string) (v : value) : option string :=
  if String.eqb modID "2" then None else jar modID v.

(** Scenario 5: a first run over three mods. *)
Definition scenario5 : World :=
  world0 [mkManifestFile 1 (text "a") true;
          mkManifestFile 2 (text "b") true;
          mkManifestFile 3 (text "c") true] Absent [].

Definition one_mod : list ManifestFile := [mkManifestFile 1 (text "a") true].

(** A manifest that repeats a [projectID] and whose last entry has no
    [fileID]. *)
Definition malformed : list ManifestFile :=
  [mkManifestFile 1 (text "a") true; mkManifestFile 1 undefined false].

(** Scenario 2, with the [required] flag flipped in the manifest. *)
Definition flipped_required : World :=
  world0 [mkManifestFile 1 (text "a") false]
         (Parsed [("1", mkModData (Some "f1") (text "a") true)]) ["f1"].

(** Two entries of the record name the same file; the manifest keeps the
    first and drops the second. *)
Definition shared_file : World :=
  world0 [mkManifestFile 1 (number 10) true]
         (Parsed [("1", mkModData (Some "a.jar") (number 10) true);
                  ("2", mkModData (Some "a.jar") (number 20) true)])
         ["a.jar"].

(** A [DownloadCF] that gives every mod the same file name. *)
Definition one_name (modID : string) (v : value) : option string := Some "mod.jar".

(** Scenario 1: a first run over two mods. *)
Definition two_mods : World :=
  world0 [mkManifestFile 1 (text "a") true; mkManifestFile 2 (text "b") true]
         Absent [].

(** A [DownloadCF] that stores each mod under its id. *)
Definition by_id (modID : string) (v : value) : option string := Some modID.

(** Scenario 3 again, with the file named after the mod. *)
Definition updated_mod : World :=
  world0 [mkManifestFile 1 (text "b") true]
         (Parsed [("1", mkModData (Some "1") (text "a") true)]) ["1"].

(** Scenario 2: the record and the manifest agree on mod 1. *)
Definition scenario2 : World :=
  world0 [mkManifestFile 1 (text "a") true]
         (Parsed [("1", mkModData (Some "f1") (text "a") true)]) ["f1"].

(** Scenario 4: the record has mods 1 and 2, the manifest mod 1 only. *)
Definition scenario4 : World :=
  world0 [mkManifestFile 1 (text "a") true]
         (Parsed [("1", mkModData (Some "f1") (text "a") true);
                  ("2", mkModData (Some "f2") (text "b") true)])
         ["f1"; "f2"].

(** A record and a manifest in which each of the four cases occurs. *)
Definition four_cases_record : list (string * ModData) :=
  [("1", mkModData (Some "f1") (text "a") true);
   ("2", mkModData (Some "f2") (text "b") true);
   ("3", mkModData (Some "f3") (text "c") true)].

Definition four_cases_manifest : list ManifestFile :=
  [mkManifestFile 1 (text "a") true;
   mkManifestFile 2 (text "B") true;
   mkManifestFile 4 (text "d") true].

Definition four_cases : World :=
  world0 four_cases_manifest (Parsed four_cases_record) ["f1"; "f2"; "f3"].

(** The expansion of the patterns of the next world: the character class of
    [dist/modcache/[ab].jar] matches [a.jar] and [b.jar], and not the file
    whose name is the pattern itself; the other patterns used there have no
    glob characters. *)
Definition class_glob (pattern path : string) : bool :=
  if String.eqb pattern "dist/modcache/[ab].jar"
  then String.eqb path "dist/modcache/a.jar"
       || String.eqb path "dist/modcache/b.jar"
  else String.eqb pattern path.

(** The record names a file with glob characters for mod 1, which the
    manifest updates; mod 2 is unchanged; [c.jar] is on no record. *)
Definition glob_world : World :=
  mkWorld (Parsed [mkManifestFile 1 (text "b") true;
                   mkManifestFile 2 (text "x") true])
          (Parsed [("1", mkModData (Some "[ab].jar") (text "a") true);
                   ("2", mkModData (Some "a.jar") (text "x") true)])
          ["[ab].jar"; "a.jar"; "c.jar"] class_glob [].

(** ** More of the build script: definitions *)

(** The record and the manifest agree: the same keys, with the same
    [fileID]s. *)
Definition agrees (old nd : Cache) : Prop :=
  forall k,
    match get old k, get nd k with
    | Some e, Some n => strict_eq (md_fileID e) (md_fileID n) = true
    | None, None => True
    | _, _ => False
    end.

(** The download requests a list of events holds for one mod. *)
Definition calls_for (modID : string) (evs : list Event) : list Event :=
  filter (fun e => match e with
                   | DownloadCF_call m _ _ => String.eqb m modID
                   | _ => false
                   end) evs.

(** Lines 336-341, [CleanCacheTarget], on the part of the file system the
    download target sees: [Juke.rm("dist/modcache", { recursive: true })]
    empties the directory; [manifest.json] and [dist/cache.json] are not
    among the paths removed ([dist/modlist.html] is outside this world).  The
    log keeps the calls of the download target only. *)
Definition CleanCacheTarget (w : World) : World :=
  mkWorld (manifest_json w) (cache_json w) [] (Juke_glob w) (log w).

(** A [DownloadCF] without network: every request fails. *)
Definition offline (modID : string) (v : value) : option string := None.

(** ** Packaging: the helpers and targets around [DownloadModsTarget]

    The packaging code acts on the outside world only: it lists and copies
    files and runs commands.  Its model records the calls in a log, in program
    order, and asks an environment how each call ends.  Logging through
    [Juke.logger] is left out, as above.  Every [fs.cpSync] of the script
    passes [recursive: true]; [force: true], passed at line 323, is the
    default.  [Juke.exec] is a promise that rejects when the command fails. *)

(** [includeList], lines 20-25. *)
Definition includeList : list string :=
  ["config"; "defaultconfigs"; "config-overrides"; "kubejs"].

(** [clientMods], lines 28-39. *)
Definition clientMods : list string :=
  ["oculus"; "zume"; "watermedia"; "embeddium"; "embeddiumplus"; "citresewn";
   "legendarytooltips"; "fancymenu"; "drippyloadingscreen"; "badoptimizations"].

(** [c.toLowerCase()] for a code unit below 256: the letters A-Z and the
    capital letters of Latin-1 (U+00C0 to U+00DE, without the multiplication
    sign U+00D7) move up by 32. *)
Definition lower_char (c : ascii) : ascii :=
  let n := nat_of_ascii c in
  if (Nat.leb 65 n && Nat.leb n 90)
     || (Nat.leb 192 n && Nat.leb n 222 && negb (Nat.eqb n 215))
  then ascii_of_nat (n + 32)
  else c.

(** [s.toLowerCase()] *)
Fixpoint toLowerCase (s : string) : string :=
  match s with
  | EmptyString => EmptyString
  | String c s' => String (lower_char c) (toLowerCase s')
  end.

(** [s.includes(sub)] on strings. *)
Fixpoint str_includes (s sub : string) : bool :=
  String.prefix sub s
  || match s with
     | EmptyString => false
     | String _ s' => str_includes s' sub
     end.

(** The truth value of what [Array.prototype.find] returns on an array of
    strings: [undefined] and the empty string are falsy. *)
Definition truthy (found : option string) : bool :=
  match found with
  | None => false
  | Some EmptyString => false
  | Some (String _ _) => true
  end.

(** Lines 277-283: the filter [BuildServerTarget] passes to
    [cpSyncFiltered]. *)
Definition server_mod (file : string) : bool :=
  let fillet := toLowerCase file in
  str_includes fillet ".jar"
  && negb (truthy (find (fun modName => str_includes fillet modName) clientMods)).

(** What [GetModInfo] resolves to, as far as line 146 reads it: [name],
    [links.websiteUrl] and the names of [authors]. *)
Record ModInfo : Type := mkModInfo {
  mi_name : string;
  mi_websiteUrl : string;
  mi_authors : list string
}.

(** The calls that act outside the process.  [copyFileSync_join] is
    [fs.copyFileSync(path.join(ourDir, file), path.join(newDir, file))]. *)
Inductive Action : Type :=
| mkdirSync (path : string) (recursive : bool)
| cpSync (src dest : string)
| copyFileSync (src dest : string)
| copyFileSync_join (ourDir newDir file : string)
| Juke_exec (cmd : string) (args : list string) (cwd : option string)
            (silent : bool)
| GetModInfo_call (projectID : N)
| writeFileSync (path : string) (data : string)
| Juke_rm_rf (path : string)
| symlinkSync_call (target path : string) (type : option string).

(** How a function of the script ends: it returns, it throws, or it ends the
    process with [process.exit]. *)
Inductive Failure : Type :=
| Js (e : Exception)
| Rejected (a : Action)
| EEXIST (path : string)
| ExitCode (code : Z).

Inductive Outcome (A : Type) : Type :=
| Finished (a : A)
| Thrown (e : Failure)
| Exited (code : Z).
Arguments Finished {A} a.
Arguments Thrown {A} e.
Arguments Exited {A} code.

(** The outside world as the script meets it: the platform, [path.resolve],
    what [fs.existsSync] answers and what [fs.readdirSync] lists when the
    script asks (each path is asked about once in a run), whether
    [fs.lstatSync] finds a directory, whether a call succeeds, what
    [GetModInfo] resolves to, and [manifest.json]. *)
Record Env : Type := mkEnv {
  platform : string;
  resolve : string -> string;
  existsSync : string -> bool;
  readdirSync : string -> option (list string);
  lstat_isDirectory : string -> option bool;
  succeeds : Action -> bool;
  GetModInfo : N -> option ModInfo;
  manifest : JsonFile (list ManifestFile)
}.

(** A computation that appends to the log of calls. *)
Definition Build (A : Type) : Type := list Action -> list Action * Outcome A.

Definition ret {A : Type} (a : A) : Build A := fun lg => (lg, Finished a).

Definition throw {A : Type} (e : Failure) : Build A := fun lg => (lg, Thrown e).

(** [process.exit(code)] *)
Definition process_exit {A : Type} (code : Z) : Build A :=
  fun lg => (lg, Exited code).

Definition bind {A B : Type} (c : Build A) (k : A -> Build B) : Build B :=
  fun lg =>
    match c lg with
    | (lg', Finished a) => k a lg'
    | (lg', Thrown e) => (lg', Thrown e)
    | (lg', Exited code) => (lg', Exited code)
    end.

(** [try { c } catch (e) { handler(e) }]: [process.exit] is not caught. *)
Definition try_catch {A : Type} (c : Build A) (handler : Failure -> Build A)
  : Build A :=
  fun lg =>
    match c lg with
    | (lg', Thrown e) => handler e lg'
    | r => r
    end.

(** An outside call: it is logged, and throws when it does not succeed. *)
Definition act (env : Env) (a : Action) : Build unit :=
  fun lg => (lg ++ [a], if succeeds env a then Finished tt else Thrown (Rejected a)).

(** [Juke.rm(path, { recursive: true })]: what is there is removed, what
    is not there is no error. *)
Definition rm_rf (path : string) : Build unit :=
  fun lg => (lg ++ [Juke_rm_rf path], Finished tt).

(** A [for ... of] loop over strings. *)
Fixpoint for_each (xs : list string) (body : string -> Build unit) : Build unit :=
  match xs with
  | [] => ret tt
  | x :: xs' => bind (body x) (fun _ => for_each xs' body)
  end.

Definition win32 (env : Env) : bool := String.eqb (platform env) "win32".

(** The double quote. *)
Definition dq : string := String (ascii_of_nat 34) EmptyString.

(** Lines 70-103. *)
Definition zipBuild (env : Env) (group : string) : Build unit :=
  try_catch
    (if win32 env then
       act env (Juke_exec "powershell"
                  ["Compress-Archive";
                   ("-Path " ++ dq ++ resolve env ("dist\" ++ group ++ "\*") ++ dq)%string;
                   ("-DestinationPath " ++ dq
                      ++ resolve env ("dist\" ++ group ++ ".zip") ++ dq)%string]
                  None false)
     else
       bind (try_catch
               (bind (act env (Juke_exec "zip" ["--help"] None true))
                     (fun _ => ret true))
               (fun _ => process_exit 1))
            (fun hasZipCmd =>
               if (hasZipCmd : bool) then
                 act env (Juke_exec "zip"
                            ["-qyr"; ("../" ++ group ++ ".zip")%string; "."]
                            (Some ("dist/" ++ group)%string) false)
               else ret tt))
    (fun _ => throw (ExitCode 1)).

(** Lines 105-118. *)
Definition applyDefaultMode (env : Env) (configPath : string) : Build unit :=
  if negb (existsSync env (configPath ++ "/config/packmode.json")) then
    if win32 env then
      act env (Juke_exec "cmd.exe"
                 ["/c"; resolve env "pack-mode-switcher.bat"; "-r"; "-s"; "n"]
                 (Some configPath) false)
    else
      bind (act env (Juke_exec "chmod" ["+x"; "pack-mode-switcher.sh"] None false))
           (fun _ =>
              act env (Juke_exec "pack-mode-switcher.sh" ["-r"; "-s"; "n"]
                         (Some configPath) false))
  else ret tt.

(** Lines 120-127. *)
Definition packBuild (env : Env) (group : string) : Build unit :=
  bind (act env (copyFileSync "manifest.json" ("dist/" ++ group ++ "/manifest.json")))
  (fun _ =>
  bind (act env (copyFileSync "dist/modlist.html"
                   ("dist/" ++ group ++ "/modlist.html")))
  (fun _ =>
  bind (act env (copyFileSync "LICENSE.md" ("dist/" ++ group ++ "/LICENSE.md")))
  (fun _ =>
  bind (applyDefaultMode env
          ("dist/" ++ group ++ (if String.eqb group "server" then "" else "/overrides")))
  (fun _ => zipBuild env group)))).

(** The [executes] function of [BuildClientTarget], lines 250-255. *)
Definition BuildClientTarget (env : Env) : Build unit :=
  bind (act env (mkdirSync "dist/client/overrides" true))
  (fun _ =>
  bind (for_each includeList
          (fun folders =>
             act env (cpSync folders ("dist/client/overrides/" ++ folders))))
  (fun _ => packBuild env "client")).

(** Lines 62-67. *)
Definition cpSyncFiltered (env : Env) (ourDir newDir : string)
           (filter : string -> bool) : Build unit :=
  match readdirSync env ourDir with
  | None => throw (Js (ENOENT ourDir))
  | Some files =>
      for_each files
        (fun file =>
           if negb (filter file) then ret tt
           else act env (copyFileSync_join ourDir newDir file))
  end.

(** [fs.mkdirSync(path)] without [recursive]: a path that exists is an
    error. *)
Definition mkdir_new (env : Env) (path : string) : Build unit :=
  if existsSync env path
  then fun lg => (lg ++ [mkdirSync path false], Thrown (EEXIST path))
  else act env (mkdirSync path false).

(** The [executes] function of [BuildServerTarget], lines 270-286. *)
Definition BuildServerTarget (env : Env) : Build unit :=
  bind (act env (mkdirSync "dist/server" true))
  (fun _ =>
  bind (for_each includeList
          (fun folders => act env (cpSync folders ("dist/server/" ++ folders))))
  (fun _ =>
  bind (mkdir_new env "dist/server/mods")
  (fun _ =>
  bind (cpSyncFiltered env "dist/modcache/" "dist/server/mods" server_mod)
  (fun _ => packBuild env "server")))).

(** Line 146: one item of the list. *)
Definition modlist_item (modInfo : ModInfo) (author : string) : string :=
  ("<li><a href=" ++ mi_websiteUrl modInfo ++ ">" ++ mi_name modInfo
     ++ " (by " ++ author ++ ")</a></li>" ++ String (ascii_of_nat 10) "")%string.

(** Lines 143-147: the loop over [files.entries()]; [html] is the
    accumulator. *)
Fixpoint modlist_loop (env : Env) (files : list ManifestFile) (html : string)
  : Build string :=
  match files with
  | [] => ret html
  | data :: rest =>
      fun lg =>
        let lg' := lg ++ [GetModInfo_call (projectID data)] in
        match GetModInfo env (projectID data) with
        | None => (lg', Thrown (Rejected (GetModInfo_call (projectID data))))
        | Some modInfo =>
            match mi_authors modInfo with
            | [] => (lg', Thrown (Js TypeError))
            | author :: _ =>
                modlist_loop env rest
                  (html ++ modlist_item modInfo author)%string lg'
            end
        end
  end.

(** The [executes] function of [BuildModlistTarget], lines 132-150.  The
    manifest is one the schema of lines 133-137 accepts: every entry carries
    a numeric [projectID]. *)
Definition BuildModlistTarget (env : Env) : Build unit :=
  bind (act env (mkdirSync "dist" true))
  (fun _ =>
     match manifest env with
     | Absent => throw (Js (ENOENT "manifest.json"))
     | Unparsable => throw (Js (SyntaxError "manifest.json"))
     | Parsed files =>
         bind (modlist_loop env files ("<ul>" ++ String (ascii_of_nat 10) ""))
              (fun html =>
                 act env (writeFileSync "dist/modlist.html" (html ++ "</ul>")))
     end).

(** Lines 45-55, the script's own [symlinkSync]. *)
Definition symlinkSync (env : Env) (ourDir newDir : string) : Build unit :=
  if win32 env then
    match lstat_isDirectory env ourDir with
    | None => throw (Js (ENOENT ourDir))
    | Some false => act env (copyFileSync ourDir newDir)
    | Some true => act env (symlinkSync_call ourDir newDir (Some "junction"))
    end
  else act env (symlinkSync_call ourDir newDir None).


(** ** Observations on a log of calls *)

(** The calls a computation appended to the log [lg]. *)
Definition appended (lg lg' : list Action) : list Action :=
  skipn (List.length lg) lg'.

(** A computation that only appends to the log, and does the same whatever
    the log holds. *)
Definition appending {A : Type} (c : Build A) : Prop :=
  forall lg, c lg = (lg ++ fst (c []), snd (c [])).

(** [zip --help], the probe of line 82. *)
Definition zip_probe : Action := Juke_exec "zip" ["--help"] None true.

(** The command that builds the archive: line 73 or line 90. *)
Definition archive_call (env : Env) (group : string) : Action :=
  if win32 env then
    Juke_exec "powershell"
      ["Compress-Archive";
       ("-Path " ++ dq ++ resolve env ("dist\" ++ group ++ "\*") ++ dq)%string;
       ("-DestinationPath " ++ dq
          ++ resolve env ("dist\" ++ group ++ ".zip") ++ dq)%string]
      None false
  else
    Juke_exec "zip" ["-qyr"; ("../" ++ group ++ ".zip")%string; "."]
              (Some ("dist/" ++ group)%string) false.

Definition is_exec (a : Action) : bool :=
  match a with Juke_exec _ _ _ _ => true | _ => false end.

Definition is_joined_copy (a : Action) : bool :=
  match a with copyFileSync_join _ _ _ => true | _ => false end.


(** The three files [packBuild] copies into the group's directory. *)
Definition pack_copies (group : string) : list Action :=
  [copyFileSync "manifest.json" ("dist/" ++ group ++ "/manifest.json");
   copyFileSync "dist/modlist.html" ("dist/" ++ group ++ "/modlist.html");
   copyFileSync "LICENSE.md" ("dist/" ++ group ++ "/LICENSE.md")].

(** Line 125: where [packBuild] applies the pack mode. *)
Definition pack_config_path (group : string) : string :=
  ("dist/" ++ group ++ (if String.eqb group "server" then "" else "/overrides"))%string.

(** The commands [applyDefaultMode] runs: none when [packmode.json] is
    there. *)
Definition mode_calls (env : Env) (configPath : string) : list Action :=
  if existsSync env (configPath ++ "/config/packmode.json") then []
  else if win32 env then
    [Juke_exec "cmd.exe"
       ["/c"; resolve env "pack-mode-switcher.bat"; "-r"; "-s"; "n"]
       (Some configPath) false]
  else
    [Juke_exec "chmod" ["+x"; "pack-mode-switcher.sh"] None false;
     Juke_exec "pack-mode-switcher.sh" ["-r"; "-s"; "n"] (Some configPath) false].

(** The item line 146 writes for a project, when [GetModInfo] resolves with
    an author. *)
Definition item_of (env : Env) (pid : N) : option string :=
  match GetModInfo env pid with
  | Some modInfo =>
      match mi_authors modInfo with
      | author :: _ => Some (modlist_item modInfo author)
      | [] => None
      end
  | None => None
  end.

(** The concatenation of the items that exist. *)
Fixpoint items (env : Env) (pids : list N) : string :=
  match pids with
  | [] => EmptyString
  | pid :: rest =>
      (match item_of env pid with Some i => i | None => EmptyString end
       ++ items env rest)%string
  end.

(** A sequence of outside calls, made in order until one fails: the calls
    made, and how the sequence ends. *)
Fixpoint acts_run (env : Env) (acts : list Action) : list Action * Outcome unit :=
  match acts with
  | [] => ([], Finished tt)
  | a :: rest =>
      if succeeds env a
      then (a :: fst (acts_run env rest), snd (acts_run env rest))
      else ([a], Thrown (Rejected a))
  end.

(** A computation keeps [P] true of every call in the log: the calls it makes
    satisfy [P]. *)
Definition emits {A : Type} (P : Action -> Prop) (c : Build A) : Prop :=
  forall lg, Forall P lg -> Forall P (fst (c lg)).

(** The calls [BuildClientTarget] makes before [packBuild]: lines
    250-253. *)
Definition client_head : list Action :=
  mkdirSync "dist/client/overrides" true
  :: map (fun folders => cpSync folders ("dist/client/overrides/" ++ folders))
         includeList.

(** The calls [BuildServerTarget] makes before it copies mods: lines
    271-276. *)
Definition server_head : list Action :=
  mkdirSync "dist/server" true
  :: map (fun folders => cpSync folders ("dist/server/" ++ folders)) includeList
  ++ [mkdirSync "dist/server/mods" false].

(** [sub] occurs in [s]. *)
Definition occurs_in (sub s : string) : Prop :=
  exists pre post, s = (pre ++ sub ++ post)%string.

(** The page line 149 writes when every item exists. *)
Definition page (env : Env) (files : list ManifestFile) : string :=
  ("<ul>" ++ String (ascii_of_nat 10) ""
     ++ items env (map projectID files) ++ "</ul>")%string.

(** What line 144 or line 146 throws for a project without an item: the
    rejection of [GetModInfo], or the [TypeError] of reading [name] of the
    missing first author. *)
Definition info_failure (env : Env) (pid : N) : Failure :=
  match GetModInfo env pid with
  | None => Rejected (GetModInfo_call pid)
  | Some _ => Js TypeError
  end.

(** An environment for the examples. *)
Definition always (a : Action) : bool := true.

Definition nowhere (p : string) : bool := false.

(** A [GetModInfo] that knows no author of project [pid]. *)
Definition authorless (pid : N) (p : N) : option ModInfo :=
  Some (mkModInfo (template p) "https://example.org"
                  (if N.eqb p pid then [] else ["ann"])).

Definition three_mods : list ManifestFile :=
  [mkManifestFile 7 (number 1) true; mkManifestFile 9 (number 2) true;
   mkManifestFile 11 (number 3) false].

Definition authorless_env : Env :=
  mkEnv "linux" (fun p => ("/repo/" ++ p)%string) nowhere (fun _ => None)
        (fun _ => Some true) always (authorless 9) (Parsed three_mods).

(** ** The scenarios, run *)

Example scenario1_run :
  DownloadModsTarget jar two_mods
  = (mkWorld (manifest_json two_mods)
             (Parsed [("1", mkModData (Some "1-a.jar") (text "a") true);
                      ("2", mkModData (Some "2-b.jar") (text "b") true)])
             ["2-b.jar"; "1-a.jar"] String.eqb
             [fs_mkdirSync "dist/modcache";
              DownloadCF_call "1" (text "a") "dist/modcache/";
              DownloadCF_call "2" (text "b") "dist/modcache/";
              fs_writeFileSync "dist/cache.json"
                [("1", mkModData (Some "1-a.jar") (text "a") true);
                 ("2", mkModData (Some "2-b.jar") (text "b") true)]],
     Normal tt).
Proof. reflexivity. Qed.

Example scenario2_run :
  DownloadModsTarget jar scenario2
  = (mkWorld (manifest_json scenario2)
             (Parsed [("1", mkModData (Some "f1") (text "a") true)])
             ["f1"] String.eqb
             [fs_mkdirSync "dist/modcache";
              fs_writeFileSync "dist/cache.json"
                [("1", mkModData (Some "f1") (text "a") true)]],
     Normal tt).
Proof. reflexivity. Qed.

Example scenario3_run :
  DownloadModsTarget jar scenario3
  = (mkWorld (manifest_json scenario3)
             (Parsed [("1", mkModData (Some "1-b.jar") (text "b") true)])
             ["1-b.jar"] String.eqb
             [fs_mkdirSync "dist/modcache";
              Juke_rm "1" "dist/modcache/f1";
              DownloadCF_call "1" (text "b") "dist/modcache/";
              fs_writeFileSync "dist/cache.json"
                [("1", mkModData (Some "1-b.jar") (text "b") true)]],
     Normal tt).
Proof. reflexivity. Qed.

Example scenario4_run :
  DownloadModsTarget jar scenario4
  = (mkWorld (manifest_json scenario4)
             (Parsed [("1", mkModData (Some "f1") (text "a") true)])
             ["f1"] String.eqb
             [fs_mkdirSync "dist/modcache";
              Juke_rm "2" "dist/modcache/f2";
              fs_writeFileSync "dist/cache.json"
                [("1", mkModData (Some "f1") (text "a") true)]],
     Normal tt).
Proof. reflexivity. Qed.

(** A recorded name with glob characters: the removal issued for mod 1 takes
    the file of the unchanged mod 2 and leaves the old file of mod 1. *)
Example glob_world_run :
  DownloadModsTarget jar glob_world
  = (mkWorld (manifest_json glob_world)
             (Parsed [("1", mkModData (Some "1-b.jar") (text "b") true);
                      ("2", mkModData (Some "a.jar") (text "x") true)])
             ["1-b.jar"; "[ab].jar"; "c.jar"] class_glob
             [fs_mkdirSync "dist/modcache";
              Juke_rm "1" "dist/modcache/[ab].jar";
              DownloadCF_call "1" (text "b") "dist/modcache/";
              fs_writeFileSync "dist/cache.json"
                [("1", mkModData (Some "1-b.jar") (text "b") true);
                 ("2", mkModData (Some "a.jar") (text "x") true)]],
     Normal tt).
Proof. reflexivity. Qed.

(** [Object.keys] puts array indices first, in numeric order; a repeated
    member of a JSON text keeps its first place and its last value. *)
Example Object_keys_order :
  Object_keys (JSON_parse [("b", 1); ("10", 2); ("9", 3); ("01", 4);
                           ("4294967295", 5); ("4294967294", 6); ("b", 7)])
  = ["9"; "10"; "4294967294"; "b"; "01"; "4294967295"]
  /\ get (JSON_parse [("b", 1); ("10", 2); ("b", 7)]) "b" = Some 7.
Proof. split; reflexivity. Qed.

(** ** Lemmas *)

Section ObjFacts.
Variable V : Type.
Implicit Types (o : Obj V) (k : string) (v : V).

Lemma includes_In (xs : list string) (x : string) :
  includes xs x = true <-> In x xs.
Proof.
  unfold includes. rewrite existsb_exists. split.
  - intros [y [Hy E]]. apply String.eqb_eq in E. now subst.
  - intros H. exists x. split; [assumption | apply String.eqb_refl].
Qed.

Lemma includes_false (xs : list string) (x : string) :
  includes xs x = false <-> ~ In x xs.
Proof.
  rewrite <- includes_In. destruct (includes xs x); intuition congruence.
Qed.

Lemma get_set_eq o k v : get (set o k v) k = Some v.
Proof.
  induction o as [|[k' v'] o IH]; simpl.
  - now rewrite String.eqb_refl.
  - destruct (String.eqb k k') eqn:E; simpl; rewrite E; auto.
Qed.

Lemma get_set_neq o k k' v : k <> k' -> get (set o k v) k' = get o k'.
Proof.
  intros N. induction o as [|[k0 v0] o IH]; simpl.
  - apply String.eqb_neq in N. rewrite String.eqb_sym in N. now rewrite N.
  - destruct (String.eqb k k0) eqn:E; simpl.
    + apply String.eqb_eq in E. subst k0.
      apply String.eqb_neq in N. rewrite String.eqb_sym in N. now rewrite N.
    + now rewrite IH.
Qed.

Lemma get_set o k k' v :
  get (set o k v) k' = if String.eqb k k' then Some v else get o k'.
Proof.
  destruct (String.eqb k k') eqn:E.
  - apply String.eqb_eq in E. subst. apply get_set_eq.
  - apply String.eqb_neq in E. now apply get_set_neq.
Qed.

Lemma get_delete o k k' :
  get (delete o k) k' = if String.eqb k k' then None else get o k'.
Proof.
  induction o as [|[k0 v0] o IH]; simpl.
  - now destruct (String.eqb k k').
  - destruct (String.eqb k k0) eqn:E; simpl.
    + rewrite IH. destruct (String.eqb k k') eqn:E'; auto.
      apply String.eqb_eq in E. subst k0. rewrite String.eqb_sym. now rewrite E'.
    + rewrite IH. destruct (String.eqb k' k0) eqn:E0; auto.
      apply String.eqb_eq in E0. subst k0. now rewrite E.
Qed.

Lemma get_In_own_keys o k : get o k <> None <-> In k (own_keys o).
Proof.
  induction o as [|[k0 v0] o IH]; simpl.
  - intuition congruence.
  - destruct (String.eqb k k0) eqn:E.
    + apply String.eqb_eq in E. subst. intuition congruence.
    + apply String.eqb_neq in E. rewrite IH. intuition congruence.
Qed.

Lemma get_None_own_keys o k : get o k = None <-> ~ In k (own_keys o).
Proof.
  rewrite <- get_In_own_keys. destruct (get o k); intuition congruence.
Qed.

Lemma own_keys_set_present o k v :
  In k (own_keys o) -> own_keys (set o k v) = own_keys o.
Proof.
  induction o as [|[k0 v0] o IH]; simpl; [tauto|].
  intros H. destruct (String.eqb k k0) eqn:E; simpl; [reflexivity|].
  apply String.eqb_neq in E. f_equal. apply IH. intuition congruence.
Qed.

Lemma own_keys_set_fresh o k v :
  ~ In k (own_keys o) -> own_keys (set o k v) = own_keys o ++ [k].
Proof.
  induction o as [|[k0 v0] o IH]; simpl; [reflexivity|].
  intros H. destruct (String.eqb k k0) eqn:E; simpl.
  - apply String.eqb_eq in E. subst. tauto.
  - f_equal. apply IH. tauto.
Qed.

Lemma NoDup_own_keys_set o k v :
  NoDup (own_keys o) -> NoDup (own_keys (set o k v)).
Proof.
  intros H. destruct (in_dec string_dec k (own_keys o)) as [I|I].
  - now rewrite own_keys_set_present.
  - rewrite own_keys_set_fresh by assumption.
    apply NoDup_app; [assumption | repeat constructor; simpl; tauto |].
    simpl. intros a Ha [<-|[]]. tauto.
Qed.

Lemma own_keys_delete o k :
  own_keys (delete o k) = filter (fun k' => negb (String.eqb k k')) (own_keys o).
Proof.
  induction o as [|[k0 v0] o IH]; simpl; [reflexivity|].
  destruct (String.eqb k k0); simpl; now rewrite IH.
Qed.

Lemma NoDup_own_keys_delete o k :
  NoDup (own_keys o) -> NoDup (own_keys (delete o k)).
Proof.
  intros H. rewrite own_keys_delete. now apply NoDup_filter.
Qed.

Lemma NoDup_own_keys_parse (members : list (string * V)) :
  NoDup (own_keys (JSON_parse members)).
Proof.
  unfold JSON_parse.
  assert (G : forall o, NoDup (own_keys o) ->
            NoDup (own_keys (fold_left (fun o m => set o (fst m) (snd m)) members o))).
  { induction members as [|m ms IH]; simpl; intros o H; [assumption|].
    apply IH. now apply NoDup_own_keys_set. }
  apply G. constructor.
Qed.

Lemma insert_index_perm k ks : Permutation (insert_index k ks) (k :: ks).
Proof.
  induction ks as [|k' ks IH]; simpl; [reflexivity|].
  destruct (N.leb _ _); [reflexivity|].
  rewrite IH. apply perm_swap.
Qed.

Lemma sort_index_perm ks : Permutation (sort_index ks) ks.
Proof.
  induction ks as [|k ks IH]; simpl; [reflexivity|].
  rewrite insert_index_perm. now constructor.
Qed.

Lemma filter_split_perm (A : Type) (p : A -> bool) (xs : list A) :
  Permutation (filter p xs ++ filter (fun x => negb (p x)) xs) xs.
Proof.
  induction xs as [|x xs IH]; simpl; [reflexivity|].
  destruct (p x); simpl.
  - now constructor.
  - rewrite <- Permutation_middle. now constructor.
Qed.

Lemma Object_keys_perm o : Permutation (Object_keys o) (own_keys o).
Proof.
  unfold Object_keys. rewrite sort_index_perm. apply filter_split_perm.
Qed.

Lemma In_Object_keys o k : In k (Object_keys o) <-> get o k <> None.
Proof.
  rewrite get_In_own_keys. split; apply Permutation_in;
    [| symmetry]; apply Object_keys_perm.
Qed.

Lemma NoDup_Object_keys o : NoDup (own_keys o) -> NoDup (Object_keys o).
Proof.
  intros H. eapply Permutation_NoDup; [symmetry; apply Object_keys_perm | assumption].
Qed.

End ObjFacts.

Lemma rm_all_ext (o1 o2 : Cache) (ks : list string) (w : World) :
  (forall k, In k ks -> file_of o1 k = file_of o2 k) ->
  rm_all o1 ks w = rm_all o2 ks w.
Proof.
  revert w. induction ks as [|k ks IH]; simpl; intros w H; [reflexivity|].
  rewrite (H k) by auto. apply IH. auto.
Qed.

Lemma get_fold_delete (ks : list string) (o : Cache) (k : string) :
  get (fold_left (@delete ModData) ks o) k = if includes ks k then None else get o k.
Proof.
  revert o. induction ks as [|k0 ks IH]; simpl; intros o; [reflexivity|].
  rewrite IH, get_delete. rewrite (String.eqb_sym k k0).
  destruct (includes ks k), (String.eqb k0 k); reflexivity.
Qed.

Lemma get_fold_add_new (nd : Cache) (ks : list string) (o : Cache) (k : string) :
  get (fold_left (add_new nd) ks o) k =
  if includes ks k
  then match get nd k with Some n => Some n | None => get o k end
  else get o k.
Proof.
  revert o. induction ks as [|k0 ks IH]; simpl; intros o; [reflexivity|].
  rewrite IH. unfold add_new, includes. simpl. fold (includes ks k).
  destruct (String.eqb k k0) eqn:E; simpl.
  - apply String.eqb_eq in E. subst k0.
    destruct (get nd k) eqn:G; [rewrite get_set_eq|]; now destruct (includes ks k).
  - destruct (get nd k0) eqn:G0; [rewrite get_set, String.eqb_sym, E|]; reflexivity.
Qed.

Lemma get_fold_put_updated (nd : Cache) (ks : list string) (o : Cache) (k : string) :
  get (fold_left (put_updated nd) ks o) k =
  if includes ks k
  then match get nd k with
       | Some n => Some (mkModData None (md_fileID n) (md_required n))
       | None => get o k
       end
  else get o k.
Proof.
  revert o. induction ks as [|k0 ks IH]; simpl; intros o; [reflexivity|].
  rewrite IH. unfold put_updated, includes. simpl. fold (includes ks k).
  destruct (String.eqb k k0) eqn:E; simpl.
  - apply String.eqb_eq in E. subst k0.
    destruct (get nd k) eqn:G; [rewrite get_set_eq|]; now destruct (includes ks k).
  - destruct (get nd k0) eqn:G0; [rewrite get_set, String.eqb_sym, E|]; reflexivity.
Qed.

Section DiffLoops.
Variable nd : Cache.

Lemma removed_phase (R : list string) :
  forall (o : Cache) (ids : list string) (w : World),
    NoDup R ->
    (forall k, In k R -> get o k <> None) ->
    fold_left (removed_or_added nd) R (mkLocals o ids, w)
    = (mkLocals (fold_left (@delete ModData) R o) ids, rm_all o R w).
Proof.
  induction R as [|k R IH]; simpl; intros o ids w ND H; [reflexivity|].
  inversion ND as [|? ? Hk ND']; subst.
  destruct (get o k) as [e|] eqn:G; [|exfalso; apply (H k); auto].
  rewrite IH; trivial.
  - f_equal. unfold file_of. rewrite G. apply rm_all_ext.
    intros k' I. unfold file_of. rewrite get_delete.
    destruct (String.eqb k k') eqn:E; [|reflexivity].
    apply String.eqb_eq in E. congruence.
  - intros k' I. rewrite get_delete.
    destruct (String.eqb k k') eqn:E; [|auto].
    apply String.eqb_eq in E. congruence.
Qed.

Lemma added_phase (A : list string) :
  forall (o : Cache) (ids : list string) (w : World),
    NoDup A ->
    (forall k, In k A -> get o k = None /\ get nd k <> None /\ ~ In k ids) ->
    fold_left (removed_or_added nd) A (mkLocals o ids, w)
    = (mkLocals (fold_left (add_new nd) A o) (ids ++ A), w).
Proof.
  induction A as [|k A IH]; simpl; intros o ids w ND H.
  - now rewrite app_nil_r.
  - inversion ND as [|? ? Hk ND']; subst.
    destruct (H k) as (G & Gn & I); auto.
    rewrite G. unfold add_new at 2.
    destruct (get nd k) as [n|] eqn:Gk; [|congruence].
    apply includes_false in I. rewrite I.
    rewrite IH; trivial.
    + now rewrite <- app_assoc.
    + intros k' I'. destruct (H k') as (G' & Gn' & In'); auto.
      assert (k <> k') by congruence.
      rewrite get_set_neq by assumption. repeat split; trivial.
      rewrite in_app_iff. simpl. tauto.
Qed.

Lemma filter_throwing_normal (p : string -> Completion bool)
      (q : string -> bool) (xs : list string) :
  (forall x, In x xs -> p x = Normal (q x)) ->
  filter_throwing p xs = Normal (filter q xs).
Proof.
  induction xs as [|x xs IH]; simpl; intros H; [reflexivity|].
  rewrite (H x), IH by auto. reflexivity.
Qed.

Lemma updated_phase (C : list string) :
  forall (o : Cache) (ids : list string) (w : World),
    NoDup C ->
    (forall k, In k C -> get o k <> None /\ get nd k <> None /\ ~ In k ids) ->
    for_of (updated nd) C (mkLocals o ids) w
    = (rm_all o C w, Normal (mkLocals (fold_left (put_updated nd) C o) (ids ++ C))).
Proof.
  induction C as [|k C IH]; simpl; intros o ids w ND H.
  - now rewrite app_nil_r.
  - inversion ND as [|? ? Hk ND']; subst.
    destruct (H k) as (G & Gn & I); auto.
    unfold updated at 1. simpl.
    destruct (get o k) as [e|] eqn:Go; [|congruence].
    destruct (get nd k) as [n|] eqn:Gk; [|congruence].
    apply includes_false in I. rewrite I.
    unfold put_updated at 2. rewrite Gk.
    rewrite IH; trivial.
    + rewrite <- app_assoc. simpl. f_equal.
      unfold file_of. rewrite Go. apply rm_all_ext.
      intros k' I'. unfold file_of. rewrite get_set_neq; [reflexivity|congruence].
    + intros k' I'. destruct (H k') as (G' & Gn' & In'); auto.
      assert (k <> k') by congruence.
      rewrite get_set_neq by assumption. repeat split; trivial.
      rewrite in_app_iff. simpl. tauto.
Qed.

End DiffLoops.

Lemma NoDup_own_keys_build_newData (files : list ManifestFile) :
  NoDup (own_keys (build_newData files)).
Proof.
  unfold build_newData.
  assert (G : forall o : Cache, NoDup (own_keys o) ->
            NoDup (own_keys (fold_left
              (fun newData data =>
                 set newData (template (projectID data))
                     (mkModData None (fileID data) (required data))) files o))).
  { induction files as [|d ds IH]; simpl; intros o H; [assumption|].
    apply IH. now apply NoDup_own_keys_set. }
  apply G. constructor.
Qed.

Lemma removed_keys_spec (old nd : Cache) (k : string) :
  In k (removed_keys old nd) <-> get old k <> None /\ get nd k = None.
Proof.
  unfold removed_keys. rewrite filter_In, In_Object_keys, negb_true_iff,
    includes_false, In_Object_keys.
  destruct (get nd k); intuition congruence.
Qed.

Lemma added_keys_spec (old nd : Cache) (k : string) :
  In k (added_keys old nd) <-> get nd k <> None /\ get old k = None.
Proof.
  unfold added_keys. rewrite filter_In, In_Object_keys, negb_true_iff,
    includes_false, In_Object_keys.
  destruct (get old k); intuition congruence.
Qed.

Lemma changed_keys_spec (old nd : Cache) (k : string) :
  In k (changed_keys old nd) <-> changed old nd k = true.
Proof.
  unfold changed_keys. rewrite filter_In, In_Object_keys.
  split; [tauto|]. intros H. split; [|assumption].
  unfold changed in H. destruct (get nd k), (get old k); congruence.
Qed.

Lemma changed_true (old nd : Cache) (k : string) :
  changed old nd k = true <->
  exists o n, get old k = Some o /\ get nd k = Some n
              /\ strict_eq (md_fileID o) (md_fileID n) = false.
Proof.
  unfold changed. split.
  - destruct (get nd k) as [n|], (get old k) as [o|]; try discriminate.
    intros H. exists o, n. now rewrite negb_true_iff in H.
  - intros (o & n & -> & -> & H). now rewrite H.
Qed.

Section DiffClosed.
Variables (old nd : Cache).
Hypothesis NDold : NoDup (own_keys old).

Lemma NoDup_removed_keys : NoDup (removed_keys old nd).
Proof. apply NoDup_filter. now apply NoDup_Object_keys. Qed.

Lemma NoDup_changed_keys : NoDup (changed_keys old nd).
Proof. apply NoDup_filter. now apply NoDup_Object_keys. Qed.

Lemma NoDup_added_keys : NoDup (own_keys nd) -> NoDup (added_keys old nd).
Proof. intros H. apply NoDup_filter. now apply NoDup_Object_keys. Qed.

Lemma get_after_first (k : string) :
  get (after_first old nd) k =
  match get old k with
  | Some e => match get nd k with Some _ => Some e | None => None end
  | None => get nd k
  end.
Proof.
  unfold after_first. rewrite get_fold_add_new, get_fold_delete.
  destruct (includes (added_keys old nd) k) eqn:A.
  - apply includes_In, added_keys_spec in A. destruct A as [A1 A2].
    rewrite A2. destruct (get nd k); [|congruence].
    reflexivity.
  - apply includes_false in A. rewrite added_keys_spec in A.
    destruct (includes (removed_keys old nd) k) eqn:R.
    + apply includes_In, removed_keys_spec in R. destruct R as [R1 R2].
      rewrite R2. now destruct (get old k).
    + apply includes_false in R. rewrite removed_keys_spec in R.
      destruct (get old k), (get nd k); try reflexivity.
      * exfalso. apply R. split; congruence.
      * exfalso. apply A. split; congruence.
Qed.

Lemma first_loop (w : World) :
  NoDup (own_keys nd) ->
  fold_left (removed_or_added nd)
            (added_or_removed (Object_keys old) (Object_keys nd))
            (mkLocals old [], w)
  = (mkLocals (after_first old nd) (added_keys old nd),
     rm_all old (removed_keys old nd) w).
Proof.
  intros NDnd. unfold added_or_removed. rewrite fold_left_app.
  fold (removed_keys old nd). fold (added_keys old nd).
  rewrite removed_phase.
  - rewrite added_phase; [reflexivity | now apply NoDup_added_keys |].
    intros k I. apply added_keys_spec in I. destruct I as [I1 I2].
    rewrite get_fold_delete, I2. split; [now destruct (includes _ k)|].
    split; [assumption | intros []].
  - apply NoDup_removed_keys.
  - intros k I. now apply removed_keys_spec in I.
Qed.

Lemma second_filter :
  filter_throwing (fileID_changed nd (after_first old nd)) (Object_keys old)
  = Normal (changed_keys old nd).
Proof.
  apply filter_throwing_normal. intros k I.
  apply In_Object_keys in I. unfold fileID_changed, changed.
  rewrite get_after_first.
  destruct (get nd k), (get old k); congruence.
Qed.

Lemma second_loop (w : World) :
  for_of (updated nd) (changed_keys old nd)
         (mkLocals (after_first old nd) (added_keys old nd)) w
  = (rm_all old (changed_keys old nd) w,
     Normal (mkLocals (diff_result old nd)
                      (added_keys old nd ++ changed_keys old nd))).
Proof.
  rewrite updated_phase.
  - f_equal. apply rm_all_ext. intros k I.
    apply changed_keys_spec, changed_true in I.
    destruct I as (o & n & Ho & Hn & _).
    unfold file_of. now rewrite get_after_first, Ho, Hn.
  - apply NoDup_changed_keys.
  - intros k I. apply changed_keys_spec, changed_true in I.
    destruct I as (o & n & Ho & Hn & _).
    rewrite get_after_first, Ho, Hn. repeat split; try congruence.
    rewrite added_keys_spec. intros [_ E]. congruence.
Qed.

End DiffClosed.

(** The diff never throws, and its outcome is the closed form. *)
Lemma diff_eq (files : list ManifestFile) (old : Cache) (w : World) :
  NoDup (own_keys old) ->
  diff files old w
  = (rm_all old (changed_keys old (build_newData files))
            (rm_all old (removed_keys old (build_newData files)) w),
     Normal (mkLocals (diff_result old (build_newData files))
                      (added_keys old (build_newData files)
                         ++ changed_keys old (build_newData files)))).
Proof.
  intros ND. unfold diff.
  rewrite first_loop by (trivial; apply NoDup_own_keys_build_newData).
  simpl. rewrite second_filter. now apply second_loop.
Qed.

(** What the diff leaves under each key. *)
Lemma get_diff_result (old nd : Cache) (k : string) :
  get (diff_result old nd) k =
  match get old k, get nd k with
  | Some e, Some n =>
      if strict_eq (md_fileID e) (md_fileID n) then Some e
      else Some (mkModData None (md_fileID n) (md_required n))
  | Some e, None => None
  | None, Some n => Some n
  | None, None => None
  end.
Proof.
  unfold diff_result. fold (after_first old nd).
  rewrite get_fold_put_updated, get_after_first.
  destruct (includes (changed_keys old nd) k) eqn:C.
  - apply includes_In, changed_keys_spec, changed_true in C.
    destruct C as (o & n & -> & -> & ->). reflexivity.
  - apply includes_false in C. rewrite changed_keys_spec in C.
    unfold changed in C.
    destruct (get old k) as [e|], (get nd k) as [n|]; try reflexivity.
    destruct (strict_eq (md_fileID e) (md_fileID n)); [reflexivity|].
    simpl in C. congruence.
Qed.

Lemma rm_all_log (o : Cache) (ks : list string) (w : World) :
  log (rm_all o ks w) = log w ++ map (rm_event o) ks.
Proof.
  revert w. induction ks as [|k ks IH]; simpl; intros w.
  - now rewrite app_nil_r.
  - rewrite IH. simpl. now rewrite <- app_assoc.
Qed.

Lemma rm_all_files (o : Cache) (ks : list string) (w : World) :
  manifest_json (rm_all o ks w) = manifest_json w
  /\ cache_json (rm_all o ks w) = cache_json w.
Proof.
  revert w. induction ks as [|k ks IH]; simpl; intros w; [tauto|].
  destruct (IH (rm_modcache k (file_of o k) w)) as [-> ->]. simpl. tauto.
Qed.

Lemma In_remove_name (name f : string) (dir : list string) :
  In f (remove_name name dir) <-> In f dir /\ name <> f.
Proof.
  unfold remove_name. rewrite filter_In, negb_true_iff, String.eqb_neq. tauto.
Qed.

Lemma rm_all_glob (o : Cache) (ks : list string) (w : World) :
  Juke_glob (rm_all o ks w) = Juke_glob w.
Proof.
  revert w. induction ks as [|k ks IH]; simpl; intros w; [reflexivity|].
  now rewrite IH.
Qed.

Lemma rm_all_modcache (o : Cache) (ks : list string) (w : World) (f : string) :
  In f (modcache (rm_all o ks w)) <->
  In f (modcache w)
  /\ forall k, In k ks -> matched w (template_opt (file_of o k)) f = false.
Proof.
  revert w. induction ks as [|k ks IH]; simpl; intros w.
  - intuition.
  - rewrite IH. simpl. rewrite filter_In, negb_true_iff.
    change (forall k0, In k0 ks ->
              matched (rm_modcache k (file_of o k) w)
                      (template_opt (file_of o k0)) f = false)
      with (forall k0, In k0 ks ->
              matched w (template_opt (file_of o k0)) f = false).
    split.
    + intros [[H1 H2] H3]. split; [assumption|].
      intros k' [<-|I]; auto.
    + intros [H1 H2]. repeat split; auto.
Qed.

(** Where the pattern of [name] matches the file [name] and no other, as it
    does for a name without glob characters. *)
Lemma matched_literal (w : World) (name f : string) :
  literal w name -> matched w name f = false <-> name <> f.
Proof. intros L. rewrite L. apply String.eqb_neq. Qed.

Lemma NoDup_remove_name (name : string) (dir : list string) :
  NoDup dir -> NoDup (remove_name name dir).
Proof. apply NoDup_filter. Qed.

Lemma remap_eq (files : list ManifestFile) :
  remap files
  = mkLocals (build_newData files) (map (fun d => template (projectID d)) files).
Proof.
  unfold remap, build_newData.
  assert (G : forall o ids,
    fold_left
      (fun st data =>
         mkLocals
           (set (oldData st) (template (projectID data))
                (mkModData None (fileID data) (required data)))
           (mIdToDownload st ++ [template (projectID data)]))
      files (mkLocals o ids)
    = mkLocals
        (fold_left
           (fun newData data =>
              set newData (template (projectID data))
                  (mkModData None (fileID data) (required data)))
           files o)
        (ids ++ map (fun d => template (projectID d)) files)).
  { induction files as [|d ds IH]; simpl; intros o ids.
    - now rewrite app_nil_r.
    - rewrite IH. now rewrite <- app_assoc. }
  apply G.
Qed.

(** The manifest as [newData] sees it: a key is there exactly when some entry
    carries it. *)
Lemma build_newData_In (files : list ManifestFile) (k : string) :
  get (build_newData files) k <> None <->
  exists d, In d files /\ template (projectID d) = k.
Proof.
  unfold build_newData.
  assert (G : forall o : Cache,
    get (fold_left
           (fun newData data =>
              set newData (template (projectID data))
                  (mkModData None (fileID data) (required data)))
           files o) k <> None <->
    get o k <> None \/ exists d, In d files /\ template (projectID d) = k).
  { induction files as [|d ds IH]; simpl; intros o.
    - split; [tauto|]. intros [H|(d & [] & _)]. assumption.
    - rewrite IH, get_set. destruct (String.eqb (template (projectID d)) k) eqn:E.
      + apply String.eqb_eq in E. split; intros _.
        * right. exists d. auto.
        * left. discriminate.
      + apply String.eqb_neq in E. split.
        * intros [H|(d' & I & H)]; [tauto|]. right. exists d'. auto.
        * intros [H|(d' & [<-|I] & H)]; [tauto|congruence|].
          right. exists d'. auto. }
  rewrite G. simpl. split; [intros [H|H]; [congruence|assumption] | auto].
Qed.

(** Every entry of [newData] is without a [file]. *)
Lemma build_newData_file (files : list ManifestFile) (k : string) (n : ModData) :
  get (build_newData files) k = Some n -> md_file n = None.
Proof.
  unfold build_newData.
  assert (G : forall o : Cache,
    (forall e, get o k = Some e -> md_file e = None) ->
    forall e,
    get (fold_left
           (fun newData data =>
              set newData (template (projectID data))
                  (mkModData None (fileID data) (required data)))
           files o) k = Some e -> md_file e = None).
  { induction files as [|d ds IH]; simpl; intros o H e; [apply H|].
    apply IH. intros e'. rewrite get_set.
    destruct (String.eqb _ k); [|apply H]. intros [= <-]. reflexivity. }
  apply G. simpl. discriminate.
Qed.

(** With a repeated [projectID], the last entry is the one [newData] keeps. *)
Lemma build_newData_last (l1 l2 : list ManifestFile) (d : ManifestFile) :
  (forall d', In d' l2 -> template (projectID d') <> template (projectID d)) ->
  get (build_newData (l1 ++ d :: l2)) (template (projectID d))
  = Some (mkModData None (fileID d) (required d)).
Proof.
  intros H. unfold build_newData. rewrite fold_left_app. simpl.
  generalize (fold_left
                (fun newData data =>
                   set newData (template (projectID data))
                       (mkModData None (fileID data) (required data))) l1 []).
  intros o.
  assert (G : forall o' : Cache,
    get (fold_left
           (fun newData data =>
              set newData (template (projectID data))
                  (mkModData None (fileID data) (required data))) l2 o')
        (template (projectID d))
    = get o' (template (projectID d))).
  { induction l2 as [|d' l2 IH]; simpl; intros o'; [reflexivity|].
    rewrite IH by (intros; apply H; simpl; auto).
    apply get_set_neq. apply H. simpl. auto. }
  rewrite G. apply get_set_eq.
Qed.

Lemma fid_of_set_same (d : Cache) (a : string) (e : ModData)
      (x : option string) (r : bool) (k : string) :
  get d a = Some e ->
  fid_of (set d a (mkModData x (md_fileID e) r)) k = fid_of d k.
Proof.
  intros G. unfold fid_of. rewrite get_set.
  destruct (String.eqb a k) eqn:E; [|reflexivity].
  apply String.eqb_eq in E. subst. now rewrite G.
Qed.

Lemma map_call_event_ext (d1 d2 : Cache) (ks : list string) :
  (forall k, fid_of d1 k = fid_of d2 k) ->
  map (call_event d1) ks = map (call_event d2) ks.
Proof.
  intros H. apply map_ext. intros k. unfold call_event. now rewrite H.
Qed.

Lemma call_event_get (d : Cache) (k : string) (e : ModData) :
  get d k = Some e ->
  call_event d k = DownloadCF_call k (md_fileID e) "dist/modcache/".
Proof. intros G. unfold call_event, fid_of. now rewrite G. Qed.

Section DownloadLoop.
Variable DownloadCF : string -> value -> option string.

(** The loop stops at the first failure, whatever it is; until then it only
    calls [DownloadCF] and adds files. *)
Lemma download_loop_any (ids : list string) :
  forall (d : Cache) (w w' : World) (c : Completion Cache),
    for_of (download DownloadCF) ids d w = (w', c) ->
    manifest_json w' = manifest_json w
    /\ cache_json w' = cache_json w
    /\ (exists n, log w' = log w ++ map (call_event d) (firstn n ids))
    /\ (forall f, In f (modcache w) -> In f (modcache w')).
Proof.
  induction ids as [|a ids IH]; simpl; intros d w w' c H.
  - inversion H; subst. repeat split; auto.
    exists 0. now rewrite app_nil_r.
  - unfold download in H at 1.
    destruct (get d a) as [e|] eqn:G.
    + destruct (DownloadCF a (md_fileID e)) as [name|] eqn:D.
      * apply IH in H. destruct H as (H1 & H2 & (n & H3) & H4).
        simpl in *. repeat split; auto.
        -- exists (S n). rewrite H3. simpl. rewrite <- app_assoc. simpl.
           rewrite (call_event_get d a e G).
           now rewrite (map_call_event_ext _ d _ (fun k => fid_of_set_same d a e (Some name) (md_required e) k G)).
        -- intros f I. apply H4. simpl.
           destruct (string_dec name f); [auto|].
           right. apply In_remove_name. auto.
      * inversion H; subst. simpl. repeat split; auto.
        exists 1. simpl. unfold call_event, fid_of. now rewrite G.
    + inversion H; subst. repeat split; auto.
      exists 0. now rewrite app_nil_r.
Qed.

(** A loop that completed called [DownloadCF] once per scheduled id, with
    the [fileID] on record, and put the name it got under [file]. *)
Lemma download_loop_ok (ids : list string) :
  forall (d d' : Cache) (w w' : World),
    for_of (download DownloadCF) ids d w = (w', Normal d') ->
    (forall k, In k ids -> get d k <> None /\ DownloadCF k (fid_of d k) <> None)
    /\ log w' = log w ++ map (call_event d) ids
    /\ (forall k,
           get d' k =
           match get d k with
           | Some e =>
               if includes ids k
               then Some (mkModData (DownloadCF k (md_fileID e))
                                    (md_fileID e) (md_required e))
               else Some e
           | None => None
           end)
    /\ (forall f,
           In f (modcache w') <->
           In f (modcache w)
           \/ exists k, In k ids /\ DownloadCF k (fid_of d k) = Some f)
    /\ own_keys d' = own_keys d.
Proof.
  induction ids as [|a ids IH]; simpl; intros d d' w w' H.
  - inversion H; subst. repeat split; try tauto.
    + now rewrite app_nil_r.
    + intros k. now destruct (get d' k).
    + intros [I|(k & [] & _)]. assumption.
  - unfold download in H at 1.
    destruct (get d a) as [e|] eqn:G; [|discriminate].
    destruct (DownloadCF a (md_fileID e)) as [name|] eqn:D; [|discriminate].
    apply IH in H. destruct H as (H1 & H2 & H3 & H4 & H5).
    pose proof (fun k => fid_of_set_same d a e (Some name) (md_required e) k G) as F.
    assert (Fa : fid_of d a = md_fileID e) by (unfold fid_of; now rewrite G).
    repeat split.
    + destruct H as [<-|I]; [congruence|].
      destruct (H1 k I) as [H _]. rewrite get_set in H.
      destruct (String.eqb a k) eqn:E; [|assumption].
      apply String.eqb_eq in E. congruence.
    + destruct H as [<-|I]; [congruence|].
      destruct (H1 k I) as [_ H]. now rewrite F in H.
    + rewrite H2. simpl. rewrite <- app_assoc. simpl.
      rewrite (call_event_get d a e G).
      now rewrite (map_call_event_ext _ d _ F).
    + intros k. rewrite H3, get_set. unfold includes. simpl.
      fold (includes ids k). rewrite (String.eqb_sym k a).
      destruct (String.eqb a k) eqn:E; simpl.
      * apply String.eqb_eq in E. subst k. rewrite G. simpl. rewrite D.
        now destruct (includes ids a).
      * reflexivity.
    + rewrite H4. simpl. intros [[<-|I]|(k & I & Hk)].
      * right. exists a. split; [auto|congruence].
      * apply In_remove_name in I. tauto.
      * right. exists k. rewrite F in Hk. auto.
    + rewrite H4. simpl. intros [I|(k & [<-|I] & Hk)].
      * destruct (string_dec name f); [auto|].
        left. right. apply In_remove_name. auto.
      * left. left. congruence.
      * right. exists k. rewrite F. auto.
    + rewrite H5. apply own_keys_set_present.
      apply get_In_own_keys. congruence.
Qed.

(** When every scheduled download succeeds, the loop completes. *)
Lemma download_loop_total (ids : list string) :
  forall (d : Cache) (w : World),
    (forall k, In k ids -> get d k <> None /\ DownloadCF k (fid_of d k) <> None) ->
    exists w' d', for_of (download DownloadCF) ids d w = (w', Normal d').
Proof.
  induction ids as [|a ids IH]; simpl; intros d w H.
  - eauto.
  - destruct (H a) as [G D]; auto.
    unfold download at 1. unfold fid_of in D.
    destruct (get d a) as [e|] eqn:Ga; [|congruence].
    destruct (DownloadCF a (md_fileID e)) as [name|] eqn:Da; [|congruence].
    apply IH. intros k I.
    rewrite (fid_of_set_same d a e (Some name) (md_required e) k Ga). rewrite get_set.
    destruct (H k) as [Gk Dk]; auto.
    split; [|assumption]. now destruct (String.eqb a k).
Qed.

(** The first download that fails ends the loop on the spot. *)
Lemma download_loop_fail (pre : list string) :
  forall (b : string) (post : list string) (d : Cache) (w : World),
    (forall k, In k pre -> get d k <> None /\ DownloadCF k (fid_of d k) <> None) ->
    get d b <> None ->
    DownloadCF b (fid_of d b) = None ->
    exists w',
      for_of (download DownloadCF) (pre ++ b :: post) d w
      = (w', Throw (DownloadFailed b (fid_of d b)))
      /\ log w' = log w ++ map (call_event d) (pre ++ [b])
      /\ cache_json w' = cache_json w.
Proof.
  induction pre as [|a pre IH]; simpl; intros b post d w H Gb Db.
  - unfold download, fid_of in *.
    destruct (get d b) as [e|] eqn:G; [|congruence].
    rewrite Db. eexists. split; [reflexivity|]. simpl.
    unfold call_event, fid_of. now rewrite G.
  - destruct (H a) as [G D]; auto.
    unfold download at 1. unfold fid_of in D.
    destruct (get d a) as [e|] eqn:Ga; [|congruence].
    destruct (DownloadCF a (md_fileID e)) as [name|] eqn:Da; [|congruence].
    pose proof (fun k => fid_of_set_same d a e (Some name) (md_required e) k Ga) as F.
    set (d1 := set d a (mkModData (Some name) (md_fileID e) (md_required e))).
    set (w1 := store_modcache name
                 (emit (DownloadCF_call a (md_fileID e) "dist/modcache/") w)).
    destruct (IH b post d1 w1) as (w' & E & L & C).
    + intros k I. unfold d1. rewrite F, get_set.
      destruct (H k) as [Gk Dk]; auto.
      split; [|assumption]. destruct (String.eqb a k); [discriminate|assumption].
    + unfold d1. rewrite get_set.
      destruct (String.eqb a b); [discriminate|assumption].
    + unfold d1. rewrite F. assumption.
    + exists w'. unfold d1 in E, L. rewrite F in E. split; [exact E|]. split.
      * rewrite L. simpl. rewrite <- app_assoc. simpl.
        rewrite (call_event_get d a e Ga).
        now rewrite (map_call_event_ext _ d _ F).
      * rewrite C. reflexivity.
Qed.

End DownloadLoop.

Lemma plan_closed (files : list ManifestFile) (w : World) :
  cache_json w <> Unparsable ->
  plan files w
  = (rm_all (old_of (cache_json w)) (removals_of files (cache_json w)) w,
     Normal (mkLocals (planned_of files (cache_json w))
                      (scheduled_of files (cache_json w)))).
Proof.
  intros H. unfold plan. destruct (cache_json w) as [| |members] eqn:C.
  - simpl. now rewrite remap_eq.
  - congruence.
  - rewrite diff_eq by apply NoDup_own_keys_parse.
    simpl. unfold rm_all. now rewrite fold_left_app.
Qed.

Lemma plan_unparsable (files : list ManifestFile) (w : World) :
  cache_json w = Unparsable ->
  plan files w = (w, Throw (SyntaxError "dist/cache.json")).
Proof. intros H. unfold plan. now rewrite H. Qed.

Lemma NoDup_own_keys_old_of (c : JsonFile (list (string * ModData))) :
  NoDup (own_keys (old_of c)).
Proof.
  destruct c; simpl; try constructor. apply NoDup_own_keys_parse.
Qed.

(** Whatever is scheduled has its record in [dataKeys]. *)
Lemma scheduled_planned (files : list ManifestFile)
      (c : JsonFile (list (string * ModData))) (k : string) :
  In k (scheduled_of files c) -> get (planned_of files c) k <> None.
Proof.
  destruct c as [| |members]; simpl.
  - intros I. apply build_newData_In. apply in_map_iff in I.
    destruct I as (d & E & I). eauto.
  - intros I. apply build_newData_In. apply in_map_iff in I.
    destruct I as (d & E & I). eauto.
  - rewrite in_app_iff, added_keys_spec, changed_keys_spec, changed_true.
    rewrite get_diff_result.
    intros [[N O]|(o & n & O & N & F)].
    + rewrite O. destruct (get (build_newData files) k); congruence.
    + rewrite O, N, F. discriminate.
Qed.

Lemma new_events_app (w w' : World) (evs : list Event) :
  log w' = log w ++ evs -> new_events w w' = evs.
Proof.
  intros H. unfold new_events. rewrite H, skipn_app, skipn_all, Nat.sub_diag.
  reflexivity.
Qed.

Lemma Forall_map_rm_event (P : Event -> Prop) (o : Cache) (ks : list string) :
  (forall pid path, P (Juke_rm pid path)) -> Forall P (map (rm_event o) ks).
Proof.
  intros H. apply Forall_forall. intros e I. apply in_map_iff in I.
  destruct I as (k & <- & _). apply H.
Qed.

Lemma Forall_map_call_event (P : Event -> Prop) (d : Cache) (ks : list string) :
  (forall m v dir, P (DownloadCF_call m v dir)) -> Forall P (map (call_event d) ks).
Proof.
  intros H. apply Forall_forall. intros e I. apply in_map_iff in I.
  destruct I as (k & <- & _). apply H.
Qed.

(** The anatomy of a run over a parsed manifest and a usable cache record:
    the directory is made, the removals are issued, then the downloads, then
    the record is written if nothing failed. *)
Lemma run_anatomy (DownloadCF : string -> value -> option string) (w : World)
      (files : list ManifestFile) :
  manifest_json w = Parsed files ->
  cache_json w <> Unparsable ->
  let old := old_of (cache_json w) in
  let w1 := rm_all old (removals_of files (cache_json w)) (mkdir_modcache w) in
  let ids := scheduled_of files (cache_json w) in
  let d := planned_of files (cache_json w) in
  exists w2 c,
    for_of (download DownloadCF) ids d w1 = (w2, c)
    /\ DownloadModsTarget DownloadCF w
       = match c with
         | Normal dataKeys => (write_cache_json dataKeys w2, Normal tt)
         | Throw e => (w2, Throw e)
         end.
Proof.
  intros M C old w1 ids d.
  destruct (for_of (download DownloadCF) ids d w1) as [w2 c] eqn:E.
  exists w2, c. split; [reflexivity|].
  unfold DownloadModsTarget. rewrite M.
  rewrite plan_closed by exact C. simpl.
  fold old. fold ids. fold d. fold w1. rewrite E. now destruct c.
Qed.

Lemma run_log (DownloadCF : string -> value -> option string) (w : World)
      (files : list ManifestFile) :
  manifest_json w = Parsed files ->
  cache_json w <> Unparsable ->
  exists n tail,
    new_events w (fst (DownloadModsTarget DownloadCF w))
    = fs_mkdirSync "dist/modcache"
        :: map (rm_event (old_of (cache_json w))) (removals_of files (cache_json w))
        ++ map (call_event (planned_of files (cache_json w)))
               (firstn n (scheduled_of files (cache_json w)))
        ++ tail
    /\ (tail = [] \/ exists data, tail = [fs_writeFileSync "dist/cache.json" data]).
Proof.
  intros M C.
  destruct (run_anatomy DownloadCF w files M C) as (w2 & c & E & R).
  apply download_loop_any in E. destruct E as (_ & _ & (n & L) & _).
  rewrite rm_all_log in L. simpl in L.
  rewrite R. exists n.
  destruct c as [dataKeys|e]; simpl.
  - exists [fs_writeFileSync "dist/cache.json" (JSON_stringify dataKeys)].
    split; [|eauto]. apply new_events_app. simpl. rewrite L.
    repeat rewrite <- app_assoc. reflexivity.
  - exists []. split; [|auto]. apply new_events_app. rewrite L.
    repeat rewrite <- app_assoc. rewrite app_nil_r. reflexivity.
Qed.

Lemma run_no_manifest (DownloadCF : string -> value -> option string) (w : World) :
  (manifest_json w = Absent \/ manifest_json w = Unparsable) ->
  exists e, DownloadModsTarget DownloadCF w = (w, Throw e).
Proof.
  unfold DownloadModsTarget. intros [-> | ->]; eauto.
Qed.

Lemma run_unparsable_cache (DownloadCF : string -> value -> option string)
      (w : World) (files : list ManifestFile) :
  manifest_json w = Parsed files ->
  cache_json w = Unparsable ->
  DownloadModsTarget DownloadCF w
  = (mkdir_modcache w, Throw (SyntaxError "dist/cache.json")).
Proof.
  intros M C. unfold DownloadModsTarget. rewrite M.
  rewrite plan_unparsable; [reflexivity | exact C].
Qed.

Lemma new_events_same (w : World) : new_events w w = [].
Proof. unfold new_events. apply skipn_all. Qed.

Lemma new_events_mkdir (w : World) :
  new_events w (mkdir_modcache w) = [fs_mkdirSync "dist/modcache"].
Proof. now apply new_events_app. Qed.

Lemma rm_before_call_split (A B : list Event) :
  Forall (fun e => is_call e = false) A ->
  Forall (fun e => is_rm e = false) B ->
  forall i j e1 e2,
    nth_error (A ++ B) i = Some e1 -> is_rm e1 = true ->
    nth_error (A ++ B) j = Some e2 -> is_call e2 = true ->
    i < j.
Proof.
  intros HA HB i j e1 e2 H1 R1 H2 C2.
  rewrite Forall_forall in HA, HB.
  destruct (Nat.lt_ge_cases j (List.length A)) as [J|J].
  - rewrite nth_error_app1 in H2 by assumption.
    apply nth_error_In, HA in H2. congruence.
  - destruct (Nat.lt_ge_cases i (List.length A)) as [I|I]; [lia|].
    rewrite nth_error_app2 in H1 by assumption.
    apply nth_error_In, HB in H1. congruence.
Qed.

(** The events of any run: removals first, downloads after. *)
Lemma run_events_split (DownloadCF : string -> value -> option string) (w : World) :
  exists A B,
    new_events w (fst (DownloadModsTarget DownloadCF w)) = A ++ B
    /\ Forall (fun e => is_call e = false) A
    /\ Forall (fun e => is_rm e = false) B.
Proof.
  destruct (manifest_json w) as [| |files] eqn:M.
  - destruct (run_no_manifest DownloadCF w) as (e & ->); [auto|].
    exists [], []. simpl. rewrite new_events_same. auto.
  - destruct (run_no_manifest DownloadCF w) as (e & ->); [auto|].
    exists [], []. simpl. rewrite new_events_same. auto.
  - destruct (cache_json w) as [| |members] eqn:C.
    + destruct (run_log DownloadCF w files M) as (n & tail & E & T); [congruence|].
      rewrite C in E. simpl in E.
      exists [fs_mkdirSync "dist/modcache"],
        (map (call_event (build_newData files))
             (firstn n (map (fun d => template (projectID d)) files)) ++ tail).
      split; [exact E|]. split; [repeat constructor|].
      apply Forall_app. split; [now apply Forall_map_call_event|].
      destruct T as [->|(data & ->)]; repeat constructor.
    + rewrite (run_unparsable_cache DownloadCF w files M C). simpl.
      rewrite new_events_mkdir. exists [fs_mkdirSync "dist/modcache"], [].
      repeat constructor.
    + destruct (run_log DownloadCF w files M) as (n & tail & E & T); [congruence|].
      rewrite C in E.
      exists (fs_mkdirSync "dist/modcache"
                :: map (rm_event (old_of (Parsed members)))
                       (removals_of files (Parsed members))),
        (map (call_event (planned_of files (Parsed members)))
             (firstn n (scheduled_of files (Parsed members))) ++ tail).
      split; [exact E|]. split.
      * constructor; [reflexivity|]. now apply Forall_map_rm_event.
      * apply Forall_app. split; [now apply Forall_map_call_event|].
        destruct T as [->|(data & ->)]; repeat constructor.
Qed.

Lemma changed_nil (nd : Cache) (k : string) : changed [] nd k = false.
Proof. unfold changed. simpl. now destruct (get nd k). Qed.

Lemma In_scheduled_of (files : list ManifestFile)
      (c : JsonFile (list (string * ModData))) (k : string) :
  In k (scheduled_of files c) <->
  (get (build_newData files) k <> None /\ get (old_of c) k = None)
  \/ changed (old_of c) (build_newData files) k = true.
Proof.
  assert (A : In k (map (fun d => template (projectID d)) files) <->
              get (build_newData files) k <> None).
  { rewrite build_newData_In, in_map_iff. split; intros (d & H1 & H2); eauto. }
  destruct c as [| |members]; simpl; try rewrite changed_nil.
  - rewrite A. intuition congruence.
  - rewrite A. intuition congruence.
  - now rewrite in_app_iff, added_keys_spec, changed_keys_spec.
Qed.

Lemma In_removals_of (files : list ManifestFile)
      (c : JsonFile (list (string * ModData))) (k : string) :
  In k (removals_of files c) <->
  (get (old_of c) k <> None /\ get (build_newData files) k = None)
  \/ changed (old_of c) (build_newData files) k = true.
Proof.
  destruct c as [| |members]; simpl; try rewrite changed_nil.
  - intuition congruence.
  - intuition congruence.
  - now rewrite in_app_iff, removed_keys_spec, changed_keys_spec.
Qed.

Lemma get_planned_of (files : list ManifestFile)
      (c : JsonFile (list (string * ModData))) (k : string) :
  get (planned_of files c) k =
  match get (old_of c) k, get (build_newData files) k with
  | Some e, Some n =>
      if strict_eq (md_fileID e) (md_fileID n) then Some e
      else Some (mkModData None (md_fileID n) (md_required n))
  | Some e, None => None
  | None, Some n => Some n
  | None, None => None
  end.
Proof.
  destruct c as [| |members]; simpl.
  - now destruct (get (build_newData files) k).
  - now destruct (get (build_newData files) k).
  - apply get_diff_result.
Qed.

Lemma NoDup_removals_of (files : list ManifestFile)
      (c : JsonFile (list (string * ModData))) :
  NoDup (removals_of files c).
Proof.
  destruct c as [| |members]; simpl; try constructor.
  apply NoDup_app.
  - apply NoDup_removed_keys, NoDup_own_keys_parse.
  - apply NoDup_changed_keys, NoDup_own_keys_parse.
  - intros k R C. apply removed_keys_spec in R.
    apply changed_keys_spec, changed_true in C.
    destruct R as [_ R], C as (o & n & _ & N & _). congruence.
Qed.

Lemma NoDup_scheduled_of_parsed (files : list ManifestFile)
      (members : list (string * ModData)) :
  NoDup (scheduled_of files (Parsed members)).
Proof.
  simpl. apply NoDup_app.
  - apply NoDup_added_keys, NoDup_own_keys_build_newData.
  - apply NoDup_changed_keys, NoDup_own_keys_parse.
  - intros k A C. apply added_keys_spec in A.
    apply changed_keys_spec, changed_true in C.
    destruct A as [_ A], C as (o & n & O & _ & _). congruence.
Qed.

Lemma plan_normal_inv (files : list ManifestFile) (w w1 : World) (st : Locals) :
  plan files w = (w1, Normal st) ->
  cache_json w <> Unparsable
  /\ w1 = rm_all (old_of (cache_json w)) (removals_of files (cache_json w)) w
  /\ st = mkLocals (planned_of files (cache_json w))
                   (scheduled_of files (cache_json w)).
Proof.
  intros H. destruct (cache_json w) as [| |members] eqn:C.
  - rewrite plan_closed in H by congruence. rewrite C in H.
    inversion H. repeat split. discriminate.
  - rewrite plan_unparsable in H by assumption. discriminate.
  - rewrite plan_closed in H by congruence. rewrite C in H.
    inversion H. repeat split. discriminate.
Qed.

(** With a record for every scheduled id, the loop can only fail in a
    download. *)
Lemma download_loop_throw (DownloadCF : string -> value -> option string)
      (ids : list string) :
  forall (d : Cache) (w w' : World) (e : Exception),
    (forall k, In k ids -> get d k <> None) ->
    for_of (download DownloadCF) ids d w = (w', Throw e) ->
    exists m, In m ids /\ e = DownloadFailed m (fid_of d m)
              /\ DownloadCF m (fid_of d m) = None.
Proof.
  induction ids as [|a ids IH]; simpl; intros d w w' e H E; [discriminate|].
  unfold download in E at 1.
  destruct (get d a) as [x|] eqn:G; [|exfalso; apply (H a); auto].
  assert (Fa : fid_of d a = md_fileID x) by (unfold fid_of; now rewrite G).
  destruct (DownloadCF a (md_fileID x)) as [name|] eqn:D.
  - apply IH in E.
    + destruct E as (m & I & -> & N).
      rewrite (fid_of_set_same d a x (Some name) (md_required x) m G) in *.
      exists m. auto.
    + intros k I. rewrite get_set. destruct (String.eqb a k); [discriminate|auto].
  - inversion E; subst. exists a. rewrite Fa. auto.
Qed.

(** A run over a parsed manifest and a usable record, up to the final write. *)
Lemma run_usable (DownloadCF : string -> value -> option string) (w : World)
      (files : list ManifestFile) :
  manifest_json w = Parsed files ->
  cache_json w <> Unparsable ->
  exists w2 c evs,
    DownloadModsTarget DownloadCF w
    = match c with
      | Normal dataKeys => (write_cache_json dataKeys w2, Normal tt)
      | Throw e => (w2, Throw e)
      end
    /\ log w2 = log w ++ evs
    /\ Forall (fun e => is_write e = false) evs
    /\ cache_json w2 = cache_json w.
Proof.
  intros M U.
  destruct (run_anatomy DownloadCF w files M U) as (w2 & c & L & R).
  apply download_loop_any in L. destruct L as (_ & CJ & (n & L) & _).
  rewrite rm_all_log in L. simpl in L.
  destruct (rm_all_files (old_of (cache_json w))
              (removals_of files (cache_json w)) (mkdir_modcache w)) as [_ CJ1].
  rewrite CJ1 in CJ. simpl in CJ.
  exists w2, c. eexists. split; [exact R|]. split; [|split; [|exact CJ]].
  - rewrite L. rewrite <- !app_assoc. reflexivity.
  - apply Forall_app. split; [repeat constructor|].
    apply Forall_app. split;
      [now apply Forall_map_rm_event | now apply Forall_map_call_event].
Qed.

Lemma removals_for_map (o : Cache) (pid : string) (ks : list string) :
  NoDup ks ->
  removals_for pid (map (rm_event o) ks)
  = if includes ks pid then [rm_event o pid] else [].
Proof.
  induction ks as [|k ks IH]; simpl; intros ND; [reflexivity|].
  inversion ND as [|? ? Hk ND']; subst. rewrite (IH ND').
  unfold includes. simpl. fold (includes ks pid).
  rewrite (String.eqb_sym pid k).
  destruct (String.eqb k pid) eqn:E; simpl; [|reflexivity].
  apply String.eqb_eq in E. subst k.
  apply includes_false in Hk. now rewrite Hk.
Qed.

Lemma count_occ_NoDup (ks : list string) (k : string) :
  NoDup ks ->
  count_occ string_dec ks k = if includes ks k then 1 else 0.
Proof.
  intros ND. destruct (includes ks k) eqn:I.
  - apply includes_In in I. now apply NoDup_count_occ'.
  - apply includes_false in I. now apply count_occ_not_In.
Qed.

Lemma versions_set (o : Cache) (k : string) (v : ModData) :
  versions (set o k v) = set (versions o) k (md_fileID v).
Proof.
  induction o as [|[k' v'] o IH]; simpl; [reflexivity|].
  destruct (String.eqb k k'); simpl; [reflexivity|]. now rewrite IH.
Qed.

Lemma versions_get (o : Cache) (k : string) :
  get (versions o) k = option_map md_fileID (get o k).
Proof.
  induction o as [|[k' v'] o IH]; simpl; [reflexivity|].
  now destruct (String.eqb k k').
Qed.

Lemma versions_own_keys (o : Cache) : own_keys (versions o) = own_keys o.
Proof. unfold own_keys, versions. rewrite map_map. reflexivity. Qed.

Lemma versions_build_newData (files : list ManifestFile) :
  versions (build_newData files)
  = fold_left (fun o p => set o (template (fst p)) (snd p))
              (map (fun d => (projectID d, fileID d)) files) [].
Proof.
  unfold build_newData.
  change (@nil (string * value)) with (versions []).
  generalize (@nil (string * ModData)).
  induction files as [|d ds IH]; simpl; intros o; [reflexivity|].
  rewrite IH, versions_set. reflexivity.
Qed.

Lemma Object_keys_versions (o1 o2 : Cache) :
  versions o1 = versions o2 -> Object_keys o1 = Object_keys o2.
Proof.
  intros H. unfold Object_keys.
  now rewrite <- (versions_own_keys o1), <- (versions_own_keys o2), H.
Qed.

Lemma changed_versions (old nd1 nd2 : Cache) (k : string) :
  versions nd1 = versions nd2 -> changed old nd1 k = changed old nd2 k.
Proof.
  intros H. unfold changed.
  pose proof (versions_get nd1 k) as G1. pose proof (versions_get nd2 k) as G2.
  rewrite H in G1. rewrite G1 in G2.
  destruct (get nd1 k), (get nd2 k); simpl in G2; try congruence.
  destruct (get old k); [|reflexivity]. congruence.
Qed.

Lemma fid_of_planned_versions (files1 files2 : list ManifestFile)
      (c : JsonFile (list (string * ModData))) (k : string) :
  versions (build_newData files1) = versions (build_newData files2) ->
  fid_of (planned_of files1 c) k = fid_of (planned_of files2 c) k.
Proof.
  intros H. unfold fid_of. rewrite !get_planned_of.
  pose proof (versions_get (build_newData files1) k) as G1.
  pose proof (versions_get (build_newData files2) k) as G2.
  rewrite H in G1. rewrite G1 in G2.
  destruct (get (build_newData files1) k) as [n1|],
           (get (build_newData files2) k) as [n2|]; simpl in G2; try congruence.
  injection G2 as G2. rewrite G2.
  destruct (get (old_of c) k) as [e|]; [|assumption].
  now destruct (strict_eq (md_fileID e) (md_fileID n2)).
Qed.

Section RoundTrip.
Variable V : Type.
Implicit Types (o : Obj V) (k : string) (v : V).

Lemma get_fold_set_fresh (l : list (string * V)) :
  forall o k,
    ~ In k (map fst l) ->
    get (fold_left (fun o m => set o (fst m) (snd m)) l o) k = get o k.
Proof.
  induction l as [|[k0 v0] l IH]; simpl; intros o k N; [reflexivity|].
  rewrite IH by tauto. apply get_set_neq. tauto.
Qed.

Lemma get_fold_set_NoDup (l : list (string * V)) :
  forall o k v,
    NoDup (map fst l) -> In (k, v) l ->
    get (fold_left (fun o m => set o (fst m) (snd m)) l o) k = Some v.
Proof.
  induction l as [|[k0 v0] l IH]; simpl; intros o k v ND I; [tauto|].
  inversion ND as [|? ? Hk ND']; subst.
  destruct I as [E|I].
  - inversion E; subst. rewrite get_fold_set_fresh by assumption.
    apply get_set_eq.
  - now apply IH.
Qed.

Lemma In_stringify o k v : In (k, v) (JSON_stringify o) <-> get o k = Some v.
Proof.
  unfold JSON_stringify. rewrite in_flat_map. split.
  - intros (k' & I & H). destruct (get o k') as [v'|] eqn:G; simpl in H; [|tauto].
    destruct H as [H|[]]. inversion H; subst. assumption.
  - intros G. exists k. split.
    + apply In_Object_keys. congruence.
    + rewrite G. simpl. auto.
Qed.

Lemma stringify_keys o : map fst (JSON_stringify o) = Object_keys o.
Proof.
  unfold JSON_stringify.
  assert (G : forall ks, (forall k, In k ks -> get o k <> None) ->
    map fst (flat_map (fun k => match get o k with
                                | Some v => [(k, v)] | None => [] end) ks) = ks).
  { induction ks as [|k ks IH]; simpl; intros H; [reflexivity|].
    destruct (get o k) as [v|] eqn:E; [|exfalso; apply (H k); auto].
    simpl. f_equal. apply IH. auto. }
  apply G. intros k. apply In_Object_keys.
Qed.

(** [JSON.parse(JSON.stringify(o))] has the properties of [o]. *)
Lemma get_parse_stringify o k :
  NoDup (own_keys o) -> get (JSON_parse (JSON_stringify o)) k = get o k.
Proof.
  intros ND. unfold JSON_parse. destruct (get o k) as [v|] eqn:G.
  - apply get_fold_set_NoDup.
    + rewrite stringify_keys. now apply NoDup_Object_keys.
    + now apply In_stringify.
  - rewrite get_fold_set_fresh; [reflexivity|].
    rewrite stringify_keys, In_Object_keys. congruence.
Qed.

End RoundTrip.

Lemma NoDup_own_keys_fold (f : Cache -> string -> Cache) (ks : list string) :
  (forall o k, NoDup (own_keys o) -> NoDup (own_keys (f o k))) ->
  forall o, NoDup (own_keys o) -> NoDup (own_keys (fold_left f ks o)).
Proof.
  intros F. induction ks as [|k ks IH]; simpl; intros o H; [assumption|].
  apply IH, F, H.
Qed.

Lemma NoDup_own_keys_planned_of (files : list ManifestFile)
      (c : JsonFile (list (string * ModData))) :
  NoDup (own_keys (planned_of files c)).
Proof.
  destruct c as [| |members]; simpl; try apply NoDup_own_keys_build_newData.
  unfold diff_result.
  apply NoDup_own_keys_fold.
  { intros o k H. unfold put_updated. destruct (get _ k); [|assumption].
    now apply NoDup_own_keys_set. }
  apply NoDup_own_keys_fold.
  { intros o k H. unfold add_new. destruct (get _ k); [|assumption].
    now apply NoDup_own_keys_set. }
  apply NoDup_own_keys_fold.
  { intros o k H. now apply NoDup_own_keys_delete. }
  apply NoDup_own_keys_parse.
Qed.

Lemma run_final (DownloadCF : string -> value -> option string) (w w' : World)
      (files : list ManifestFile) :
  manifest_json w = Parsed files ->
  DownloadModsTarget DownloadCF w = (w', Normal tt) ->
  let c := cache_json w in
  let old := old_of c in
  let nd := build_newData files in
  c <> Unparsable
  /\ (forall k, In k (scheduled_of files c) ->
                DownloadCF k (fid_of (planned_of files c) k) <> None)
  /\ (exists data,
         cache_json w' = Parsed data
         /\ forall k,
             get (JSON_parse data) k =
             match get old k, get nd k with
             | Some e, Some n =>
                 if strict_eq (md_fileID e) (md_fileID n) then Some e
                 else Some (mkModData (DownloadCF k (md_fileID n))
                                      (md_fileID n) (md_required n))
             | Some e, None => None
             | None, Some n =>
                 Some (mkModData (DownloadCF k (md_fileID n))
                                 (md_fileID n) (md_required n))
             | None, None => None
             end)
  /\ (forall f,
         In f (modcache w') <->
         (In f (modcache w)
          /\ forall k, In k (removals_of files c) ->
                       matched w (template_opt (file_of old k)) f = false)
         \/ exists k, In k (scheduled_of files c)
                      /\ DownloadCF k (fid_of (planned_of files c) k) = Some f).
Proof.
  intros M R c old nd.
  assert (U : c <> Unparsable).
  { intros C. rewrite (run_unparsable_cache DownloadCF w files M C) in R.
    discriminate. }
  split; [exact U|].
  destruct (run_anatomy DownloadCF w files M U) as (w2 & r & L & E).
  rewrite E in R. destruct r as [dataKeys|e]; [|discriminate].
  inversion R; subst w'. clear R E.
  apply download_loop_ok in L. destruct L as (D & _ & G & F & K).
  fold c in D, G, F, K. fold old in F.
  split; [intros k I; now apply D|]. split.
  - exists (JSON_stringify dataKeys). split; [reflexivity|].
    intros k. rewrite get_parse_stringify
      by (rewrite K; apply NoDup_own_keys_planned_of).
    rewrite G, get_planned_of. fold old. fold nd.
    destruct (includes (scheduled_of files c) k) eqn:I.
    + apply includes_In, In_scheduled_of in I. fold old in I. fold nd in I.
      unfold changed in I.
      destruct (get old k) as [e|], (get nd k) as [n|]; try reflexivity.
      destruct (strict_eq (md_fileID e) (md_fileID n)); [|reflexivity].
      destruct I as [[_ I]|I]; simpl in I; congruence.
    + apply includes_false in I. rewrite In_scheduled_of in I.
      fold old in I. fold nd in I. unfold changed in I.
      destruct (get old k) as [e|], (get nd k) as [n|]; try reflexivity.
      * destruct (strict_eq (md_fileID e) (md_fileID n)); [reflexivity|].
        exfalso. apply I. now right.
      * exfalso. apply I. left. split; congruence.
  - intros f. simpl. rewrite F, rm_all_modcache. simpl. reflexivity.
Qed.

Lemma In_rm_event (o : Cache) (ks : list string) (pid path : string) :
  In (Juke_rm pid path) (map (rm_event o) ks) -> In pid ks.
Proof.
  rewrite in_map_iff. intros (k & E & I). inversion E; subst. exact I.
Qed.

Lemma In_call_event (d : Cache) (ks : list string) (m : string) (v : value)
      (dir : string) :
  In (DownloadCF_call m v dir) (map (call_event d) ks) -> In m ks.
Proof.
  rewrite in_map_iff. intros (k & E & I). inversion E; subst. exact I.
Qed.

Lemma In_firstn (A : Type) (n : nat) (l : list A) (x : A) :
  In x (firstn n l) -> In x l.
Proof.
  revert l. induction n as [|n IH]; simpl; [tauto|].
  intros [|a l]; simpl; [tauto|]. intros [H|H]; auto.
Qed.

Lemma removals_old (files : list ManifestFile)
      (c : JsonFile (list (string * ModData))) (k : string) :
  In k (removals_of files c) ->
  exists o, get (old_of c) k = Some o
            /\ (forall n, get (build_newData files) k = Some n ->
                          strict_eq (md_fileID o) (md_fileID n) = false).
Proof.
  rewrite In_removals_of. unfold changed. intros [[O N]|Ch].
  - destruct (get (old_of c) k) as [o|]; [|congruence].
    exists o. split; [reflexivity|]. congruence.
  - destruct (get (build_newData files) k) as [n|]; [|discriminate].
    destruct (get (old_of c) k) as [o|]; [|discriminate].
    exists o. split; [reflexivity|]. intros n' [= <-].
    now apply negb_true_iff.
Qed.

Lemma scheduled_new (files : list ManifestFile)
      (c : JsonFile (list (string * ModData))) (k : string) :
  In k (scheduled_of files c) ->
  exists n, get (build_newData files) k = Some n
            /\ fid_of (planned_of files c) k = md_fileID n
            /\ (forall o, get (old_of c) k = Some o ->
                          strict_eq (md_fileID o) (md_fileID n) = false).
Proof.
  rewrite In_scheduled_of. unfold fid_of, changed. rewrite get_planned_of.
  intros [[N O]|Ch].
  - destruct (get (build_newData files) k) as [n|]; [|congruence].
    exists n. rewrite O. repeat split. discriminate.
  - destruct (get (build_newData files) k) as [n|]; [|discriminate].
    destruct (get (old_of c) k) as [o|]; [|discriminate].
    apply negb_true_iff in Ch. exists n. rewrite Ch. repeat split.
    intros o' [= <-]. exact Ch.
Qed.

Lemma no_write_split (evs evs1 evs2 : list Event) (e : Event) :
  Forall (fun e => is_write e = false) evs ->
  evs = evs1 ++ e :: evs2 -> is_write e = true -> False.
Proof.
  intros F -> W. apply Forall_app in F. destruct F as [_ F].
  inversion F; congruence.
Qed.

Lemma write_is_last (evs evs1 evs2 : list Event) (x e : Event) :
  Forall (fun e => is_write e = false) evs ->
  evs ++ [x] = evs1 ++ e :: evs2 -> is_write e = true ->
  e = x /\ evs2 = [].
Proof.
  revert evs1. induction evs as [|a evs IH]; intros evs1 F E W.
  - destruct evs1 as [|b evs1]; simpl in E.
    + inversion E. auto.
    + inversion E. destruct evs1; discriminate.
  - inversion F as [|? ? Fa F']; subst.
    destruct evs1 as [|b evs1]; simpl in E.
    + inversion E; subst. congruence.
    + inversion E; subst. now apply (IH evs1).
Qed.

Lemma run_starts_with_mkdir (DownloadCF : string -> value -> option string)
      (w : World) (files : list ManifestFile) :
  manifest_json w = Parsed files ->
  exists rest,
    new_events w (fst (DownloadModsTarget DownloadCF w))
    = fs_mkdirSync "dist/modcache" :: rest.
Proof.
  intros M. destruct (cache_json w) as [| |members] eqn:C.
  - destruct (run_log DownloadCF w files M) as (n & tail & E & _);
      [congruence|]. rewrite E. eauto.
  - rewrite (run_unparsable_cache DownloadCF w files M C). simpl.
    rewrite new_events_mkdir. eauto.
  - destruct (run_log DownloadCF w files M) as (n & tail & E & _);
      [congruence|]. rewrite E. eauto.
Qed.

(** ** The claims *)

(** C1, as stated, fails: with artifacts 1, 2, 3 scheduled and the fetch of 2
    failing, the run ends with the error of that fetch, artifact 3 is never
    requested, nothing is written to [dist/cache.json], and the record of
    artifact 1, whose download succeeded, is lost with the run. *)
Lemma C1_counterexample :
  snd (DownloadModsTarget jar_but_2 scenario5) = Throw (DownloadFailed "2" (text "b"))
  /\ new_events scenario5 (fst (DownloadModsTarget jar_but_2 scenario5))
     = [fs_mkdirSync "dist/modcache";
        DownloadCF_call "1" (text "a") "dist/modcache/";
        DownloadCF_call "2" (text "b") "dist/modcache/"]
  /\ cache_json (fst (DownloadModsTarget jar_but_2 scenario5)) = Absent
  /\ modcache (fst (DownloadModsTarget jar_but_2 scenario5)) = ["1-a.jar"].
Proof. repeat split; reflexivity. Qed.

(** C1, amended: the download loop stops at the first fetch that fails.  When
    the scheduled ids are [pre ++ b :: post], every fetch of [pre] succeeds and
    the fetch of [b] fails, the run ends with the failure of [b]; after the
    plan, [DownloadCF] was called for [pre] and for [b] and for nothing else,
    and [dist/cache.json] is left as it was. *)
Theorem C1_failed_fetch_aborts_run
        (DownloadCF : string -> value -> option string) (w w1 : World)
        (files : list ManifestFile) (st : Locals)
        (pre post : list string) (b : string) :
  manifest_json w = Parsed files ->
  plan files (mkdir_modcache w) = (w1, Normal st) ->
  mIdToDownload st = pre ++ b :: post ->
  (forall a, In a pre -> DownloadCF a (fid_of (oldData st) a) <> None) ->
  DownloadCF b (fid_of (oldData st) b) = None ->
  snd (DownloadModsTarget DownloadCF w)
  = Throw (DownloadFailed b (fid_of (oldData st) b))
  /\ log (fst (DownloadModsTarget DownloadCF w))
     = log w1 ++ map (call_event (oldData st)) (pre ++ [b])
  /\ cache_json (fst (DownloadModsTarget DownloadCF w)) = cache_json w.
Proof.
  intros M P S Hpre Hb.
  destruct (plan_normal_inv _ _ _ _ P) as (U & W1 & St).
  assert (G : forall k, In k (mIdToDownload st) -> get (oldData st) k <> None).
  { rewrite St. simpl. intros k. apply scheduled_planned. }
  destruct (download_loop_fail DownloadCF pre b post (oldData st) w1)
    as (w' & E & L & C).
  - intros k I. split; [|auto]. apply G. rewrite S. apply in_or_app. auto.
  - apply G. rewrite S. apply in_or_app. simpl. auto.
  - exact Hb.
  - unfold DownloadModsTarget. rewrite M, P, S, E. simpl.
    repeat split; trivial. rewrite C, W1.
    destruct (rm_all_files (old_of (cache_json (mkdir_modcache w)))
                (removals_of files (cache_json (mkdir_modcache w)))
                (mkdir_modcache w)) as [_ ->].
    reflexivity.
Qed.

(** C1 at scenario 5, with the fetch of mod 2 failing. *)
Lemma C1_witness :
  snd (DownloadModsTarget jar_but_2 scenario5)
  = Throw (DownloadFailed "2" (text "b"))
  /\ log (fst (DownloadModsTarget jar_but_2 scenario5))
     = [fs_mkdirSync "dist/modcache"]
         ++ map (call_event (build_newData (
                   [mkManifestFile 1 (text "a") true;
                    mkManifestFile 2 (text "b") true;
                    mkManifestFile 3 (text "c") true]))) (["1"] ++ ["2"])
  /\ cache_json (fst (DownloadModsTarget jar_but_2 scenario5)) = Absent.
Proof.
  refine (C1_failed_fetch_aborts_run jar_but_2 scenario5
            (mkdir_modcache scenario5)
            [mkManifestFile 1 (text "a") true;
             mkManifestFile 2 (text "b") true;
             mkManifestFile 3 (text "c") true]
            (mkLocals (build_newData
                         [mkManifestFile 1 (text "a") true;
                          mkManifestFile 2 (text "b") true;
                          mkManifestFile 3 (text "c") true])
                      ["1"; "2"; "3"])
            ["1"] ["3"] "2" eq_refl eq_refl eq_refl _ eq_refl).
  intros a [<-|[]]. discriminate.
Defined.

(** C2: for every manifest and every cache record, the diff completes and
    partitions the artifact ids as follows.  An id in the old state and not
    in the manifest gets exactly one removal, of its recorded file, and no
    fetch; an id in the manifest and not in the old state is scheduled once
    and gets no removal; an id in both with a different [fileID] gets exactly
    one removal, of its old file, and is scheduled once with the manifest's
    [fileID]; an id in both with the same [fileID], or in neither, gets
    nothing.  The diff issues nothing but these removals.  Here an id is in
    the manifest when [newData] has it, that is when some entry of
    [manifest.files] carries it, and its [fileID] there is that of the last
    such entry. *)
Theorem C2_diff_partitions (files : list ManifestFile)
        (members : list (string * ModData)) (w : World) :
  let old := JSON_parse members in
  let nd := build_newData files in
  (forall pid, get nd pid <> None <->
               exists d, In d files /\ template (projectID d) = pid)
  /\ (forall l1 d l2,
         files = l1 ++ d :: l2 ->
         (forall d', In d' l2 -> template (projectID d') <> template (projectID d)) ->
         get nd (template (projectID d))
         = Some (mkModData None (fileID d) (required d)))
  /\ exists w' st,
    diff files old w = (w', Normal st)
    /\ Forall (fun e => is_rm e = true) (new_events w w')
    /\ (forall pid o,
           get old pid = Some o -> get nd pid = None ->
           removals_for pid (new_events w w')
           = [Juke_rm pid ("dist/modcache/" ++ template_opt (md_file o))]
           /\ count_occ string_dec (mIdToDownload st) pid = 0)
    /\ (forall pid n,
           get old pid = None -> get nd pid = Some n ->
           removals_for pid (new_events w w') = []
           /\ count_occ string_dec (mIdToDownload st) pid = 1
           /\ fid_of (oldData st) pid = md_fileID n)
    /\ (forall pid o n,
           get old pid = Some o -> get nd pid = Some n ->
           strict_eq (md_fileID o) (md_fileID n) = false ->
           removals_for pid (new_events w w')
           = [Juke_rm pid ("dist/modcache/" ++ template_opt (md_file o))]
           /\ count_occ string_dec (mIdToDownload st) pid = 1
           /\ fid_of (oldData st) pid = md_fileID n)
    /\ (forall pid o n,
           get old pid = Some o -> get nd pid = Some n ->
           strict_eq (md_fileID o) (md_fileID n) = true ->
           removals_for pid (new_events w w') = []
           /\ count_occ string_dec (mIdToDownload st) pid = 0)
    /\ (forall pid,
           get old pid = None -> get nd pid = None ->
           removals_for pid (new_events w w') = []
           /\ count_occ string_dec (mIdToDownload st) pid = 0).
Proof.
  intros old nd.
  pose (c := @Parsed (list (string * ModData)) members).
  split; [intros pid; apply build_newData_In|].
  split; [intros l1 d l2 -> H; now apply build_newData_last|].
  eexists _, _. split; [apply diff_eq, NoDup_own_keys_parse|].
  assert (L : new_events w
                (rm_all old (changed_keys old nd) (rm_all old (removed_keys old nd) w))
              = map (rm_event old) (removals_of files c)).
  { apply new_events_app. rewrite !rm_all_log. simpl.
    now rewrite <- app_assoc, map_app. }
  fold nd. rewrite L. simpl mIdToDownload. simpl oldData.
  change (added_keys old nd ++ changed_keys old nd) with (scheduled_of files c).
  change (diff_result old nd) with (planned_of files c).
  assert (RM : forall pid,
             removals_for pid (map (rm_event old) (removals_of files c))
             = if includes (removals_of files c) pid then [rm_event old pid] else [])
    by (intros; apply removals_for_map, NoDup_removals_of).
  assert (CT : forall pid,
             count_occ string_dec (scheduled_of files c) pid
             = if includes (scheduled_of files c) pid then 1 else 0)
    by (intros; apply count_occ_NoDup, NoDup_scheduled_of_parsed).
  assert (IR : forall pid, includes (removals_of files c) pid = true <->
                           (get old pid <> None /\ get nd pid = None)
                           \/ changed old nd pid = true)
    by (intros; rewrite includes_In; apply In_removals_of).
  assert (IS : forall pid, includes (scheduled_of files c) pid = true <->
                           (get nd pid <> None /\ get old pid = None)
                           \/ changed old nd pid = true)
    by (intros; rewrite includes_In; apply In_scheduled_of).
  assert (F : forall pid, fid_of (planned_of files c) pid
                          = match get (planned_of files c) pid with
                            | Some e => md_fileID e | None => undefined end)
    by reflexivity.
  split; [now apply Forall_map_rm_event|].
  repeat split; rewrite ?RM, ?CT, ?F, ?get_planned_of; simpl old_of;
    fold old; fold nd.
  - destruct (includes (removals_of files c) pid) eqn:I.
    + unfold rm_event, file_of. now rewrite H.
    + exfalso. apply not_true_iff_false in I. apply I, IR. left.
      split; congruence.
  - destruct (includes (scheduled_of files c) pid) eqn:I; [|reflexivity].
    apply IS in I. unfold changed in I. rewrite H, H0 in I.
    destruct I as [[I _]|I]; congruence.
  - destruct (includes (removals_of files c) pid) eqn:I; [|reflexivity].
    apply IR in I. unfold changed in I. rewrite H, H0 in I.
    destruct I as [[I _]|I]; congruence.
  - destruct (includes (scheduled_of files c) pid) eqn:I; [reflexivity|].
    exfalso. apply not_true_iff_false in I. apply I, IS. left.
    split; congruence.
  - now rewrite H, H0.
  - destruct (includes (removals_of files c) pid) eqn:I.
    + unfold rm_event, file_of. now rewrite H.
    + exfalso. apply not_true_iff_false in I. apply I, IR. right.
      unfold changed. now rewrite H, H0, H1.
  - destruct (includes (scheduled_of files c) pid) eqn:I; [reflexivity|].
    exfalso. apply not_true_iff_false in I. apply I, IS. right.
    unfold changed. now rewrite H, H0, H1.
  - now rewrite H, H0, H1.
  - destruct (includes (removals_of files c) pid) eqn:I; [|reflexivity].
    apply IR in I. unfold changed in I. rewrite H, H0, H1 in I.
    destruct I as [[_ I]|I]; simpl in I; congruence.
  - destruct (includes (scheduled_of files c) pid) eqn:I; [|reflexivity].
    apply IS in I. unfold changed in I. rewrite H, H0, H1 in I.
    destruct I as [[_ I]|I]; simpl in I; congruence.
  - destruct (includes (removals_of files c) pid) eqn:I; [|reflexivity].
    apply IR in I. unfold changed in I. rewrite H, H0 in I.
    destruct I as [[I _]|I]; congruence.
  - destruct (includes (scheduled_of files c) pid) eqn:I; [|reflexivity].
    apply IS in I. unfold changed in I. rewrite H, H0 in I.
    destruct I as [[I _]|I]; congruence.
Qed.

(** C2 at a state where an artifact is dropped (3), one is new (4), one has a
    new [fileID] (2) and one is unchanged (1). *)
Lemma C2_witness :
  exists w' st,
    diff four_cases_manifest (JSON_parse four_cases_record) four_cases
    = (w', Normal st)
    /\ (removals_for "3" (new_events four_cases w')
        = [Juke_rm "3" "dist/modcache/f3"]
        /\ count_occ string_dec (mIdToDownload st) "3" = 0)
    /\ (removals_for "4" (new_events four_cases w') = []
        /\ count_occ string_dec (mIdToDownload st) "4" = 1
        /\ fid_of (oldData st) "4" = text "d")
    /\ (removals_for "2" (new_events four_cases w')
        = [Juke_rm "2" "dist/modcache/f2"]
        /\ count_occ string_dec (mIdToDownload st) "2" = 1
        /\ fid_of (oldData st) "2" = text "B")
    /\ (removals_for "1" (new_events four_cases w') = []
        /\ count_occ string_dec (mIdToDownload st) "1" = 0).
Proof.
  destruct (C2_diff_partitions four_cases_manifest four_cases_record four_cases)
    as (_ & _ & w' & st & E & _ & H1 & H2 & H3 & H4 & _).
  exists w', st. split; [exact E|].
  split; [exact (H1 "3" (mkModData (Some "f3") (text "c") true) eq_refl eq_refl)|].
  split; [exact (H2 "4" (mkModData None (text "d") true) eq_refl eq_refl)|].
  split; [exact (H3 "2" (mkModData (Some "f2") (text "b") true)
                    (mkModData None (text "B") true) eq_refl eq_refl eq_refl)|].
  exact (H4 "1" (mkModData (Some "f1") (text "a") true)
            (mkModData None (text "a") true) eq_refl eq_refl eq_refl).
Defined.

(** C3: in every run of [DownloadModsTarget] each [Juke.rm] comes before each
    [DownloadCF] call; and for an artifact whose [fileID] differs between the
    cache record and the manifest, the removal of its old file is among the
    events, the artifact is scheduled, and the old file is no longer in
    [dist/modcache] when the download loop starts, provided the pattern made
    of its name matches it (as it does for a name without glob
    characters). *)
Theorem C3_removals_precede_downloads
        (DownloadCF : string -> value -> option string) (w : World) :
  let evs := new_events w (fst (DownloadModsTarget DownloadCF w)) in
  (forall i j pid path m v dir,
      nth_error evs i = Some (Juke_rm pid path) ->
      nth_error evs j = Some (DownloadCF_call m v dir) ->
      i < j)
  /\ (forall files members pid,
         manifest_json w = Parsed files ->
         cache_json w = Parsed members ->
         changed (JSON_parse members) (build_newData files) pid = true ->
         In (rm_event (JSON_parse members) pid) evs
         /\ exists w1 st,
             plan files (mkdir_modcache w) = (w1, Normal st)
             /\ In pid (mIdToDownload st)
             /\ (matched w (template_opt (file_of (JSON_parse members) pid))
                         (template_opt (file_of (JSON_parse members) pid))
                 = true ->
                 ~ In (template_opt (file_of (JSON_parse members) pid))
                      (modcache w1))).
Proof.
  intros evs. split.
  - intros i j pid path m v dir Hi Hj.
    destruct (run_events_split DownloadCF w) as (A & B & E & HA & HB).
    unfold evs in *. rewrite E in Hi, Hj.
    now apply (rm_before_call_split A B HA HB i j _ _ Hi eq_refl Hj eq_refl).
  - intros files members pid M C Ch.
    assert (U : cache_json w <> Unparsable) by congruence.
    assert (R : In pid (removals_of files (cache_json w))).
    { apply In_removals_of. right. now rewrite C. }
    split.
    + destruct (run_log DownloadCF w files M U) as (n & tail & E & _).
      unfold evs. rewrite E, C in *. right. apply in_or_app. left.
      now apply in_map.
    + rewrite plan_closed by exact U. simpl.
      eexists _, _. split; [reflexivity|]. simpl. split.
      * apply In_scheduled_of. right. now rewrite C.
      * intros Lt. rewrite rm_all_modcache. intros [_ N].
        specialize (N pid R). rewrite C in N. simpl in N.
        unfold matched in N, Lt. simpl in N, Lt. congruence.
Qed.

(** C3 at scenario 3: the removal is event 1, the download event 2. *)
Lemma C3_witness :
  nth_error (new_events scenario3 (fst (DownloadModsTarget jar scenario3))) 1
  = Some (Juke_rm "1" "dist/modcache/f1")
  /\ nth_error (new_events scenario3 (fst (DownloadModsTarget jar scenario3))) 2
     = Some (DownloadCF_call "1" (text "b") "dist/modcache/")
  /\ 1 < 2.
Proof.
  split; [reflexivity|]. split; [reflexivity|].
  exact (proj1 (C3_removals_precede_downloads jar scenario3)
               1 2 "1" "dist/modcache/f1" "1" (text "b") "dist/modcache/"
               eq_refl eq_refl).
Defined.

(** C4, as stated, fails: a run that meets an unparsable [dist/cache.json]
    ends with the parse error after creating the directory, requests no
    download and leaves the record unparsable, whereas the same run without a
    record downloads the mod and writes the record; and that write is a single
    [fs.writeFileSync] addressed to [dist/cache.json] itself. *)
Lemma C4_counterexample :
  DownloadModsTarget jar (world0 one_mod Unparsable [])
  = (mkdir_modcache (world0 one_mod Unparsable []),
     Throw (SyntaxError "dist/cache.json"))
  /\ snd (DownloadModsTarget jar (world0 one_mod Absent [])) = Normal tt
  /\ new_events (world0 one_mod Absent [])
                (fst (DownloadModsTarget jar (world0 one_mod Absent [])))
     = [fs_mkdirSync "dist/modcache";
        DownloadCF_call "1" (text "a") "dist/modcache/";
        fs_writeFileSync "dist/cache.json"
                         [("1", mkModData (Some "1-a.jar") (text "a") true)]].
Proof. repeat split; reflexivity. Qed.

(** C4, amended: the record is saved by one direct [fs.writeFileSync] to
    [dist/cache.json] itself.  In every run a write, if there is one, is
    addressed to [dist/cache.json] and is the last call of the run; a run
    that completes ends with exactly one such write, and the file then holds
    what was written.  No temporary name is written and nothing is renamed.
    An unparsable record is not treated as an absent one: the run fails with
    the parse error right after creating [dist/modcache], without any
    removal, download or write. *)
Theorem C4_direct_write_and_unparsable_record_fails
        (DownloadCF : string -> value -> option string) (w : World) :
  let r := DownloadModsTarget DownloadCF w in
  (snd r = Normal tt ->
   exists evs data,
     new_events w (fst r) = evs ++ [fs_writeFileSync "dist/cache.json" data]
     /\ Forall (fun e => is_write e = false) evs
     /\ cache_json (fst r) = Parsed data)
  /\ (forall evs1 path data evs2,
         new_events w (fst r) = evs1 ++ fs_writeFileSync path data :: evs2 ->
         path = "dist/cache.json" /\ evs2 = [])
  /\ (forall files,
         manifest_json w = Parsed files ->
         cache_json w = Unparsable ->
         r = (mkdir_modcache w, Throw (SyntaxError "dist/cache.json"))).
Proof.
  intros r.
  assert (H : (exists evs data,
                  snd r = Normal tt
                  /\ new_events w (fst r)
                     = evs ++ [fs_writeFileSync "dist/cache.json" data]
                  /\ Forall (fun e => is_write e = false) evs
                  /\ cache_json (fst r) = Parsed data)
              \/ (snd r <> Normal tt
                  /\ Forall (fun e => is_write e = false) (new_events w (fst r)))).
  { unfold r. destruct (manifest_json w) as [| |files] eqn:M.
    - destruct (run_no_manifest DownloadCF w) as (e & ->); [auto|].
      right. simpl. rewrite new_events_same. split; [discriminate | constructor].
    - destruct (run_no_manifest DownloadCF w) as (e & ->); [auto|].
      right. simpl. rewrite new_events_same. split; [discriminate | constructor].
    - destruct (cache_json w) as [| |members] eqn:C.
      2: { right. rewrite (run_unparsable_cache DownloadCF w files M C). simpl.
           rewrite new_events_mkdir. split; [discriminate | repeat constructor]. }
      all: destruct (run_usable DownloadCF w files M)
             as (w2 & c & evs & R & L & F & J); [congruence|];
           rewrite R; destruct c as [dataKeys|e]; simpl;
           [ left; exists evs, (JSON_stringify dataKeys);
             split; [reflexivity|]; split; [|auto];
             apply new_events_app; simpl; rewrite L; now rewrite <- app_assoc
           | right; split; [discriminate|];
             now rewrite (new_events_app w w2 evs L) ]. }
  split; [|split].
  - intros N. destruct H as [(evs & data & _ & E & F & J)|[X _]];
      [|contradiction].
    now exists evs, data.
  - intros evs1 path data evs2 E.
    destruct H as [(evs & d & _ & E' & F & _)|[_ F]].
    + rewrite E' in E.
      destruct (write_is_last evs evs1 evs2 _ _ F E eq_refl) as [X ->].
      inversion X. auto.
    + destruct (no_write_split _ evs1 evs2 _ F E eq_refl).
  - intros files M C. unfold r.
    apply (run_unparsable_cache DownloadCF w files M C).
Qed.

(** C4 at a run that completes and at a run that meets an unparsable record. *)
Lemma C4_witness :
  (exists evs data,
      new_events (world0 one_mod Absent [])
                 (fst (DownloadModsTarget jar (world0 one_mod Absent [])))
      = evs ++ [fs_writeFileSync "dist/cache.json" data]
      /\ Forall (fun e => is_write e = false) evs
      /\ cache_json (fst (DownloadModsTarget jar (world0 one_mod Absent [])))
         = Parsed data)
  /\ DownloadModsTarget jar (world0 one_mod Unparsable [])
     = (mkdir_modcache (world0 one_mod Unparsable []),
        Throw (SyntaxError "dist/cache.json")).
Proof.
  split.
  - exact (proj1 (C4_direct_write_and_unparsable_record_fails
                    jar (world0 one_mod Absent [])) eq_refl).
  - exact (proj2 (proj2 (C4_direct_write_and_unparsable_record_fails
                           jar (world0 one_mod Unparsable [])))
                 one_mod eq_refl eq_refl).
Defined.

(** C5, as stated, fails: a manifest with a duplicate [projectID] and a missing
    [fileID] raises no validation error; the run completes, having asked
    [DownloadCF] twice for project 1 with an undefined [fileID], and writes a
    record. *)
Lemma C5_counterexample :
  snd (DownloadModsTarget jar (world0 malformed Absent [])) = Normal tt
  /\ new_events (world0 malformed Absent [])
                (fst (DownloadModsTarget jar (world0 malformed Absent [])))
     = [fs_mkdirSync "dist/modcache";
        DownloadCF_call "1" undefined "dist/modcache/";
        DownloadCF_call "1" undefined "dist/modcache/";
        fs_writeFileSync "dist/cache.json"
                         [("1", mkModData (Some "1-x.jar") undefined false)]].
Proof. split; reflexivity. Qed.

(** C5, amended: the target has no validation step; the only check of the
    manifest is [JSON.parse] at line 157.  An unparsable [manifest.json] ends
    the run before any file system or network action.  A manifest that parses
    is not rejected for a missing [fileID] or a repeated [projectID]: for
    every manifest whose entries are objects with a numeric [projectID], the
    run goes on to [fs.mkdirSync]; when the cache record is usable and the
    file-system calls succeed, the plan of lines 162-221 is computed without
    error and the run ends in an error only when a download fails. *)
Theorem C5_only_json_syntax_is_checked
        (DownloadCF : string -> value -> option string) (w : World) :
  (manifest_json w = Unparsable ->
   DownloadModsTarget DownloadCF w = (w, Throw (SyntaxError "manifest.json")))
  /\ (forall files,
         manifest_json w = Parsed files ->
         (exists rest,
             new_events w (fst (DownloadModsTarget DownloadCF w))
             = fs_mkdirSync "dist/modcache" :: rest)
         /\ (cache_json w <> Unparsable ->
             (exists w1 st, plan files (mkdir_modcache w) = (w1, Normal st))
             /\ forall e,
                 snd (DownloadModsTarget DownloadCF w) = Throw e ->
                 exists m v, e = DownloadFailed m v /\ DownloadCF m v = None)).
Proof.
  split.
  - intros M. unfold DownloadModsTarget. now rewrite M.
  - intros files M. split; [now apply (run_starts_with_mkdir DownloadCF w files)|].
    intros U. split.
    + rewrite plan_closed by exact U. eauto.
    + intros e E.
      destruct (run_anatomy DownloadCF w files M U) as (w2 & c & L & R).
      rewrite R in E. destruct c as [dataKeys|e']; simpl in E; [discriminate|].
      inversion E; subst e'.
      apply download_loop_throw in L.
      * destruct L as (m & _ & -> & N). eauto.
      * intros k. apply scheduled_planned.
Qed.

(** C5 at an unparsable manifest and at a manifest with a repeated id. *)
Lemma C5_witness :
  DownloadModsTarget jar (mkWorld Unparsable Absent [] String.eqb [])
  = (mkWorld Unparsable Absent [] String.eqb [],
     Throw (SyntaxError "manifest.json"))
  /\ exists w1 st,
      plan malformed (mkdir_modcache (world0 malformed Absent [])) = (w1, Normal st).
Proof.
  split.
  - exact (proj1 (C5_only_json_syntax_is_checked
                    jar (mkWorld Unparsable Absent [] String.eqb [])) eq_refl).
  - refine (proj1 (proj2 (proj2 (C5_only_json_syntax_is_checked
                                   jar (world0 malformed Absent []))
                                malformed eq_refl) _)).
    discriminate.
Defined.


(** C7, as stated, fails.  With no record, an empty manifest and a file left
    in [dist/modcache], the run completes, writes an empty record, and the
    file is still in the directory, named by no entry.  And starting from an
    empty directory, when [DownloadCF] stores two mods under one name the run
    completes with one file named by two entries. *)
Lemma C7_counterexample :
  (DownloadModsTarget jar (world0 [] Absent ["stray.jar"])
   = (mkWorld (Parsed []) (Parsed []) ["stray.jar"] String.eqb
              [fs_mkdirSync "dist/modcache"; fs_writeFileSync "dist/cache.json" []],
      Normal tt)
   /\ ~ consistent
        (modcache (fst (DownloadModsTarget jar (world0 [] Absent ["stray.jar"]))))
        (JSON_parse []))
  /\ (snd (DownloadModsTarget one_name two_mods) = Normal tt
      /\ modcache (fst (DownloadModsTarget one_name two_mods)) = ["mod.jar"]
      /\ cache_json (fst (DownloadModsTarget one_name two_mods))
         = Parsed [("1", mkModData (Some "mod.jar") (text "a") true);
                   ("2", mkModData (Some "mod.jar") (text "b") true)]
      /\ ~ consistent
           (modcache (fst (DownloadModsTarget one_name two_mods)))
           (JSON_parse [("1", mkModData (Some "mod.jar") (text "a") true);
                        ("2", mkModData (Some "mod.jar") (text "b") true)])).
Proof.
  split; [split; [reflexivity|] | repeat split].
  - intros (H & _). destruct (H "stray.jar") as (k & e & G & _); [simpl; auto|].
    discriminate.
  - intros (_ & H & _).
    specialize (H "1" "2" (mkModData (Some "mod.jar") (text "a") true)
                  (mkModData (Some "mod.jar") (text "b") true) "mod.jar"
                  eq_refl eq_refl eq_refl eq_refl).
    discriminate.
Qed.

(** C7, amended: if, before the run, the files of [dist/modcache] and the
    entries of the record correspond one to one (an empty directory when
    there is no record), the name of every file the run removes is matched
    literally by [Juke.rm] (it has no glob characters), and among the
    downloads the run asks for [DownloadCF] gives no file name to two mods
    nor the name recorded for a mod that the run keeps as it is, then after
    every run that completes each file of [dist/modcache] is named by exactly
    one entry of the record written, and each entry names a file that is
    there. *)
Theorem C7_files_and_entries_correspond
        (DownloadCF : string -> value -> option string) (w w' : World)
        (files : list ManifestFile) :
  manifest_json w = Parsed files ->
  consistent (modcache w) (old_of (cache_json w)) ->
  (forall k, In k (removals_of files (cache_json w)) ->
             literal w (template_opt (file_of (old_of (cache_json w)) k))) ->
  names_by_mod DownloadCF files (cache_json w) ->
  DownloadModsTarget DownloadCF w = (w', Normal tt) ->
  exists data,
    cache_json w' = Parsed data
    /\ consistent (modcache w') (JSON_parse data).
Proof.
  intros M (C1 & C2 & C3) Lt (N1 & N2) R.
  destruct (run_final DownloadCF w w' files M R) as (U & D & (data & J & G) & F).
  set (c := cache_json w) in *. set (old := old_of c) in *.
  set (nd := build_newData files) in *.
  (* an entry of the new record is an old entry kept, or a fetched one *)
  assert (Cl : forall k e,
    get (JSON_parse data) k = Some e ->
    (get old k = Some e /\ ~ In k (removals_of files c))
    \/ (In k (scheduled_of files c)
        /\ md_file e = DownloadCF k (fid_of (planned_of files c) k))).
  { intros k e. rewrite G. unfold fid_of. rewrite get_planned_of.
    fold old. fold nd.
    destruct (get old k) as [o|] eqn:O, (get nd k) as [n|] eqn:N;
      try discriminate.
    - destruct (strict_eq (md_fileID o) (md_fileID n)) eqn:S; intros [= <-].
      + left. split; [reflexivity|]. intros I.
        apply removals_old in I. destruct I as (o' & O' & I).
        fold old in O'. fold nd in I. rewrite O in O'. inversion O'; subst o'.
        specialize (I n N). congruence.
      + right. split; [|reflexivity].
        apply In_scheduled_of. right. fold old. fold nd.
        unfold changed. now rewrite O, N, S.
    - intros [= <-]. right. split; [|reflexivity].
      apply In_scheduled_of. left. fold old. fold nd. split; congruence. }
  (* a scheduled id has its entry in the new record *)
  assert (Sc : forall k,
    In k (scheduled_of files c) ->
    exists e, get (JSON_parse data) k = Some e
              /\ md_file e = DownloadCF k (fid_of (planned_of files c) k)).
  { intros k I. destruct (scheduled_new files c k I) as (n & N & Fd & S).
    fold nd in N. fold old in S. rewrite Fd, G, N.
    destruct (get old k) as [o|] eqn:O.
    - rewrite (S o eq_refl). eauto.
    - eauto. }
  (* an old entry that is not removed is in the new record *)
  assert (Kp : forall k o,
    get old k = Some o -> ~ In k (removals_of files c) ->
    get (JSON_parse data) k = Some o).
  { intros k o O NR. rewrite G, O.
    rewrite In_removals_of in NR. fold old in NR. fold nd in NR.
    unfold changed in NR. rewrite O in NR.
    destruct (get nd k) as [n|].
    - destruct (strict_eq (md_fileID o) (md_fileID n)); [reflexivity|].
      exfalso. apply NR. now right.
    - exfalso. apply NR. left. split; congruence. }
  exists data. split; [exact J|]. split; [|split].
  - intros f I. apply F in I. destruct I as [[I NR]|(k & I & Dk)].
    + destruct (C1 f I) as (k & o & O & Fo). fold old in O.
      exists k, o. split; [|exact Fo]. apply Kp; [exact O|].
      intros Rk. apply (matched_literal w _ f (Lt k Rk)); [exact (NR k Rk)|].
      unfold file_of. fold old. now rewrite O, Fo.
    + destruct (Sc k I) as (e & E & Fe). exists k, e. split; [exact E|].
      congruence.
  - intros k1 k2 e1 e2 f E1 E2 F1 F2.
    destruct (Cl k1 e1 E1) as [[O1 K1]|[S1 D1]], (Cl k2 e2 E2) as [[O2 K2]|[S2 D2]].
    + exact (C2 k1 k2 e1 e2 f O1 O2 F1 F2).
    + rewrite F2 in D2. symmetry in D2.
      destruct (K1 (N2 _ _ _ _ S2 D2 O1 F1)).
    + rewrite F1 in D1. symmetry in D1.
      destruct (K2 (N2 _ _ _ _ S1 D1 O2 F2)).
    + rewrite F1 in D1. rewrite F2 in D2. symmetry in D1, D2.
      exact (N1 _ _ _ S1 S2 D1 D2).
  - intros k e E. destruct (Cl k e E) as [[O NR]|[I De]].
    + destruct (C3 k e O) as (f & Fe & If). exists f. split; [exact Fe|].
      apply F. left. split; [exact If|].
      intros k' Rk'. apply (matched_literal w _ f (Lt k' Rk')). intros Eq.
      destruct (removals_old files c k' Rk') as (o' & O' & _).
      fold old in O'. unfold file_of in Eq. fold old in Eq. rewrite O' in Eq.
      destruct (C3 k' o' O') as (f' & Fo' & _). rewrite Fo' in Eq. simpl in Eq.
      subst f'. assert (k' = k) by exact (C2 k' k o' e f O' O Fo' Fe).
      subst k'. contradiction.
    + destruct (DownloadCF k (fid_of (planned_of files c) k)) as [f|] eqn:Dk;
        [|exfalso; now apply (D k I)].
      exists f. split; [exact De|]. apply F. right. eauto.
Qed.

(** C7 at an update of the only mod. *)
Lemma C7_witness :
  exists data,
    cache_json (fst (DownloadModsTarget by_id updated_mod)) = Parsed data
    /\ consistent (modcache (fst (DownloadModsTarget by_id updated_mod)))
                  (JSON_parse data).
Proof.
  refine (C7_files_and_entries_correspond by_id updated_mod
            (fst (DownloadModsTarget by_id updated_mod))
            [mkManifestFile 1 (text "b") true] eq_refl _ _ _ eq_refl).
  - split; [|split].
    + simpl. intros f [<-|[]].
      exists "1", (mkModData (Some "1") (text "a") true). auto.
    + simpl. intros k1 k2 e1 e2 f H1 H2 _ _.
      destruct (String.eqb k1 "1") eqn:E1; [|discriminate].
      destruct (String.eqb k2 "1") eqn:E2; [|discriminate].
      apply String.eqb_eq in E1, E2. congruence.
    + simpl. intros k e H.
      destruct (String.eqb k "1"); [|discriminate].
      inversion H; subst e. exists "1". simpl. auto.
  - intros k _ f. reflexivity.
  - split.
    + intros m1 m2 f _ _ H1 H2. unfold by_id in H1, H2. congruence.
    + intros m f k e [<-|[]] _ H2 H3.
      simpl in H2. destruct (String.eqb k "1") eqn:E; [|discriminate].
      apply String.eqb_eq in E. subst k. simpl. auto.
Defined.

(** C8: two manifests that differ in their [required] flags only lead to the
    same plan: the same removals in the same order (the same world after the
    diff), the same ids scheduled in the same order, each with the same
    [fileID], or the same error. *)
Theorem C8_required_is_not_a_diffing_input
        (files1 files2 : list ManifestFile) (w : World) :
  map (fun d => (projectID d, fileID d)) files1
  = map (fun d => (projectID d, fileID d)) files2 ->
  fst (plan files1 w) = fst (plan files2 w)
  /\ match snd (plan files1 w), snd (plan files2 w) with
     | Normal s1, Normal s2 =>
         mIdToDownload s1 = mIdToDownload s2
         /\ forall k, fid_of (oldData s1) k = fid_of (oldData s2) k
     | Throw e1, Throw e2 => e1 = e2
     | _, _ => False
     end.
Proof.
  intros H.
  assert (V : versions (build_newData files1) = versions (build_newData files2))
    by (now rewrite !versions_build_newData, H).
  destruct (cache_json w) as [| |members] eqn:C.
  2: { rewrite !plan_unparsable by assumption. simpl. auto. }
  all: rewrite !plan_closed by congruence; rewrite C; simpl fst; simpl snd;
    simpl mIdToDownload; simpl oldData.
  - simpl. split; [reflexivity|]. split.
    + apply (f_equal (map (fun p => template (fst p)))) in H.
      now rewrite !map_map in H.
    + intros k. apply (fid_of_planned_versions files1 files2 Absent k V).
  - assert (R : removed_keys (JSON_parse members) (build_newData files1)
                = removed_keys (JSON_parse members) (build_newData files2)).
    { unfold removed_keys. now rewrite (Object_keys_versions _ _ V). }
    assert (A : added_keys (JSON_parse members) (build_newData files1)
                = added_keys (JSON_parse members) (build_newData files2)).
    { unfold added_keys. now rewrite (Object_keys_versions _ _ V). }
    assert (Ch : changed_keys (JSON_parse members) (build_newData files1)
                 = changed_keys (JSON_parse members) (build_newData files2)).
    { unfold changed_keys. apply filter_ext. intros k.
      now apply changed_versions. }
    simpl. rewrite R, A, Ch. split; [reflexivity|]. split; [reflexivity|].
    intros k. apply (fid_of_planned_versions files1 files2 (Parsed members) k V).
Qed.

(** C8 at two manifests that differ in [required] only. *)
Lemma C8_witness :
  fst (plan [mkManifestFile 1 (text "b") true; mkManifestFile 3 (text "c") true]
            scenario3)
  = fst (plan [mkManifestFile 1 (text "b") false; mkManifestFile 3 (text "c") false]
              scenario3)
  /\ match snd (plan [mkManifestFile 1 (text "b") true;
                      mkManifestFile 3 (text "c") true] scenario3),
           snd (plan [mkManifestFile 1 (text "b") false;
                      mkManifestFile 3 (text "c") false] scenario3) with
     | Normal s1, Normal s2 =>
         mIdToDownload s1 = mIdToDownload s2
         /\ forall k, fid_of (oldData s1) k = fid_of (oldData s2) k
     | Throw e1, Throw e2 => e1 = e2
     | _, _ => False
     end.
Proof.
  apply (C8_required_is_not_a_diffing_input
           [mkManifestFile 1 (text "b") true; mkManifestFile 3 (text "c") true]
           [mkManifestFile 1 (text "b") false; mkManifestFile 3 (text "c") false]
           scenario3).
  reflexivity.
Defined.

(** C9, as stated, fails: artifact 1 is in the record and in the manifest with
    the same [fileID], its file is in [dist/modcache] before the run, the run
    completes, and the file is gone afterwards, removed on behalf of artifact
    2, which named the same file. *)
Lemma C9_counterexample :
  get (old_of (cache_json shared_file)) "1"
  = Some (mkModData (Some "a.jar") (number 10) true)
  /\ get (build_newData [mkManifestFile 1 (number 10) true]) "1"
     = Some (mkModData None (number 10) true)
  /\ In "a.jar" (modcache shared_file)
  /\ snd (DownloadModsTarget jar shared_file) = Normal tt
  /\ new_events shared_file (fst (DownloadModsTarget jar shared_file))
     = [fs_mkdirSync "dist/modcache";
        Juke_rm "2" "dist/modcache/a.jar";
        fs_writeFileSync "dist/cache.json"
                         [("1", mkModData (Some "a.jar") (number 10) true)]]
  /\ ~ In "a.jar" (modcache (fst (DownloadModsTarget jar shared_file))).
Proof.
  repeat split; try reflexivity.
  - simpl. auto.
  - simpl. tauto.
Qed.

(** C9, amended: for an artifact that the old record and the manifest hold
    with the same [fileID], the run issues no [Juke.rm] and no [DownloadCF]
    call for it, and after a run that completes or fails at a download its
    entry in [dist/cache.json] is the old one.  Its cached file stays in
    [dist/modcache], matched by no [Juke.rm] of the run and overwritten by no
    download, provided every entry of the old record whose [Juke.rm] pattern
    matches that file is itself unchanged and no download that the run
    schedules returns that file's name. *)
Theorem C9_unchanged_artifact_untouched
        (DownloadCF : string -> value -> option string) (w : World)
        (files : list ManifestFile) (members : list (string * ModData))
        (pid : string) (e n : ModData) :
  manifest_json w = Parsed files ->
  cache_json w = Parsed members ->
  get (JSON_parse members) pid = Some e ->
  get (build_newData files) pid = Some n ->
  strict_eq (md_fileID e) (md_fileID n) = true ->
  let r := DownloadModsTarget DownloadCF w in
  let evs := new_events w (fst r) in
  (forall path, ~ In (Juke_rm pid path) evs)
  /\ (forall v dir, ~ In (DownloadCF_call pid v dir) evs)
  /\ (snd r = Normal tt \/ (exists m v, snd r = Throw (DownloadFailed m v)) ->
      exists data, cache_json (fst r) = Parsed data
                   /\ get (JSON_parse data) pid = Some e)
  /\ (forall f,
         md_file e = Some f ->
         In f (modcache w) ->
         (forall q o,
             get (JSON_parse members) q = Some o ->
             matched w (template_opt (md_file o)) f = true ->
             exists n', get (build_newData files) q = Some n'
                        /\ strict_eq (md_fileID o) (md_fileID n') = true) ->
         (forall m, In m (scheduled_of files (cache_json w)) ->
                    DownloadCF m (fid_of (planned_of files (cache_json w)) m)
                    <> Some f) ->
         In f (modcache (fst r))
         /\ (forall q path, In (Juke_rm q path) evs ->
                            Juke_glob w path ("dist/modcache/" ++ f) = false)
         /\ (forall m v dir, In (DownloadCF_call m v dir) evs ->
                             DownloadCF m v <> Some f)).
Proof.
  intros M C O N S r evs.
  assert (U : cache_json w <> Unparsable) by congruence.
  assert (NR : ~ In pid (removals_of files (cache_json w))).
  { rewrite In_removals_of, C. simpl. unfold changed. rewrite O, N, S.
    simpl. intros [[_ H]|H]; congruence. }
  assert (NS : ~ In pid (scheduled_of files (cache_json w))).
  { rewrite In_scheduled_of, C. simpl. unfold changed. rewrite O, N, S.
    simpl. intros [[_ H]|H]; congruence. }
  destruct (run_log DownloadCF w files M U) as (k & tail & E & T).
  fold r in E. fold evs in E.
  destruct (run_anatomy DownloadCF w files M U) as (w2 & c & L & R).
  fold r in R.
  split; [|split; [|split]].
  - intros path I. rewrite E in I. destruct I as [I|I]; [discriminate|].
    apply in_app_or in I. destruct I as [I|I].
    + apply In_rm_event in I. contradiction.
    + apply in_app_or in I. destruct I as [I|I].
      * apply in_map_iff in I. destruct I as (x & I & _). discriminate.
      * destruct T as [->|(data & ->)]; simpl in I; [tauto|].
        destruct I as [I|[]]. discriminate.
  - intros v dir I. rewrite E in I. destruct I as [I|I]; [discriminate|].
    apply in_app_or in I. destruct I as [I|I].
    + apply in_map_iff in I. destruct I as (x & I & _). discriminate.
    + apply in_app_or in I. destruct I as [I|I].
      * apply In_call_event, In_firstn in I. contradiction.
      * destruct T as [->|(data & ->)]; simpl in I; [tauto|].
        destruct I as [I|[]]. discriminate.
  - intros _. destruct c as [dataKeys|x].
    + assert (R' : DownloadModsTarget DownloadCF w
                   = (write_cache_json dataKeys w2, Normal tt)) by exact R.
      destruct (run_final DownloadCF w _ files M R')
        as (_ & _ & (data & J & G) & _).
      rewrite R. exists data. split; [exact J|].
      rewrite G, C. simpl. now rewrite O, N, S.
    + rewrite R. simpl. apply download_loop_any in L.
      destruct L as (_ & J & _).
      destruct (rm_all_files (old_of (cache_json w))
                  (removals_of files (cache_json w)) (mkdir_modcache w))
        as [_ J1].
      rewrite J1 in J. simpl in J. rewrite C in J.
      exists members. auto.
  - intros f Fe If Hyp Fresh.
    assert (Keep : forall q, In q (removals_of files (cache_json w)) ->
                     matched w (template_opt (file_of (old_of (cache_json w)) q)) f
                     = false).
    { intros q Q.
      destruct (matched w (template_opt (file_of (old_of (cache_json w)) q)) f)
        eqn:Mt; [exfalso|reflexivity].
      rewrite In_removals_of, C in Q. simpl in Q.
      rewrite C in Mt. simpl in Mt. unfold file_of in Mt.
      destruct (get (JSON_parse members) q) as [o|] eqn:Oq.
      - destruct (Hyp q o Oq Mt) as (n' & Nq & Sq).
        unfold changed in Q. rewrite Oq, Nq, Sq in Q. simpl in Q.
        destruct Q as [[_ Q]|Q]; congruence.
      - unfold changed in Q. rewrite Oq in Q.
        destruct Q as [[Q _]|Q]; [congruence|].
        destruct (get (build_newData files) q); discriminate. }
    split; [|split].
    + assert (I1 : In f (modcache (rm_all (old_of (cache_json w))
                                          (removals_of files (cache_json w))
                                          (mkdir_modcache w)))).
      { rewrite rm_all_modcache. split; [exact If|]. exact Keep. }
      apply download_loop_any in L. destruct L as (_ & _ & _ & K).
      rewrite R. destruct c; simpl; apply K, I1.
    + intros q path I. rewrite E in I. destruct I as [I|I]; [discriminate|].
      apply in_app_or in I. destruct I as [I|I].
      * apply in_map_iff in I. destruct I as (x & X & I).
        unfold rm_event in X. inversion X; subst q path.
        exact (Keep x I).
      * apply in_app_or in I. destruct I as [I|I].
        -- apply in_map_iff in I. destruct I as (x & I & _). discriminate.
        -- destruct T as [->|(data & ->)]; simpl in I; [tauto|].
           destruct I as [I|[]]. discriminate.
    + intros m v dir I. rewrite E in I. destruct I as [I|I]; [discriminate|].
      apply in_app_or in I. destruct I as [I|I].
      * apply in_map_iff in I. destruct I as (x & I & _). discriminate.
      * apply in_app_or in I. destruct I as [I|I].
        -- apply in_map_iff in I. destruct I as (x & X & I).
           unfold call_event in X. inversion X; subst m v dir.
           apply Fresh. now apply In_firstn in I.
        -- destruct T as [->|(data & ->)]; simpl in I; [tauto|].
           destruct I as [I|[]]. discriminate.
Qed.

(** C9 at scenario 2 with [required] flipped in the manifest. *)
Lemma C9_witness :
  (forall path,
      ~ In (Juke_rm "1" path)
           (new_events flipped_required
                       (fst (DownloadModsTarget jar flipped_required))))
  /\ (forall v dir,
         ~ In (DownloadCF_call "1" v dir)
              (new_events flipped_required
                          (fst (DownloadModsTarget jar flipped_required))))
  /\ (exists data,
         cache_json (fst (DownloadModsTarget jar flipped_required)) = Parsed data
         /\ get (JSON_parse data) "1"
            = Some (mkModData (Some "f1") (text "a") true))
  /\ In "f1" (modcache (fst (DownloadModsTarget jar flipped_required))).
Proof.
  destruct (C9_unchanged_artifact_untouched jar flipped_required
              [mkManifestFile 1 (text "a") false]
              [("1", mkModData (Some "f1") (text "a") true)]
              "1" (mkModData (Some "f1") (text "a") true)
              (mkModData None (text "a") false)
              eq_refl eq_refl eq_refl eq_refl eq_refl) as (H1 & H2 & H3 & H4).
  refine (conj H1 (conj H2 (conj (H3 (or_introl eq_refl))
            (proj1 (H4 "f1" eq_refl (or_introl eq_refl) _ _))))).
  - intros q o Hq Ho.
    exists (mkModData None (text "a") false).
    simpl in Hq. destruct (String.eqb q "1") eqn:Eq; [|discriminate].
    apply String.eqb_eq in Eq. subst q. inversion Hq; subst o.
    split; reflexivity.
  - intros m [].
Defined.

(** C10: when a run completes, an artifact that the old record and the
    manifest hold with the same [fileID] keeps its old entry verbatim in the
    record that is written, whatever [required] says in the manifest: the
    flag of an unchanged artifact is never refreshed. *)
Theorem C10_unchanged_entry_carried_over
        (DownloadCF : string -> value -> option string) (w w' : World)
        (files : list ManifestFile) (members : list (string * ModData))
        (pid : string) (e n : ModData) :
  manifest_json w = Parsed files ->
  cache_json w = Parsed members ->
  get (JSON_parse members) pid = Some e ->
  get (build_newData files) pid = Some n ->
  strict_eq (md_fileID e) (md_fileID n) = true ->
  DownloadModsTarget DownloadCF w = (w', Normal tt) ->
  exists data,
    cache_json w' = Parsed data
    /\ get (JSON_parse data) pid = Some e
    /\ option_map md_required (get (JSON_parse data) pid) = Some (md_required e).
Proof.
  intros M C O N S R.
  destruct (run_final DownloadCF w w' files M R) as (_ & _ & (data & J & G) & _).
  exists data. split; [exact J|].
  specialize (G pid). rewrite C in G. simpl in G. rewrite O, N, S in G.
  rewrite G. auto.
Qed.

(** C10 at a manifest that flips [required] for an unchanged mod: the record
    keeps the old flag. *)
Lemma C10_witness :
  exists data,
    cache_json (fst (DownloadModsTarget jar flipped_required)) = Parsed data
    /\ get (JSON_parse data) "1" = Some (mkModData (Some "f1") (text "a") true)
    /\ option_map md_required (get (JSON_parse data) "1") = Some true.
Proof.
  exact (C10_unchanged_entry_carried_over jar flipped_required
           (fst (DownloadModsTarget jar flipped_required))
           [mkManifestFile 1 (text "a") false]
           [("1", mkModData (Some "f1") (text "a") true)]
           "1" (mkModData (Some "f1") (text "a") true)
           (mkModData None (text "a") false)
           eq_refl eq_refl eq_refl eq_refl eq_refl eq_refl).
Defined.

(** ** Further lemmas *)

Lemma strict_eq_refl (a : value) : strict_eq a a = true.
Proof.
  destruct a; simpl; [reflexivity | apply Z.eqb_refl | apply String.eqb_refl].
Qed.

Lemma strict_eq_eq (a b : value) : strict_eq a b = true <-> a = b.
Proof.
  split; [|intros ->; apply strict_eq_refl].
  destruct a, b; simpl; try discriminate; intros H.
  - reflexivity.
  - apply Z.eqb_eq in H. now subst.
  - apply String.eqb_eq in H. now subst.
Qed.

Lemma nil_of_no_member (A : Type) (l : list A) : (forall x, ~ In x l) -> l = [].
Proof.
  destruct l as [|a l]; [reflexivity|]. intros H. exfalso. apply (H a). simpl. auto.
Qed.

Lemma agrees_nothing_to_do (old nd : Cache) :
  agrees old nd ->
  removed_keys old nd = [] /\ added_keys old nd = [] /\ changed_keys old nd = [].
Proof.
  intros A. repeat split; apply nil_of_no_member; intros k I; specialize (A k).
  - apply removed_keys_spec in I. destruct I as [O N]. rewrite N in A.
    destruct (get old k); congruence.
  - apply added_keys_spec in I. destruct I as [N O]. rewrite O in A.
    destruct (get nd k); congruence.
  - apply changed_keys_spec, changed_true in I.
    destruct I as (o & n & O & N & S). rewrite O, N in A. congruence.
Qed.

(** A run over a record that agrees with the manifest: no removal, no
    download, the record written again. *)
Lemma run_agrees (DownloadCF : string -> value -> option string) (w : World)
      (files : list ManifestFile) (members : list (string * ModData)) :
  manifest_json w = Parsed files ->
  cache_json w = Parsed members ->
  agrees (JSON_parse members) (build_newData files) ->
  DownloadModsTarget DownloadCF w
  = (mkWorld (manifest_json w)
             (Parsed (JSON_stringify (JSON_parse members)))
             (modcache w) (Juke_glob w)
             (log w ++ [fs_mkdirSync "dist/modcache";
                        fs_writeFileSync "dist/cache.json"
                          (JSON_stringify (JSON_parse members))]),
     Normal tt).
Proof.
  intros M C A. unfold DownloadModsTarget. rewrite M.
  rewrite plan_closed by (simpl; congruence). simpl cache_json. rewrite C.
  unfold removals_of, scheduled_of, planned_of, diff_result. simpl old_of.
  destruct (agrees_nothing_to_do _ _ A) as (-> & -> & ->). simpl.
  unfold write_cache_json, emit. simpl. rewrite <- app_assoc, M. reflexivity.
Qed.

(** The record a completed run writes agrees with the manifest. *)
Lemma run_completed_agrees (DownloadCF : string -> value -> option string)
      (w w' : World) (files : list ManifestFile) :
  manifest_json w = Parsed files ->
  DownloadModsTarget DownloadCF w = (w', Normal tt) ->
  exists data,
    cache_json w' = Parsed data
    /\ agrees (JSON_parse data) (build_newData files).
Proof.
  intros M R.
  destruct (run_final DownloadCF w w' files M R) as (_ & _ & (data & J & G) & _).
  exists data. split; [exact J|]. intros k. rewrite G.
  destruct (get (old_of (cache_json w)) k) as [e|],
           (get (build_newData files) k) as [n|]; trivial.
  - destruct (strict_eq (md_fileID e) (md_fileID n)) eqn:S; [exact S|].
    apply strict_eq_refl.
  - apply strict_eq_refl.
Qed.

Lemma run_manifest_json (DownloadCF : string -> value -> option string) (w : World) :
  manifest_json (fst (DownloadModsTarget DownloadCF w)) = manifest_json w.
Proof.
  destruct (manifest_json w) as [| |files] eqn:M.
  - destruct (run_no_manifest DownloadCF w) as (e & ->); auto.
  - destruct (run_no_manifest DownloadCF w) as (e & ->); auto.
  - destruct (cache_json w) as [| |members] eqn:C.
    2: { now rewrite (run_unparsable_cache DownloadCF w files M C). }
    all: destruct (run_anatomy DownloadCF w files M) as (w2 & c & L & R);
      [congruence|];
      apply download_loop_any in L; destruct L as (L & _);
      destruct (rm_all_files (old_of (cache_json w))
                  (removals_of files (cache_json w)) (mkdir_modcache w))
        as [L1 _];
      rewrite L1 in L; simpl in L;
      rewrite R; destruct c; simpl; congruence.
Qed.

Section Normal_form.
Variable V : Type.
Implicit Types (o : Obj V) (k : string) (v : V).

Lemma set_fresh_app o k v : ~ In k (own_keys o) -> set o k v = o ++ [(k, v)].
Proof.
  induction o as [|[k0 v0] o IH]; simpl; intros N; [reflexivity|].
  destruct (String.eqb k k0) eqn:E.
  - apply String.eqb_eq in E. subst. tauto.
  - f_equal. apply IH. tauto.
Qed.

(** Parsing members with distinct names gives them back in their order. *)
Lemma JSON_parse_NoDup (l : list (string * V)) :
  NoDup (map fst l) -> JSON_parse l = l.
Proof.
  unfold JSON_parse. change l with ([] ++ l) at 1 3.
  generalize (@nil (string * V)) as o.
  induction l as [|[k v] l IH]; simpl; intros o ND.
  - now rewrite app_nil_r.
  - rewrite map_app in ND. simpl in ND.
    rewrite set_fresh_app.
    + change (o ++ (k, v) :: l) with (o ++ [(k, v)] ++ l).
      rewrite app_assoc. apply IH.
      now rewrite <- app_assoc, map_app.
    + apply NoDup_remove_2 in ND. intros I. apply ND.
      apply in_or_app. auto.
Qed.

Lemma get_In_NoDup (l : list (string * V)) k v :
  NoDup (map fst l) -> (get l k = Some v <-> In (k, v) l).
Proof.
  induction l as [|[k0 v0] l IH]; simpl; intros ND.
  - intuition discriminate.
  - inversion ND as [|? ? Hk ND']; subst.
    destruct (String.eqb k k0) eqn:E.
    + apply String.eqb_eq in E. subst k0. split.
      * intros [= ->]. auto.
      * intros [[= ->]|I]; [reflexivity|].
        exfalso. apply Hk. apply (in_map fst) in I. exact I.
    + apply String.eqb_neq in E. rewrite (IH ND'). split; [auto|].
      intros [[= ? ?]|I]; [congruence|exact I].
Qed.

Lemma insert_index_Sorted k ks :
  Sorted (fun a b => N.leb (index_value a) (index_value b) = true) ks ->
  Sorted (fun a b => N.leb (index_value a) (index_value b) = true)
         (insert_index k ks).
Proof.
  induction ks as [|k' ks IH]; simpl; intros S.
  - repeat constructor.
  - destruct (N.leb (index_value k) (index_value k')) eqn:E.
    + constructor; [exact S|]. now constructor.
    + inversion S as [|? ? S' H]; subst. constructor; [now apply IH|].
      assert (L : N.leb (index_value k') (index_value k) = true).
      { apply N.leb_le. apply N.leb_gt in E. lia. }
      destruct ks as [|k'' ks]; simpl.
      * now constructor.
      * destruct (N.leb (index_value k) (index_value k'')); constructor;
          [exact L|]. now inversion H.
Qed.

Lemma sort_index_Sorted ks :
  Sorted (fun a b => N.leb (index_value a) (index_value b) = true)
         (sort_index ks).
Proof.
  induction ks as [|k ks IH]; simpl; [constructor|].
  now apply insert_index_Sorted.
Qed.

Lemma sort_index_of_Sorted ks :
  Sorted (fun a b => N.leb (index_value a) (index_value b) = true) ks ->
  sort_index ks = ks.
Proof.
  induction ks as [|k ks IH]; simpl; intros S; [reflexivity|].
  inversion S as [|? ? S' H]; subst. rewrite (IH S').
  destruct ks as [|k' ks]; simpl; [reflexivity|].
  inversion H as [|? ? E]; subst. now rewrite E.
Qed.

Lemma filter_all (A : Type) (p : A -> bool) (l : list A) :
  Forall (fun x => p x = true) l -> filter p l = l.
Proof.
  induction 1 as [|x l H F IH]; simpl; [reflexivity|]. now rewrite H, IH.
Qed.

Lemma filter_none (A : Type) (p : A -> bool) (l : list A) :
  Forall (fun x => p x = false) l -> filter p l = [].
Proof.
  induction 1 as [|x l H F IH]; simpl; [reflexivity|]. now rewrite H, IH.
Qed.

Lemma Forall_filter_true (A : Type) (p : A -> bool) (l : list A) :
  Forall (fun x => p x = true) (filter p l).
Proof.
  apply Forall_forall. intros x I. now apply filter_In in I.
Qed.

(** The keys of what [JSON.stringify] prints are already in the order
    [Object.keys] gives. *)
Lemma Object_keys_stringify o : Object_keys (JSON_stringify o) = Object_keys o.
Proof.
  unfold Object_keys at 1. unfold own_keys at 1 2. rewrite stringify_keys.
  unfold Object_keys.
  set (S := sort_index (filter is_index (own_keys o))).
  set (T := filter (fun k => negb (is_index k)) (own_keys o)).
  assert (FS : Forall (fun k => is_index k = true) S).
  { unfold S. eapply Permutation_Forall.
    - symmetry. apply sort_index_perm.
    - apply Forall_filter_true. }
  assert (FT : Forall (fun k => negb (is_index k) = true) T)
    by apply Forall_filter_true.
  rewrite !filter_app.
  rewrite (filter_all _ _ _ FS).
  rewrite (filter_none _ is_index T).
  2: { eapply Forall_impl; [|exact FT]. intros k H. simpl in H.
       now apply negb_true_iff in H. }
  rewrite (filter_none _ (fun k => negb (is_index k)) S).
  2: { eapply Forall_impl; [|exact FS]. intros k H. simpl in H.
       now rewrite H. }
  rewrite (filter_all _ _ _ FT). rewrite app_nil_r. simpl.
  f_equal. apply sort_index_of_Sorted. apply sort_index_Sorted.
Qed.

(** Writing a record, reading it and writing it again gives the same text. *)
Lemma stringify_parse_stringify o :
  NoDup (own_keys o) ->
  JSON_stringify (JSON_parse (JSON_stringify o)) = JSON_stringify o.
Proof.
  intros ND.
  assert (NK : NoDup (map fst (JSON_stringify o)))
    by (rewrite stringify_keys; now apply NoDup_Object_keys).
  rewrite (JSON_parse_NoDup _ NK).
  unfold JSON_stringify at 1. rewrite Object_keys_stringify.
  unfold JSON_stringify at 2. apply flat_map_ext. intros k.
  destruct (get o k) as [v|] eqn:G.
  - assert (H : get (JSON_stringify o) k = Some v)
      by (apply (get_In_NoDup _ _ _ NK); now apply In_stringify).
    now rewrite H.
  - destruct (get (JSON_stringify o) k) as [v|] eqn:H; [|reflexivity].
    apply (get_In_NoDup _ _ _ NK), In_stringify in H. congruence.
Qed.

End Normal_form.

(** What a completed run wrote: the text of a record with distinct keys. *)
Lemma run_completed_record (DownloadCF : string -> value -> option string)
      (w w' : World) (files : list ManifestFile) :
  manifest_json w = Parsed files ->
  DownloadModsTarget DownloadCF w = (w', Normal tt) ->
  exists dataKeys,
    NoDup (own_keys dataKeys)
    /\ cache_json w' = Parsed (JSON_stringify dataKeys).
Proof.
  intros M R.
  assert (U : cache_json w <> Unparsable).
  { intros C. rewrite (run_unparsable_cache DownloadCF w files M C) in R.
    discriminate. }
  destruct (run_anatomy DownloadCF w files M U) as (w2 & r & L & E).
  rewrite E in R. destruct r as [dataKeys|e]; [|discriminate].
  inversion R; subst w'. apply download_loop_ok in L.
  destruct L as (_ & _ & _ & _ & K).
  exists dataKeys. split; [|reflexivity].
  rewrite K. apply NoDup_own_keys_planned_of.
Qed.

(** A run that fails leaves both JSON files as they were. *)
Lemma failed_run_keeps_json (DownloadCF : string -> value -> option string)
      (w : World) (e : Exception) :
  snd (DownloadModsTarget DownloadCF w) = Throw e ->
  cache_json (fst (DownloadModsTarget DownloadCF w)) = cache_json w.
Proof.
  intros F. destruct (manifest_json w) as [| |files] eqn:M.
  - destruct (run_no_manifest DownloadCF w) as (x & ->); auto.
  - destruct (run_no_manifest DownloadCF w) as (x & ->); auto.
  - destruct (cache_json w) as [| |members] eqn:C.
    2: { rewrite (run_unparsable_cache DownloadCF w files M C). simpl.
         exact C. }
    all: destruct (run_usable DownloadCF w files M) as (w2 & c & evs & R & _ & _ & J);
      [congruence|];
      rewrite R in *; destruct c; simpl in *; [discriminate|congruence].
Qed.

(** What the download loop computes does not depend on the world. *)
Lemma download_loop_result (DownloadCF : string -> value -> option string)
      (ids : list string) :
  forall (d : Cache) (w w' : World),
    snd (for_of (download DownloadCF) ids d w)
    = snd (for_of (download DownloadCF) ids d w').
Proof.
  induction ids as [|a ids IH]; simpl; intros d w w'; [reflexivity|].
  unfold download at 1 3.
  destruct (get d a) as [x|]; [|reflexivity].
  destruct (DownloadCF a (md_fileID x)); [apply IH|reflexivity].
Qed.

(** Every file in the directory after the loop was there before or was
    stored by a download. *)
Lemma download_loop_files (DownloadCF : string -> value -> option string)
      (ids : list string) :
  forall (d : Cache) (w w' : World) (c : Completion Cache) (f : string),
    for_of (download DownloadCF) ids d w = (w', c) ->
    In f (modcache w') ->
    In f (modcache w) \/ exists m v, DownloadCF m v = Some f.
Proof.
  induction ids as [|a ids IH]; simpl; intros d w w' c f H I.
  - inversion H; subst. auto.
  - unfold download in H at 1.
    destruct (get d a) as [x|] eqn:G.
    + destruct (DownloadCF a (md_fileID x)) as [name|] eqn:D.
      * destruct (IH _ _ _ _ _ H I) as [J|J]; [|auto].
        simpl in J. destruct J as [<-|J]; [eauto|].
        apply In_remove_name in J. tauto.
      * inversion H; subst. simpl in I. auto.
    + inversion H; subst. auto.
Qed.

Lemma calls_for_rm (o : Cache) (m : string) (ks : list string) :
  calls_for m (map (rm_event o) ks) = [].
Proof. induction ks as [|k ks IH]; simpl; [reflexivity|exact IH]. Qed.

Lemma calls_for_calls (d : Cache) (m : string) (ks : list string) :
  List.length (calls_for m (map (call_event d) ks)) = count_occ string_dec ks m.
Proof.
  induction ks as [|k ks IH]; simpl; [reflexivity|].
  destruct (string_dec k m) as [->|N].
  - rewrite String.eqb_refl. simpl. now rewrite IH.
  - apply String.eqb_neq in N. now rewrite N.
Qed.

Lemma calls_for_app (m : string) (l1 l2 : list Event) :
  calls_for m (l1 ++ l2) = calls_for m l1 ++ calls_for m l2.
Proof. apply filter_app. Qed.

(** ** Further properties of [DownloadModsTarget] *)

(** X1: the record a completed run writes has an entry for exactly the
    projects of the manifest, and the entry of a project carries the [fileID]
    of its last manifest entry; each entry is an entry of the old record
    carried over or has the file name its download returned. *)
Theorem completed_run_record_matches_manifest
        (DownloadCF : string -> value -> option string) (w w' : World)
        (files : list ManifestFile) :
  manifest_json w = Parsed files ->
  DownloadModsTarget DownloadCF w = (w', Normal tt) ->
  exists data,
    cache_json w' = Parsed data
    /\ (forall k, get (JSON_parse data) k <> None <->
                  exists d, In d files /\ template (projectID d) = k)
    /\ (forall l1 d l2,
           files = l1 ++ d :: l2 ->
           (forall d', In d' l2 ->
                       template (projectID d') <> template (projectID d)) ->
           exists e,
             get (JSON_parse data) (template (projectID d)) = Some e
             /\ md_fileID e = fileID d
             /\ (get (old_of (cache_json w)) (template (projectID d)) = Some e
                 \/ md_file e = DownloadCF (template (projectID d)) (fileID d)
                    /\ md_file e <> None)).
Proof.
  intros M R.
  destruct (run_final DownloadCF w w' files M R) as (U & D & (data & J & G) & _).
  exists data. split; [exact J|]. split.
  - intros k. rewrite <- build_newData_In, G.
    destruct (get (old_of (cache_json w)) k) as [e|],
             (get (build_newData files) k) as [n|];
      try (destruct (strict_eq (md_fileID e) (md_fileID n)));
      intuition congruence.
  - intros l1 d l2 -> L.
    pose proof (build_newData_last l1 l2 d L) as N.
    set (k := template (projectID d)) in *.
    set (files := l1 ++ d :: l2) in *.
    assert (Sch : get (old_of (cache_json w)) k = None
                  \/ (exists o, get (old_of (cache_json w)) k = Some o
                                /\ strict_eq (md_fileID o) (fileID d) = false) ->
                  DownloadCF k (fileID d) <> None).
    { intros H.
      assert (I : In k (scheduled_of files (cache_json w))).
      { apply In_scheduled_of. unfold changed. rewrite N.
        destruct H as [->|(o & -> & S)]; simpl.
        - left. split; congruence.
        - right. now rewrite S. }
      specialize (D k I).
      destruct (scheduled_new files (cache_json w) k I) as (n & Nn & F & _).
      rewrite N in Nn. inversion Nn; subst n. simpl in F. now rewrite F in D. }
    rewrite G, N. simpl.
    destruct (get (old_of (cache_json w)) k) as [o|] eqn:O.
    + destruct (strict_eq (md_fileID o) (fileID d)) eqn:S.
      * exists o. split; [reflexivity|]. split; [|now left].
        now apply strict_eq_eq.
      * eexists. split; [reflexivity|]. simpl. split; [reflexivity|].
        right. split; [reflexivity|]. apply Sch. right. eauto.
    + eexists. split; [reflexivity|]. simpl. split; [reflexivity|].
      right. split; [reflexivity|]. apply Sch. now left.
Qed.

(** X1 at scenario 3. *)
Lemma completed_run_record_matches_manifest_witness :
  exists data,
    cache_json (fst (DownloadModsTarget jar scenario3)) = Parsed data
    /\ (forall k, get (JSON_parse data) k <> None <->
                  exists d, In d [mkManifestFile 1 (text "b") true]
                            /\ template (projectID d) = k)
    /\ exists e,
        get (JSON_parse data) "1" = Some e
        /\ md_fileID e = text "b"
        /\ (get (old_of (cache_json scenario3)) "1" = Some e
            \/ md_file e = jar "1" (text "b") /\ md_file e <> None).
Proof.
  destruct (completed_run_record_matches_manifest jar scenario3
              (fst (DownloadModsTarget jar scenario3))
              [mkManifestFile 1 (text "b") true] eq_refl eq_refl)
    as (data & J & K & L).
  exists data. split; [exact J|]. split; [exact K|].
  apply (L [] (mkManifestFile 1 (text "b") true) [] eq_refl).
  intros d' [].
Defined.

(** X2: a run that follows a completed run, with the manifest unchanged,
    issues no removal and no download, whatever [DownloadCF] would answer; it
    completes, leaves [dist/modcache] alone and writes the same record
    again. *)
Theorem second_run_is_noop
        (DownloadCF DownloadCF' : string -> value -> option string)
        (w w1 : World) (files : list ManifestFile) :
  manifest_json w = Parsed files ->
  DownloadModsTarget DownloadCF w = (w1, Normal tt) ->
  exists data,
    cache_json w1 = Parsed data
    /\ DownloadModsTarget DownloadCF' w1
       = (mkWorld (Parsed files) (Parsed data) (modcache w1) (Juke_glob w1)
                  (log w1 ++ [fs_mkdirSync "dist/modcache";
                              fs_writeFileSync "dist/cache.json" data]),
          Normal tt).
Proof.
  intros M R.
  destruct (run_completed_record DownloadCF w w1 files M R) as (dk & ND & J).
  destruct (run_completed_agrees DownloadCF w w1 files M R) as (data & J' & A).
  assert (M1 : manifest_json w1 = Parsed files).
  { pose proof (run_manifest_json DownloadCF w) as H. rewrite R in H.
    simpl in H. congruence. }
  exists data. split; [exact J'|].
  rewrite (run_agrees DownloadCF' w1 files data M1 J' A).
  assert (E : data = JSON_stringify dk) by congruence.
  rewrite M1. rewrite E at 1 2. rewrite (stringify_parse_stringify _ _ ND).
  now rewrite <- E.
Qed.

(** X2 at scenario 3, the second run being without network. *)
Lemma second_run_is_noop_witness :
  exists data,
    cache_json (fst (DownloadModsTarget jar scenario3)) = Parsed data
    /\ DownloadModsTarget offline (fst (DownloadModsTarget jar scenario3))
       = (mkWorld (Parsed [mkManifestFile 1 (text "b") true]) (Parsed data)
                  (modcache (fst (DownloadModsTarget jar scenario3)))
                  String.eqb
                  (log (fst (DownloadModsTarget jar scenario3))
                     ++ [fs_mkdirSync "dist/modcache";
                         fs_writeFileSync "dist/cache.json" data]),
          Normal tt).
Proof.
  exact (second_run_is_noop jar offline scenario3
           (fst (DownloadModsTarget jar scenario3))
           [mkManifestFile 1 (text "b") true] eq_refl eq_refl).
Defined.

(** X3: with a cache record, a run asks [DownloadCF] at most once for a mod,
    however often the manifest repeats its [projectID]; without a record, a
    run that completes asks once per manifest entry, so a repeated
    [projectID] is downloaded again. *)
Theorem downloads_per_mod
        (DownloadCF : string -> value -> option string) (w : World)
        (files : list ManifestFile) (m : string) :
  manifest_json w = Parsed files ->
  (forall members,
      cache_json w = Parsed members ->
      List.length
        (calls_for m (new_events w (fst (DownloadModsTarget DownloadCF w)))) <= 1)
  /\ (cache_json w = Absent ->
      snd (DownloadModsTarget DownloadCF w) = Normal tt ->
      List.length
        (calls_for m (new_events w (fst (DownloadModsTarget DownloadCF w))))
      = count_occ string_dec (map (fun d => template (projectID d)) files) m).
Proof.
  intros M. split.
  - intros members C.
    destruct (run_log DownloadCF w files M) as (n & tail & E & T); [congruence|].
    rewrite E. simpl. rewrite !calls_for_app, calls_for_rm. simpl.
    rewrite length_app, calls_for_calls.
    assert (Z : calls_for m tail = [])
      by (destruct T as [->|(data & ->)]; reflexivity).
    rewrite Z. simpl. rewrite Nat.add_0_r.
    apply NoDup_count_occ. rewrite C.
    pose proof (NoDup_scheduled_of_parsed files members) as ND.
    rewrite <- (firstn_skipn n (scheduled_of files (Parsed members))) in ND.
    now apply NoDup_app_remove_r in ND.
  - intros C N.
    destruct (run_anatomy DownloadCF w files M) as (w2 & c & L & R);
      [congruence|].
    rewrite R in *. destruct c as [dataKeys|e]; [|discriminate]. simpl.
    apply download_loop_ok in L. destruct L as (_ & L & _).
    rewrite rm_all_log in L. rewrite C in L. simpl in L.
    rewrite (new_events_app w (write_cache_json dataKeys w2)
               (fs_mkdirSync "dist/modcache"
                  :: map (call_event (build_newData files))
                         (map (fun d => template (projectID d)) files)
                  ++ [fs_writeFileSync "dist/cache.json" (JSON_stringify dataKeys)])).
    + simpl. rewrite calls_for_app, length_app, calls_for_calls. simpl. lia.
    + simpl. rewrite L. now rewrite <- !app_assoc.
Qed.

(** X3 at scenario 3 and at a first run over a manifest that names project 1
    twice. *)
Lemma downloads_per_mod_witness :
  List.length
    (calls_for "1" (new_events scenario3 (fst (DownloadModsTarget jar scenario3))))
  <= 1
  /\ List.length
       (calls_for "1" (new_events (world0 malformed Absent [])
                         (fst (DownloadModsTarget jar (world0 malformed Absent [])))))
     = 2.
Proof.
  split.
  - exact (proj1 (downloads_per_mod jar scenario3
                    [mkManifestFile 1 (text "b") true] "1" eq_refl)
                 [("1", mkModData (Some "f1") (text "a") true)] eq_refl).
  - exact (proj2 (downloads_per_mod jar (world0 malformed Absent [])
                    malformed "1" eq_refl) eq_refl eq_refl).
Defined.

(** X4: after a run that failed, a run that completes writes exactly the
    record that it would have written had the failed run never happened. *)
Theorem retry_after_failure
        (DownloadCF1 DownloadCF2 : string -> value -> option string)
        (w w1 w2 : World) (e : Exception) :
  DownloadModsTarget DownloadCF1 w = (w1, Throw e) ->
  DownloadModsTarget DownloadCF2 w1 = (w2, Normal tt) ->
  exists w2',
    DownloadModsTarget DownloadCF2 w = (w2', Normal tt)
    /\ cache_json w2' = cache_json w2.
Proof.
  intros F R.
  assert (J : cache_json w1 = cache_json w).
  { pose proof (failed_run_keeps_json DownloadCF1 w e) as H.
    rewrite F in H. now apply H. }
  assert (M : manifest_json w1 = manifest_json w).
  { pose proof (run_manifest_json DownloadCF1 w) as H. now rewrite F in H. }
  destruct (manifest_json w1) as [| |files] eqn:M1.
  - destruct (run_no_manifest DownloadCF2 w1) as (x & E); [auto|]. congruence.
  - destruct (run_no_manifest DownloadCF2 w1) as (x & E); [auto|]. congruence.
  - symmetry in M.
    assert (U1 : cache_json w1 <> Unparsable).
    { intros C. rewrite (run_unparsable_cache DownloadCF2 w1 files M1 C) in R.
      discriminate. }
    assert (U : cache_json w <> Unparsable) by congruence.
    destruct (run_anatomy DownloadCF2 w1 files M1 U1) as (x1 & c1 & L1 & E1).
    destruct (run_anatomy DownloadCF2 w files M U) as (x & c & L & E).
    rewrite E1 in R. destruct c1 as [dk|?]; [|discriminate].
    inversion R; subst w2.
    pose proof (download_loop_result DownloadCF2
                  (scheduled_of files (cache_json w))
                  (planned_of files (cache_json w))
                  (rm_all (old_of (cache_json w))
                          (removals_of files (cache_json w)) (mkdir_modcache w))
                  (rm_all (old_of (cache_json w1))
                          (removals_of files (cache_json w1)) (mkdir_modcache w1)))
      as S.
    rewrite L in S. rewrite J in L1, S. rewrite L1 in S. simpl in S. subst c.
    rewrite E. eexists. split; reflexivity.
Qed.

(** X4 at scenario 5: the fetch of mod 2 fails, then everything succeeds. *)
Lemma retry_after_failure_witness :
  exists w2',
    DownloadModsTarget jar scenario5 = (w2', Normal tt)
    /\ cache_json w2'
       = cache_json
           (fst (DownloadModsTarget jar
                   (fst (DownloadModsTarget jar_but_2 scenario5)))).
Proof.
  exact (retry_after_failure jar_but_2 jar scenario5
           (fst (DownloadModsTarget jar_but_2 scenario5))
           (fst (DownloadModsTarget jar
                   (fst (DownloadModsTarget jar_but_2 scenario5))))
           (DownloadFailed "2" (text "b")) eq_refl eq_refl).
Defined.

(** X5: a run removes only files that the [Juke.rm] pattern of a recorded
    name matches: a file of [dist/modcache] that the pattern of no name in
    the record matches is still in the directory after the run, whatever the
    manifest holds and however the run ends. *)
Theorem untracked_file_survives
        (DownloadCF : string -> value -> option string) (w : World) (f : string) :
  In f (modcache w) ->
  (forall q o, get (old_of (cache_json w)) q = Some o ->
               matched w (template_opt (md_file o)) f = false) ->
  In f (modcache (fst (DownloadModsTarget DownloadCF w))).
Proof.
  intros I H. destruct (manifest_json w) as [| |files] eqn:M.
  - destruct (run_no_manifest DownloadCF w) as (x & ->); auto.
  - destruct (run_no_manifest DownloadCF w) as (x & ->); auto.
  - destruct (cache_json w) as [| |members] eqn:C.
    2: { now rewrite (run_unparsable_cache DownloadCF w files M C). }
    all: destruct (run_anatomy DownloadCF w files M) as (w2 & c & L & R);
      [congruence|];
      apply download_loop_any in L; destruct L as (_ & _ & _ & K);
      rewrite R; rewrite C in K.
    + destruct c; simpl; apply K; exact I.
    + assert (I1 : In f (modcache
                           (rm_all (old_of (Parsed members))
                                   (removals_of files (Parsed members))
                                   (mkdir_modcache w)))).
      { apply rm_all_modcache. split; [exact I|]. intros k Rk.
        destruct (removals_old files (Parsed members) k Rk) as (o & O & _).
        unfold file_of. rewrite O. exact (H k o O). }
      destruct c; simpl; apply K; exact I1.
Qed.

(** X5 at a file on no record, beside a recorded name with glob
    characters. *)
Lemma untracked_file_survives_witness :
  In "c.jar" (modcache (fst (DownloadModsTarget jar glob_world))).
Proof.
  apply (untracked_file_survives jar glob_world).
  - simpl. auto.
  - intros q o H. simpl in H.
    destruct (String.eqb q "1"); [inversion H; reflexivity|].
    destruct (String.eqb q "2"); [inversion H; reflexivity|].
    discriminate.
Defined.

(** X6: [CleanCacheTarget] empties [dist/modcache] and keeps
    [dist/cache.json]; so after a completed run and a clean of the cache, the
    next run downloads nothing: it completes without a single [DownloadCF]
    call, with [dist/modcache] empty and every project of the manifest still
    on record. *)
Theorem clean_cache_then_download_fetches_nothing
        (DownloadCF DownloadCF' : string -> value -> option string)
        (w w1 : World) (files : list ManifestFile) :
  manifest_json w = Parsed files ->
  DownloadModsTarget DownloadCF w = (w1, Normal tt) ->
  exists data,
    cache_json w1 = Parsed data
    /\ DownloadModsTarget DownloadCF' (CleanCacheTarget w1)
       = (mkWorld (Parsed files) (Parsed data) [] (Juke_glob w1)
                  (log w1 ++ [fs_mkdirSync "dist/modcache";
                              fs_writeFileSync "dist/cache.json" data]),
          Normal tt)
    /\ (forall d, In d files ->
                  get (JSON_parse data) (template (projectID d)) <> None).
Proof.
  intros M R.
  destruct (run_completed_record DownloadCF w w1 files M R) as (dk & ND & J).
  destruct (run_completed_agrees DownloadCF w w1 files M R) as (data & J' & A).
  assert (M1 : manifest_json w1 = Parsed files).
  { pose proof (run_manifest_json DownloadCF w) as H. rewrite R in H.
    simpl in H. congruence. }
  exists data. split; [exact J'|]. split.
  - rewrite (run_agrees DownloadCF' (CleanCacheTarget w1) files data M1 J' A).
    assert (E : data = JSON_stringify dk) by congruence.
    simpl. rewrite M1. rewrite E at 1 2.
    rewrite (stringify_parse_stringify _ _ ND). now rewrite <- E.
  - intros d I. specialize (A (template (projectID d))).
    assert (N : get (build_newData files) (template (projectID d)) <> None)
      by (apply build_newData_In; eauto).
    destruct (get (JSON_parse data) (template (projectID d)));
      [discriminate|].
    destruct (get (build_newData files) (template (projectID d))); tauto.
Qed.

(** X6 at scenario 3. *)
Lemma clean_cache_then_download_fetches_nothing_witness :
  exists data,
    cache_json (fst (DownloadModsTarget jar scenario3)) = Parsed data
    /\ DownloadModsTarget jar
         (CleanCacheTarget (fst (DownloadModsTarget jar scenario3)))
       = (mkWorld (Parsed [mkManifestFile 1 (text "b") true]) (Parsed data) []
                  String.eqb
                  (log (fst (DownloadModsTarget jar scenario3))
                     ++ [fs_mkdirSync "dist/modcache";
                         fs_writeFileSync "dist/cache.json" data]),
          Normal tt)
    /\ (forall d, In d [mkManifestFile 1 (text "b") true] ->
                  get (JSON_parse data) (template (projectID d)) <> None).
Proof.
  exact (clean_cache_then_download_fetches_nothing jar jar scenario3
           (fst (DownloadModsTarget jar scenario3))
           [mkManifestFile 1 (text "b") true] eq_refl eq_refl).
Defined.

(** X7: the file recorded for a mod that the manifest drops, or holds with
    another [fileID], is not in [dist/modcache] after a run that completes or
    fails at a download, provided the [Juke.rm] pattern made of its name
    matches it (as it does for a name without glob characters) and
    [DownloadCF] does not give out that name. *)
Theorem removed_file_is_gone
        (DownloadCF : string -> value -> option string) (w : World)
        (files : list ManifestFile) (members : list (string * ModData))
        (pid : string) (o : ModData) (f : string) :
  manifest_json w = Parsed files ->
  cache_json w = Parsed members ->
  get (JSON_parse members) pid = Some o ->
  md_file o = Some f ->
  (forall n, get (build_newData files) pid = Some n ->
             strict_eq (md_fileID o) (md_fileID n) = false) ->
  matched w f f = true ->
  (forall m v, DownloadCF m v <> Some f) ->
  snd (DownloadModsTarget DownloadCF w) = Normal tt
  \/ (exists m v, snd (DownloadModsTarget DownloadCF w)
                  = Throw (DownloadFailed m v)) ->
  ~ In f (modcache (fst (DownloadModsTarget DownloadCF w))).
Proof.
  intros M C O F Ch Lt Fresh _ I.
  destruct (run_anatomy DownloadCF w files M) as (w2 & c & L & R); [congruence|].
  assert (I2 : In f (modcache w2))
    by (rewrite R in I; destruct c; exact I).
  destruct (download_loop_files DownloadCF _ _ _ _ _ f L I2) as [I1|(m & v & D)].
  - apply rm_all_modcache in I1. destruct I1 as [_ N].
    assert (Rp : In pid (removals_of files (cache_json w))).
    { apply In_removals_of. rewrite C. simpl. unfold changed. rewrite O.
      destruct (get (build_newData files) pid) as [n|] eqn:Nn.
      - right. now rewrite (Ch n eq_refl).
      - left. split; congruence. }
    specialize (N pid Rp). rewrite C in N. simpl in N.
    unfold file_of in N. rewrite O, F in N. simpl in N.
    unfold matched in N, Lt. simpl in N, Lt. congruence.
  - exact (Fresh m v D).
Qed.

(** X7 at scenario 4: the file of the dropped mod 2 is gone. *)
Lemma removed_file_is_gone_witness :
  ~ In "f2" (modcache (fst (DownloadModsTarget offline scenario4))).
Proof.
  apply (removed_file_is_gone offline scenario4
           [mkManifestFile 1 (text "a") true]
           [("1", mkModData (Some "f1") (text "a") true);
            ("2", mkModData (Some "f2") (text "b") true)]
           "2" (mkModData (Some "f2") (text "b") true) "f2"
           eq_refl eq_refl eq_refl eq_refl).
  - intros n H. discriminate.
  - reflexivity.
  - intros m v. discriminate.
  - left. reflexivity.
Defined.

(** ** The packaging code: lemmas *)

Lemma appended_app (lg evs : list Action) : appended lg (lg ++ evs) = evs.
Proof.
  unfold appended. rewrite skipn_app, skipn_all, Nat.sub_diag. reflexivity.
Qed.

Lemma appending_ret (A : Type) (a : A) : appending (ret a).
Proof. intros lg. unfold ret. simpl. now rewrite app_nil_r. Qed.

Lemma appending_throw (A : Type) (e : Failure) : appending (@throw A e).
Proof. intros lg. unfold throw. simpl. now rewrite app_nil_r. Qed.

Lemma appending_process_exit (A : Type) (c : Z) : appending (@process_exit A c).
Proof. intros lg. unfold process_exit. simpl. now rewrite app_nil_r. Qed.

Lemma appending_act (env : Env) (a : Action) : appending (act env a).
Proof. intros lg. reflexivity. Qed.

Lemma appending_rm_rf (path : string) : appending (rm_rf path).
Proof. intros lg. reflexivity. Qed.

Lemma appending_bind (A B : Type) (c : Build A) (k : A -> Build B) :
  appending c -> (forall a, appending (k a)) -> appending (bind c k).
Proof.
  intros Hc Hk lg. unfold bind. rewrite (Hc lg).
  destruct (c []) as [l0 [a|e|x]]; simpl.
  - rewrite (Hk a (lg ++ l0)), (Hk a l0). simpl. now rewrite app_assoc.
  - reflexivity.
  - reflexivity.
Qed.

Lemma appending_try_catch (A : Type) (c : Build A) (h : Failure -> Build A) :
  appending c -> (forall e, appending (h e)) -> appending (try_catch c h).
Proof.
  intros Hc Hh lg. unfold try_catch. rewrite (Hc lg).
  destruct (c []) as [l0 [a|e|x]]; simpl.
  - reflexivity.
  - rewrite (Hh e (lg ++ l0)), (Hh e l0). simpl. now rewrite app_assoc.
  - reflexivity.
Qed.

Lemma appending_for_each (xs : list string) (body : string -> Build unit) :
  (forall x, appending (body x)) -> appending (for_each xs body).
Proof.
  intros Hb. induction xs as [|x xs IH]; simpl.
  - apply appending_ret.
  - apply appending_bind; [apply Hb | intros _; exact IH].
Qed.

Lemma appending_if (A : Type) (b : bool) (c1 c2 : Build A) :
  appending c1 -> appending c2 -> appending (if b then c1 else c2).
Proof. now destruct b. Qed.

Lemma appending_zipBuild (env : Env) (group : string) :
  appending (zipBuild env group).
Proof.
  unfold zipBuild. apply appending_try_catch; [|intros; apply appending_throw].
  apply appending_if; [apply appending_act|].
  apply appending_bind.
  - apply appending_try_catch; [|intros; apply appending_process_exit].
    apply appending_bind; [apply appending_act | intros; apply appending_ret].
  - intros [|]; [apply appending_act | apply appending_ret].
Qed.

Lemma appending_applyDefaultMode (env : Env) (configPath : string) :
  appending (applyDefaultMode env configPath).
Proof.
  unfold applyDefaultMode.
  apply appending_if; [|apply appending_ret].
  apply appending_if; [apply appending_act|].
  apply appending_bind; [apply appending_act | intros; apply appending_act].
Qed.

Lemma appending_packBuild (env : Env) (group : string) :
  appending (packBuild env group).
Proof.
  unfold packBuild.
  repeat (apply appending_bind; [apply appending_act | intros _]).
  apply appending_bind; [apply appending_applyDefaultMode | intros _].
  apply appending_zipBuild.
Qed.

Lemma appending_cpSyncFiltered (env : Env) (ourDir newDir : string)
      (f : string -> bool) :
  appending (cpSyncFiltered env ourDir newDir f).
Proof.
  unfold cpSyncFiltered. destruct (readdirSync env ourDir) as [files|].
  - apply appending_for_each. intros file.
    apply appending_if; [apply appending_ret | apply appending_act].
  - apply appending_throw.
Qed.

Lemma appending_mkdir_new (env : Env) (path : string) :
  appending (mkdir_new env path).
Proof.
  unfold mkdir_new. destruct (existsSync env path).
  - intros lg. reflexivity.
  - apply appending_act.
Qed.

Lemma appending_symlinkSync (env : Env) (ourDir newDir : string) :
  appending (symlinkSync env ourDir newDir).
Proof.
  unfold symlinkSync. apply appending_if; [|apply appending_act].
  destruct (lstat_isDirectory env ourDir) as [[|]|];
    [apply appending_act | apply appending_act | apply appending_throw].
Qed.

Lemma appending_BuildServerTarget (env : Env) : appending (BuildServerTarget env).
Proof.
  unfold BuildServerTarget.
  apply appending_bind; [apply appending_act | intros _].
  apply appending_bind;
    [apply appending_for_each; intros; apply appending_act | intros _].
  apply appending_bind; [apply appending_mkdir_new | intros _].
  apply appending_bind; [apply appending_cpSyncFiltered | intros _].
  apply appending_packBuild.
Qed.

(** The calls a computation appends, and how it ends, read at the empty
    log. *)
Lemma appending_appended (A : Type) (c : Build A) (lg : list Action) :
  appending c ->
  appended lg (fst (c lg)) = fst (c []) /\ snd (c lg) = snd (c []).
Proof.
  intros H. rewrite (H lg). simpl. split; [apply appended_app | reflexivity].
Qed.

(** ** Properties of the packaging code *)

Ltac zip_cases :=
  repeat split; intros;
  repeat match goal with
         | H : _ /\ _ |- _ => destruct H
         | H : _ \/ _ |- _ => destruct H
         end;
  subst; try discriminate; try congruence; try tauto;
  try (now rewrite <- app_assoc).

(** X8: [zipBuild] finishes exactly when the archive command succeeded (after
    a successful [zip --help] when not on win32), and then that command is
    the last call.  Every error it throws is [ExitCode(1)].  It ends the
    process, with code 1, exactly when [zip --help] fails off win32, and then
    the archive command was not attempted: the probe is its only call. *)
Theorem zipBuild_ends (env : Env) (group : string) (lg : list Action) :
  let r := zipBuild env group lg in
  (forall e, snd r = Thrown e -> e = ExitCode 1)
  /\ (forall c, snd r = Exited c <->
                c = 1%Z /\ win32 env = false
                /\ succeeds env zip_probe = false)
  /\ (forall c, snd r = Exited c -> fst r = lg ++ [zip_probe])
  /\ (snd r = Finished tt <->
      succeeds env (archive_call env group) = true
      /\ (win32 env = true \/ succeeds env zip_probe = true))
  /\ (snd r = Finished tt ->
      fst r = lg ++ (if win32 env then [] else [zip_probe])
                 ++ [archive_call env group]).
Proof.
  unfold zipBuild, archive_call, zip_probe, try_catch, bind, act, ret, throw,
    process_exit.
  destruct (win32 env); simpl.
  - destruct (succeeds env _); simpl; zip_cases.
  - destruct (succeeds env (Juke_exec "zip" ["--help"] None true)); simpl.
    + destruct (succeeds env _); simpl; zip_cases.
    + zip_cases.
Qed.

(** X9: [packBuild] runs a command only after its three copies succeeded,
    and the archive command only after the pack mode commands succeeded.
    When it finishes, its calls are the three copies, the pack mode commands
    (none when [packmode.json] exists, in [dist/server] for the server pack
    and in [dist/<group>/overrides] otherwise), and the archive commands, in
    that order.  What it throws is the failure of a copy or of a pack mode
    command, or [ExitCode(1)]. *)
Theorem packBuild_gates (env : Env) (group : string) (lg : list Action) :
  let r := packBuild env group lg in
  let new := appended lg (fst r) in
  (forall a, In a new -> is_exec a = true ->
             Forall (fun c => succeeds env c = true) (pack_copies group))
  /\ (In (archive_call env group) new ->
      Forall (fun c => succeeds env c = true)
             (mode_calls env (pack_config_path group)))
  /\ (snd r = Finished tt ->
      new = pack_copies group
              ++ mode_calls env (pack_config_path group)
              ++ (if win32 env then [] else [zip_probe])
              ++ [archive_call env group])
  /\ (forall e, snd r = Thrown e ->
                e = ExitCode 1
                \/ exists a, e = Rejected a /\ succeeds env a = false
                             /\ In a (pack_copies group
                                        ++ mode_calls env (pack_config_path group))).
Proof.
  intros r new. unfold new, r.
  destruct (appending_appended _ (packBuild env group) lg
              (appending_packBuild env group)) as [-> ->].
  unfold packBuild, applyDefaultMode, zipBuild, mode_calls, pack_config_path,
    pack_copies, archive_call, zip_probe, try_catch, bind, act, ret, throw,
    process_exit.
  set (cfg := ("dist/" ++ group
                 ++ (if String.eqb group "server" then "" else "/overrides"))%string).
  destruct (existsSync env (cfg ++ "/config/packmode.json")), (win32 env); simpl;
    repeat match goal with
           | |- context [succeeds env ?a] =>
               let E := fresh "E" in destruct (succeeds env a) eqn:E; simpl
           end;
    (split; [|split; [|split]];
     [ intros a I X; simpl in I;
       repeat (destruct I as [<-|I]; [simpl in X; try discriminate|]);
       try contradiction;
       repeat (apply Forall_cons; [assumption|]); apply Forall_nil
     | intros I; simpl in I;
       repeat (destruct I as [I|I]; [try discriminate|]); try contradiction;
       repeat (apply Forall_cons; [assumption|]); apply Forall_nil
     | first [discriminate | intros _; reflexivity]
     | first [discriminate
             | intros e [= <-]; first [left; reflexivity
                 | right; eexists; split; [reflexivity|]; split; [eassumption|];
                   simpl; tauto]] ]).
Qed.

(** *** The filter of the server pack *)

Lemma prefix_spec (sub s : string) :
  String.prefix sub s = true <-> exists post, s = (sub ++ post)%string.
Proof.
  revert s. induction sub as [|c sub IH]; intros s; simpl.
  - split; [intros _; now exists s | now destruct s].
  - destruct s as [|d s].
    + split; [discriminate | intros [post E]; discriminate].
    + simpl. destruct (Ascii.ascii_dec c d) as [->|N].
      * rewrite IH. split; intros [post E]; exists post.
        -- now rewrite E.
        -- now injection E.
      * split; [discriminate | intros [post E]; injection E; congruence].
Qed.

Lemma str_includes_spec (s sub : string) :
  str_includes s sub = true <-> occurs_in sub s.
Proof.
  unfold occurs_in. induction s as [|c s IH].
  - cbn [str_includes]. rewrite orb_false_r, prefix_spec. split.
    + intros [post E]. now exists EmptyString, post.
    + intros [[|d pre] [post E]]; [now exists post | discriminate].
  - cbn [str_includes]. rewrite orb_true_iff, prefix_spec, IH. split.
    + intros [[post E]|[pre [post E]]].
      * now exists EmptyString, post.
      * exists (String c pre), post. simpl. now rewrite E.
    + intros [[|d pre] [post E]].
      * left. now exists post.
      * right. exists pre, post. simpl in E. now injection E.
Qed.

Lemma truthy_find (p : string -> bool) (l : list string) :
  Forall (fun s => s <> EmptyString) l -> truthy (find p l) = existsb p l.
Proof.
  induction 1 as [|s l N _ IH]; simpl; [reflexivity|].
  destruct (p s); simpl; [|exact IH].
  destruct s; [contradiction | reflexivity].
Qed.

Lemma clientMods_not_empty : Forall (fun s => s <> EmptyString) clientMods.
Proof. unfold clientMods. repeat constructor; discriminate. Qed.

Lemma server_mod_iff (file : string) :
  server_mod file = true
  <-> str_includes (toLowerCase file) ".jar" = true
      /\ forall modName, In modName clientMods ->
                         str_includes (toLowerCase file) modName = false.
Proof.
  unfold server_mod. cbv zeta.
  rewrite (truthy_find _ _ clientMods_not_empty), andb_true_iff, negb_true_iff.
  split; intros [J C]; (split; [exact J|]).
  - intros m I.
    destruct (str_includes (toLowerCase file) m) eqn:E; [|reflexivity].
    assert (X : existsb (fun modName => str_includes (toLowerCase file) modName)
                        clientMods = true)
      by (apply existsb_exists; now exists m).
    congruence.
  - destruct (existsb _ clientMods) eqn:E; [|reflexivity].
    apply existsb_exists in E. destruct E as [m [I E]].
    rewrite (C m I) in E. discriminate.
Qed.

Lemma lower_char_idem (c : ascii) : lower_char (lower_char c) = lower_char c.
Proof. destruct c as [[|] [|] [|] [|] [|] [|] [|] [|]]; vm_compute; reflexivity. Qed.

Lemma toLowerCase_idem (s : string) : toLowerCase (toLowerCase s) = toLowerCase s.
Proof.
  induction s as [|c s IH]; simpl; [reflexivity|].
  now rewrite lower_char_idem, IH.
Qed.

(** X10: the filter of the server pack (lines 277-283) keeps a file exactly
    when its lower-cased name contains [.jar] somewhere and contains no name
    of [clientMods]; it does not depend on the case of the file's name. *)
Theorem server_mod_spec (file : string) :
  (server_mod file = true
   <-> occurs_in ".jar" (toLowerCase file)
       /\ forall modName, In modName clientMods ->
                          ~ occurs_in modName (toLowerCase file))
  /\ server_mod (toLowerCase file) = server_mod file.
Proof.
  split.
  - rewrite server_mod_iff, str_includes_spec. split; intros [J C]; (split; [exact J|]).
    + intros m I O. apply str_includes_spec in O. rewrite (C m I) in O. discriminate.
    + intros m I. destruct (str_includes (toLowerCase file) m) eqn:E; [|reflexivity].
      apply str_includes_spec in E. now destruct (C m I).
  - unfold server_mod. now rewrite toLowerCase_idem.
Qed.

(** *** Sequences of calls *)

Lemma bind_run (A B : Type) (c : Build A) (k : A -> Build B) (lg : list Action) :
  appending c ->
  bind c k lg = match snd (c []) with
                | Finished a => k a (lg ++ fst (c []))
                | Thrown e => (lg ++ fst (c []), Thrown e)
                | Exited code => (lg ++ fst (c []), Exited code)
                end.
Proof.
  intros H. unfold bind. rewrite (H lg). now destruct (snd (c [])).
Qed.

Lemma for_each_acts (env : Env) (mk : string -> Action) (f : string -> bool)
      (files : list string) (lg : list Action) :
  for_each files
    (fun file => if negb (f file) then ret tt else act env (mk file)) lg
  = (lg ++ fst (acts_run env (map mk (filter f files))),
     snd (acts_run env (map mk (filter f files)))).
Proof.
  revert lg. induction files as [|x files IH]; intros lg; simpl.
  - unfold ret. now rewrite app_nil_r.
  - destruct (f x); simpl.
    + unfold bind, act. destruct (succeeds env (mk x)); simpl.
      * rewrite IH. now rewrite <- app_assoc.
      * reflexivity.
    + unfold bind, ret. apply IH.
Qed.

Lemma for_each_acts_all (env : Env) (mk : string -> Action) (xs : list string)
      (lg : list Action) :
  for_each xs (fun x => act env (mk x)) lg
  = (lg ++ fst (acts_run env (map mk xs)), snd (acts_run env (map mk xs))).
Proof.
  revert lg. induction xs as [|x xs IH]; intros lg; simpl.
  - unfold ret. now rewrite app_nil_r.
  - unfold bind, act. destruct (succeeds env (mk x)); simpl.
    + rewrite IH. now rewrite <- app_assoc.
    + reflexivity.
Qed.

Lemma acts_run_finished (env : Env) (acts : list Action) :
  snd (acts_run env acts) = Finished tt
  <-> Forall (fun a => succeeds env a = true) acts.
Proof.
  induction acts as [|a acts IH]; simpl.
  - split; [constructor | reflexivity].
  - destruct (succeeds env a) eqn:E; simpl.
    + rewrite IH. split; [now constructor | now inversion 1].
    + split; [discriminate | inversion 1; congruence].
Qed.

Lemma acts_run_all (env : Env) (acts : list Action) :
  Forall (fun a => succeeds env a = true) acts ->
  acts_run env acts = (acts, Finished tt).
Proof.
  induction 1 as [|a acts E _ IH]; simpl; [reflexivity|].
  now rewrite E, IH.
Qed.

Lemma acts_run_thrown (env : Env) (acts : list Action) (e : Failure) :
  snd (acts_run env acts) = Thrown e ->
  exists pre a post,
    acts = pre ++ a :: post
    /\ fst (acts_run env acts) = pre ++ [a]
    /\ e = Rejected a
    /\ succeeds env a = false
    /\ Forall (fun a => succeeds env a = true) pre.
Proof.
  induction acts as [|a acts IH]; simpl; [discriminate|].
  destruct (succeeds env a) eqn:E; simpl.
  - intros T. destruct (IH T) as [pre [b [post [-> [L [-> [F P]]]]]]].
    exists (a :: pre), b, post. simpl. rewrite L.
    repeat split; auto.
  - intros [= <-]. exists [], a, acts. repeat split; auto.
Qed.

Lemma acts_run_not_exited (env : Env) (acts : list Action) (code : Z) :
  snd (acts_run env acts) <> Exited code.
Proof.
  induction acts as [|a acts IH]; simpl; [discriminate|].
  destruct (succeeds env a); simpl; [exact IH | discriminate].
Qed.

Lemma acts_run_incl (env : Env) (acts : list Action) (a : Action) :
  In a (fst (acts_run env acts)) -> In a acts.
Proof.
  induction acts as [|b acts IH]; simpl; [tauto|].
  destruct (succeeds env b); simpl; tauto.
Qed.

Lemma cpSyncFiltered_run (env : Env) (ourDir newDir : string)
      (f : string -> bool) (lg : list Action) :
  cpSyncFiltered env ourDir newDir f lg
  = match readdirSync env ourDir with
    | None => (lg, Thrown (Js (ENOENT ourDir)))
    | Some files =>
        let r := acts_run env (map (copyFileSync_join ourDir newDir)
                                   (filter f files)) in
        (lg ++ fst r, snd r)
    end.
Proof.
  unfold cpSyncFiltered. destruct (readdirSync env ourDir) as [files|].
  - apply for_each_acts.
  - reflexivity.
Qed.

(** X11: [cpSyncFiltered] copies the files of the listing that pass the
    filter, in the order of the listing, each from [ourDir] to [newDir] under
    its own name, and nothing else.  It returns exactly when every one of
    these copies succeeds; otherwise it stops at the first copy that fails
    and throws its error, the later files uncopied.  When the directory
    cannot be listed it throws without a call. *)
Theorem cpSyncFiltered_copies (env : Env) (ourDir newDir : string)
        (f : string -> bool) (lg : list Action) :
  let r := cpSyncFiltered env ourDir newDir f lg in
  let new := appended lg (fst r) in
  let copy := copyFileSync_join ourDir newDir in
  match readdirSync env ourDir with
  | None => new = [] /\ snd r = Thrown (Js (ENOENT ourDir))
  | Some files =>
      let wanted := filter f files in
      (snd r = Finished tt
       <-> Forall (fun file => succeeds env (copy file) = true) wanted)
      /\ (snd r = Finished tt -> new = map copy wanted)
      /\ (forall e, snd r = Thrown e ->
            exists pre file post,
              wanted = pre ++ file :: post
              /\ new = map copy (pre ++ [file])
              /\ e = Rejected (copy file)
              /\ succeeds env (copy file) = false
              /\ Forall (fun file => succeeds env (copy file) = true) pre)
      /\ (forall code, snd r <> Exited code)
  end.
Proof.
  intros r new copy. unfold new, r. rewrite cpSyncFiltered_run.
  destruct (readdirSync env ourDir) as [files|]; cbv zeta; simpl.
  - rewrite appended_app. fold copy.
    split; [|split; [|split]].
    + rewrite acts_run_finished, Forall_map. reflexivity.
    + intros F. apply acts_run_finished in F.
      now rewrite (acts_run_all _ _ F).
    + intros e T. apply acts_run_thrown in T.
      destruct T as [pre [a [post [M [L [-> [S P]]]]]]].
      apply map_eq_app in M.
      destruct M as [pre' [rest [W [<- M]]]].
      apply map_eq_cons in M.
      destruct M as [file [post' [-> [<- <-]]]].
      exists pre', file, post'. rewrite L, map_app. simpl.
      repeat split; auto. now apply Forall_map in P.
    + apply acts_run_not_exited.
  - split; [|reflexivity].
    unfold appended. now rewrite skipn_all.
Qed.

(** *** What a computation emits *)

Ltac other_call := simpl; intros; discriminate.

Lemma emits_ret (A : Type) (P : Action -> Prop) (a : A) : emits P (ret a).
Proof. intros lg F. exact F. Qed.

Lemma emits_throw (A : Type) (P : Action -> Prop) (e : Failure) :
  emits P (@throw A e).
Proof. intros lg F. exact F. Qed.

Lemma emits_process_exit (A : Type) (P : Action -> Prop) (c : Z) :
  emits P (@process_exit A c).
Proof. intros lg F. exact F. Qed.

Lemma emits_act (P : Action -> Prop) (env : Env) (a : Action) :
  P a -> emits P (act env a).
Proof.
  intros H lg F. simpl. apply Forall_app. split; [exact F | now constructor].
Qed.


(** The continuation runs only where the first part returned. *)
Lemma emits_bind (A B : Type) (P : Action -> Prop) (c : Build A)
      (k : A -> Build B) :
  emits P c ->
  (forall a, (exists lg, snd (c lg) = Finished a) -> emits P (k a)) ->
  emits P (bind c k).
Proof.
  intros Hc Hk lg F. unfold bind. specialize (Hc lg F).
  destruct (c lg) as [l [a|e|z]] eqn:E; simpl in *; auto.
  apply (Hk a); [|exact Hc]. exists lg. now rewrite E.
Qed.

Lemma emits_try_catch (A : Type) (P : Action -> Prop) (c : Build A)
      (h : Failure -> Build A) :
  emits P c -> (forall e, emits P (h e)) -> emits P (try_catch c h).
Proof.
  intros Hc Hh lg F. unfold try_catch. specialize (Hc lg F).
  destruct (c lg) as [l [a|e|z]]; simpl in *; auto.
  now apply Hh.
Qed.

Lemma emits_for_each (P : Action -> Prop) (xs : list string)
      (body : string -> Build unit) :
  (forall x, In x xs -> emits P (body x)) -> emits P (for_each xs body).
Proof.
  induction xs as [|x xs IH]; intros Hb; simpl.
  - apply emits_ret.
  - apply emits_bind; [apply Hb; now left|].
    intros _ _. apply IH. intros y I. apply Hb. now right.
Qed.

Lemma emits_if (A : Type) (P : Action -> Prop) (b : bool) (c1 c2 : Build A) :
  emits P c1 -> emits P c2 -> emits P (if b then c1 else c2).
Proof. now destruct b. Qed.

Lemma emits_all (A : Type) (P : Action -> Prop) (c : Build A) :
  (forall a, P a) -> emits P c.
Proof. intros H lg _. apply Forall_forall. intros a _. apply H. Qed.

Lemma emits_appended (A : Type) (P : Action -> Prop) (c : Build A)
      (lg : list Action) (a : Action) :
  appending c -> emits P c -> In a (appended lg (fst (c lg))) -> P a.
Proof.
  intros Ha He I.
  rewrite (proj1 (appending_appended _ c lg Ha)) in I.
  specialize (He [] (Forall_nil P)).
  rewrite Forall_forall in He. now apply He.
Qed.

Lemma emits_zipBuild (P : Action -> Prop) (env : Env) (group : string) :
  (forall cmd args cwd silent, P (Juke_exec cmd args cwd silent)) ->
  emits P (zipBuild env group).
Proof.
  intros H. unfold zipBuild.
  apply emits_try_catch; [|intros; apply emits_throw].
  apply emits_if; [apply emits_act, H|].
  apply emits_bind.
  - apply emits_try_catch; [|intros; apply emits_process_exit].
    apply emits_bind; [apply emits_act, H | intros; apply emits_ret].
  - intros [|] _; [apply emits_act, H | apply emits_ret].
Qed.

Lemma emits_applyDefaultMode (P : Action -> Prop) (env : Env)
      (configPath : string) :
  (forall cmd args cwd silent, P (Juke_exec cmd args cwd silent)) ->
  emits P (applyDefaultMode env configPath).
Proof.
  intros H. unfold applyDefaultMode.
  apply emits_if; [|apply emits_ret].
  apply emits_if; [apply emits_act, H|].
  apply emits_bind; [apply emits_act, H | intros; apply emits_act, H].
Qed.

Lemma emits_packBuild (P : Action -> Prop) (env : Env) (group : string) :
  (forall src dest, P (copyFileSync src dest)) ->
  (forall cmd args cwd silent, P (Juke_exec cmd args cwd silent)) ->
  emits P (packBuild env group).
Proof.
  intros Hc He. unfold packBuild.
  repeat (apply emits_bind; [apply emits_act, Hc | intros _ _]).
  apply emits_bind; [now apply emits_applyDefaultMode | intros _ _].
  now apply emits_zipBuild.
Qed.

Lemma emits_packBuild_copies (P : Action -> Prop) (env : Env) (group : string) :
  (forall a, In a (pack_copies group) -> P a) ->
  (forall cmd args cwd silent, P (Juke_exec cmd args cwd silent)) ->
  emits P (packBuild env group).
Proof.
  intros Hc He. unfold packBuild.
  repeat (apply emits_bind;
          [apply emits_act, Hc; unfold pack_copies; simpl; tauto | intros _ _]).
  apply emits_bind; [now apply emits_applyDefaultMode | intros _ _].
  now apply emits_zipBuild.
Qed.

Lemma emits_mkdir_new (P : Action -> Prop) (env : Env) (path : string) :
  P (mkdirSync path false) -> emits P (mkdir_new env path).
Proof.
  intros H. unfold mkdir_new. destruct (existsSync env path).
  - intros lg F. simpl. apply Forall_app. split; [exact F | now constructor].
  - now apply emits_act.
Qed.

Lemma emits_cpSyncFiltered (P : Action -> Prop) (env : Env)
      (ourDir newDir : string) (f : string -> bool) :
  (forall files file,
     readdirSync env ourDir = Some files -> In file files -> f file = true ->
     P (copyFileSync_join ourDir newDir file)) ->
  emits P (cpSyncFiltered env ourDir newDir f).
Proof.
  intros H. unfold cpSyncFiltered.
  destruct (readdirSync env ourDir) as [files|]; [|apply emits_throw].
  apply emits_for_each. intros file I.
  destruct (f file) eqn:E; simpl; [|apply emits_ret].
  apply emits_act. now apply (H files).
Qed.


(** *** Where a computation returned *)

Lemma bind_finished (A B : Type) (c : Build A) (k : A -> Build B)
      (lg : list Action) (b : B) :
  snd (bind c k lg) = Finished b ->
  exists a, snd (c lg) = Finished a /\ bind c k lg = k a (fst (c lg)).
Proof.
  unfold bind. destruct (c lg) as [l [a|e|z]]; simpl; try discriminate.
  intros _. now exists a.
Qed.

Lemma bind_finished_nil (A B : Type) (c : Build A) (k : A -> Build B) (b : B) :
  appending c -> (forall a, appending (k a)) ->
  snd (bind c k []) = Finished b ->
  exists a, snd (c []) = Finished a
            /\ snd (k a []) = Finished b
            /\ fst (bind c k []) = fst (c []) ++ fst (k a []).
Proof.
  intros Hc Hk. rewrite (bind_run _ _ c k [] Hc).
  destruct (snd (c [])) as [a|e|z]; simpl; try discriminate.
  rewrite (Hk a (fst (c []))). simpl. intros F. now exists a.
Qed.

Ltac solve_appending :=
  repeat (intros;
          first [ apply appending_act | apply appending_ret
                | apply appending_throw | apply appending_rm_rf
                | apply appending_packBuild | apply appending_cpSyncFiltered
                | apply appending_mkdir_new | apply appending_symlinkSync
                | apply appending_for_each | apply appending_if
                | apply appending_bind ]).


Lemma act_finished (env : Env) (a : Action) (lg : list Action) :
  snd (act env a lg) = Finished tt -> succeeds env a = true.
Proof. unfold act. simpl. now destruct (succeeds env a). Qed.

Lemma mkdir_new_finished (env : Env) (path : string) (lg : list Action) :
  snd (mkdir_new env path lg) = Finished tt ->
  existsSync env path = false /\ succeeds env (mkdirSync path false) = true.
Proof.
  unfold mkdir_new, act. destruct (existsSync env path); simpl; [discriminate|].
  destruct (succeeds env (mkdirSync path false)); [auto | discriminate].
Qed.

Lemma mkdir_new_log (env : Env) (path : string) (lg : list Action) :
  fst (mkdir_new env path lg) = lg ++ [mkdirSync path false].
Proof. unfold mkdir_new, act. now destruct (existsSync env path). Qed.

Lemma cpSyncFiltered_finished (env : Env) (ourDir newDir : string)
      (f : string -> bool) (lg : list Action) :
  snd (cpSyncFiltered env ourDir newDir f lg) = Finished tt ->
  exists files,
    readdirSync env ourDir = Some files
    /\ Forall (fun file => succeeds env (copyFileSync_join ourDir newDir file) = true)
              (filter f files)
    /\ fst (cpSyncFiltered env ourDir newDir f lg)
       = lg ++ map (copyFileSync_join ourDir newDir) (filter f files).
Proof.
  rewrite cpSyncFiltered_run.
  destruct (readdirSync env ourDir) as [files|]; cbv zeta; simpl; [|discriminate].
  intros F. apply acts_run_finished in F. exists files.
  rewrite (acts_run_all _ _ F). simpl.
  split; [reflexivity|]. split; [now apply Forall_map in F | reflexivity].
Qed.

(** X12: [BuildServerTarget] copies into [dist/server/mods] only files that
    [dist/modcache/] lists and the filter keeps, and runs a command (the pack
    mode switcher, the archiver) only after every such file was copied; both
    happen only when [dist/server/mods] did not exist.  When it returns, its
    calls were: create [dist/server], copy the four folders of [includeList]
    into it, create [dist/server/mods], copy the kept mods in the order of
    the listing, then what [packBuild] does for the server pack. *)
Theorem BuildServerTarget_mods (env : Env) (lg : list Action) :
  let r := BuildServerTarget env lg in
  let new := appended lg (fst r) in
  let copy := copyFileSync_join "dist/modcache/" "dist/server/mods" in
  (forall a, In a new -> is_joined_copy a = true ->
     existsSync env "dist/server/mods" = false
     /\ exists files file,
          readdirSync env "dist/modcache/" = Some files
          /\ In file files /\ server_mod file = true /\ a = copy file)
  /\ (forall a, In a new -> is_exec a = true ->
     existsSync env "dist/server/mods" = false
     /\ exists files,
          readdirSync env "dist/modcache/" = Some files
          /\ Forall (fun file => succeeds env (copy file) = true)
                    (filter server_mod files))
  /\ (snd r = Finished tt ->
      existsSync env "dist/server/mods" = false
      /\ exists files,
           readdirSync env "dist/modcache/" = Some files
           /\ new = server_head
                      ++ map copy (filter server_mod files)
                      ++ fst (packBuild env "server" [])).
Proof.
  intros r new copy. unfold new, r. split; [|split].
  - intros a I. pattern a.
    match goal with
    | |- ?P a =>
        refine (emits_appended _ P (BuildServerTarget env) lg a
                  (appending_BuildServerTarget env) _ I)
    end.
    unfold BuildServerTarget.
    apply emits_bind; [apply emits_act; other_call | intros _ _].
    apply emits_bind;
      [apply emits_for_each; intros; apply emits_act; other_call | intros _ _].
    apply emits_bind; [apply emits_mkdir_new; other_call | intros [] [l1 F1]].
    apply mkdir_new_finished in F1. destruct F1 as [F1 _].
    apply emits_bind.
    + apply emits_cpSyncFiltered. intros files file R J S _.
      split; [exact F1|]. now exists files, file.
    + intros _ _. apply emits_packBuild; intros; other_call.
  - intros a I. pattern a.
    match goal with
    | |- ?P a =>
        refine (emits_appended _ P (BuildServerTarget env) lg a
                  (appending_BuildServerTarget env) _ I)
    end.
    unfold BuildServerTarget.
    apply emits_bind; [apply emits_act; other_call | intros _ _].
    apply emits_bind;
      [apply emits_for_each; intros; apply emits_act; other_call | intros _ _].
    apply emits_bind; [apply emits_mkdir_new; other_call | intros [] [l1 F1]].
    apply mkdir_new_finished in F1. destruct F1 as [F1 _].
    apply emits_bind.
    + apply emits_cpSyncFiltered. intros; other_call.
    + intros [] [l2 F2]. apply cpSyncFiltered_finished in F2.
      destruct F2 as [files [R [F2 _]]].
      apply emits_all. intros b _. split; [exact F1|]. now exists files.
  - destruct (appending_appended _ (BuildServerTarget env) lg
                (appending_BuildServerTarget env)) as [-> ->].
    unfold BuildServerTarget. intros F.
    apply bind_finished_nil in F; [|solve_appending..].
    destruct F as [[] [_ [F ->]]].
    apply bind_finished_nil in F; [|solve_appending..].
    destruct F as [[] [F2 [F ->]]].
    apply bind_finished_nil in F; [|solve_appending..].
    destruct F as [[] [F3 [F ->]]].
    apply bind_finished_nil in F; [|solve_appending..].
    destruct F as [[] [F4 [F ->]]].
    rewrite for_each_acts_all in F2 |- *. cbn [fst snd] in F2 |- *.
    apply acts_run_finished in F2.
    rewrite (acts_run_all _ _ F2).
    rewrite mkdir_new_log.
    apply mkdir_new_finished in F3. destruct F3 as [F3 _].
    apply cpSyncFiltered_finished in F4. destruct F4 as [files [R [_ ->]]].
    split; [exact F3|]. exists files. split; [exact R|].
    unfold server_head. simpl. reflexivity.
Qed.

(** *** The list of mods *)

Lemma string_app_assoc (a b c : string) :
  ((a ++ b) ++ c = a ++ (b ++ c))%string.
Proof. induction a as [|x a IH]; simpl; [reflexivity | now rewrite IH]. Qed.

Lemma string_app_nil_r (a : string) : (a ++ "" = a)%string.
Proof. induction a as [|x a IH]; simpl; [reflexivity | now rewrite IH]. Qed.

Lemma modlist_loop_ok (env : Env) (files : list ManifestFile) (html : string)
      (lg : list Action) :
  Forall (fun d => item_of env (projectID d) <> None) files ->
  modlist_loop env files html lg
  = (lg ++ map GetModInfo_call (map projectID files),
     Finished (html ++ items env (map projectID files))%string).
Proof.
  intros F. revert html lg.
  induction F as [|d files G _ IH]; intros html lg; simpl.
  - unfold ret. now rewrite app_nil_r, string_app_nil_r.
  - unfold item_of in *.
    destruct (GetModInfo env (projectID d)) as [mi|]; [|congruence].
    destruct (mi_authors mi) as [|author others]; [congruence|].
    rewrite IH, <- app_assoc, string_app_assoc. reflexivity.
Qed.

Lemma modlist_loop_stops (env : Env) (pre : list ManifestFile)
      (d : ManifestFile) (post : list ManifestFile) (html : string)
      (lg : list Action) :
  Forall (fun d => item_of env (projectID d) <> None) pre ->
  item_of env (projectID d) = None ->
  modlist_loop env (pre ++ d :: post) html lg
  = (lg ++ map GetModInfo_call (map projectID (pre ++ [d])),
     Thrown (info_failure env (projectID d))).
Proof.
  intros F N. revert html lg.
  induction F as [|x pre G _ IH]; intros html lg; simpl.
  - unfold item_of, info_failure in *.
    destruct (GetModInfo env (projectID d)) as [mi|]; [|reflexivity].
    destruct (mi_authors mi) as [|author others]; [reflexivity | discriminate].
  - unfold item_of in G.
    destruct (GetModInfo env (projectID x)) as [mi|]; [|congruence].
    destruct (mi_authors mi) as [|author others]; [congruence|].
    rewrite IH, <- app_assoc. reflexivity.
Qed.

Lemma first_without_item (env : Env) (files : list ManifestFile) :
  Forall (fun d => item_of env (projectID d) <> None) files
  \/ exists pre d post,
       files = pre ++ d :: post
       /\ Forall (fun d => item_of env (projectID d) <> None) pre
       /\ item_of env (projectID d) = None.
Proof.
  induction files as [|x files IH]; [now left|].
  destruct (item_of env (projectID x)) eqn:E.
  - destruct IH as [F|[pre [d [post [-> [F N]]]]]].
    + left. constructor; [congruence | exact F].
    + right. exists (x :: pre), d, post. repeat split; auto.
      constructor; [congruence | exact F].
  - right. exists [], x, files. repeat split; auto.
Qed.

Lemma appending_modlist_loop (env : Env) (files : list ManifestFile)
      (html : string) :
  appending (modlist_loop env files html).
Proof.
  intros lg.
  destruct (first_without_item env files) as [F|[pre [d [post [-> [F N]]]]]].
  - now rewrite (modlist_loop_ok _ _ _ lg F), (modlist_loop_ok _ _ _ [] F).
  - now rewrite (modlist_loop_stops _ _ _ _ _ lg F N),
      (modlist_loop_stops _ _ _ _ _ [] F N).
Qed.

Lemma appending_BuildModlistTarget (env : Env) :
  appending (BuildModlistTarget env).
Proof.
  unfold BuildModlistTarget.
  apply appending_bind; [apply appending_act | intros _].
  destruct (manifest env) as [| |files]; try apply appending_throw.
  apply appending_bind; [apply appending_modlist_loop | intros; apply appending_act].
Qed.

Lemma not_all_with_item (env : Env) (pre : list ManifestFile) (d : ManifestFile)
      (post : list ManifestFile) :
  item_of env (projectID d) = None ->
  ~ Forall (fun d => item_of env (projectID d) <> None) (pre ++ d :: post).
Proof.
  intros N F. apply Forall_app in F. destruct F as [_ F].
  inversion F. contradiction.
Qed.

Lemma write_not_getinfo (path data : string) (ids : list N) :
  ~ In (writeFileSync path data) (map GetModInfo_call ids).
Proof. intros I. apply in_map_iff in I. destruct I as [x [E _]]. discriminate. Qed.

(** X13: [BuildModlistTarget] returns exactly when [dist] could be created,
    [manifest.json] parses, [GetModInfo] gives every project of the manifest
    an item (it resolves, with a first author), and the page could be
    written.  A write of the page is attempted only then, only to
    [dist/modlist.html], and with the complete page: the items of all the
    projects, in manifest order, between the list tags; the calls before it
    are the creation of [dist] and one [GetModInfo] per entry, in order.
    [dist] is created before anything else, whatever the manifest. *)
Theorem BuildModlistTarget_page (env : Env) (lg : list Action) :
  let r := BuildModlistTarget env lg in
  let new := appended lg (fst r) in
  (snd r = Finished tt
   <-> succeeds env (mkdirSync "dist" true) = true
       /\ exists files,
            manifest env = Parsed files
            /\ Forall (fun d => item_of env (projectID d) <> None) files
            /\ succeeds env (writeFileSync "dist/modlist.html" (page env files))
               = true)
  /\ (forall path data, In (writeFileSync path data) new ->
        path = "dist/modlist.html"
        /\ exists files,
             manifest env = Parsed files
             /\ Forall (fun d => item_of env (projectID d) <> None) files
             /\ data = page env files
             /\ new = mkdirSync "dist" true
                        :: map GetModInfo_call (map projectID files)
                        ++ [writeFileSync "dist/modlist.html" (page env files)])
  /\ (exists rest, new = mkdirSync "dist" true :: rest).
Proof.
  intros r new. unfold new, r.
  destruct (appending_appended _ (BuildModlistTarget env) lg
              (appending_BuildModlistTarget env)) as [-> ->].
  unfold BuildModlistTarget, bind, act, throw. simpl.
  destruct (succeeds env (mkdirSync "dist" true)) eqn:M.
  2: { split; [|split].
       - split; [discriminate | intros [X _]; discriminate].
       - simpl. intros path data [X|[]]. discriminate.
       - now exists []. }
  destruct (manifest env) as [| |files] eqn:J.
  1, 2: (split; [|split];
         [ split; [discriminate | intros [_ [fs [X _]]]; discriminate]
         | simpl; intros path data [X|[]]; discriminate
         | now exists [] ]).
  destruct (first_without_item env files) as [F|[pre [d [post [E [F N]]]]]].
  - rewrite (modlist_loop_ok _ _ _ _ F).
    match goal with
    | |- context [((?a ++ items env ?ids) ++ "</ul>")%string] =>
        change ((a ++ items env ids) ++ "</ul>")%string with (page env files)
    end.
    rewrite <- app_assoc. cbn [fst snd app].
    split; [|split].
    + destruct (succeeds env (writeFileSync "dist/modlist.html" (page env files)))
        eqn:W.
      * split; [intros _|reflexivity]. split; [reflexivity|]. now exists files.
      * split; [discriminate|]. intros [_ [fs [[= <-] [_ X]]]]. congruence.
    + intros path data [X|I]; [discriminate|].
      apply in_app_iff in I. destruct I as [I|[[= <- <-]|[]]].
      * now apply write_not_getinfo in I.
      * split; [reflexivity|]. exists files. repeat split; auto.
    + eexists. reflexivity.
  - subst files. rewrite (modlist_loop_stops _ _ _ _ _ _ F N). simpl.
    split; [|split].
    + split; [discriminate|]. intros [_ [fs [[= <-] [X _]]]].
      now destruct (not_all_with_item env pre d post N).
    + intros path data [X|I]; [discriminate|].
      now apply write_not_getinfo in I.
    + eexists. reflexivity.
Qed.

(** X14: when [dist] could be created and the manifest parses,
    [BuildModlistTarget] asks [GetModInfo] about the projects in manifest
    order and stops at the first one without an item: the projects after it
    are not asked about, no page is written, and the target throws the
    rejection of [GetModInfo], or a [TypeError] when the project has no
    author. *)
Theorem BuildModlistTarget_stops (env : Env) (lg : list Action)
        (pre : list ManifestFile) (d : ManifestFile) (post : list ManifestFile) :
  succeeds env (mkdirSync "dist" true) = true ->
  manifest env = Parsed (pre ++ d :: post) ->
  Forall (fun d => item_of env (projectID d) <> None) pre ->
  item_of env (projectID d) = None ->
  let r := BuildModlistTarget env lg in
  appended lg (fst r)
  = mkdirSync "dist" true :: map GetModInfo_call (map projectID (pre ++ [d]))
  /\ snd r = Thrown (info_failure env (projectID d))
  /\ (info_failure env (projectID d) = Js TypeError
      <-> exists modInfo, GetModInfo env (projectID d) = Some modInfo
                          /\ mi_authors modInfo = []).
Proof.
  intros M J F N r. unfold r.
  destruct (appending_appended _ (BuildModlistTarget env) lg
              (appending_BuildModlistTarget env)) as [-> ->].
  unfold BuildModlistTarget, bind, act. simpl. rewrite M, J.
  rewrite (modlist_loop_stops _ _ _ _ _ _ F N). simpl.
  split; [reflexivity|]. split; [reflexivity|].
  unfold info_failure, item_of in *.
  destruct (GetModInfo env (projectID d)) as [mi|].
  - destruct (mi_authors mi) as [|a l] eqn:A; [|discriminate].
    split; [intros _; now exists mi | reflexivity].
  - split; [discriminate | intros [mi [X _]]; discriminate].
Qed.

(** X14 at a manifest of three projects, the second without an author. *)
Lemma BuildModlistTarget_stops_witness :
  appended [] (fst (BuildModlistTarget authorless_env []))
  = [mkdirSync "dist" true; GetModInfo_call 7; GetModInfo_call 9]
  /\ snd (BuildModlistTarget authorless_env []) = Thrown (Js TypeError).
Proof.
  destruct (BuildModlistTarget_stops authorless_env []
              [mkManifestFile 7 (number 1) true]
              (mkManifestFile 9 (number 2) true)
              [mkManifestFile 11 (number 3) false]) as [L [T _]].
  - reflexivity.
  - reflexivity.
  - repeat constructor. discriminate.
  - reflexivity.
  - split; [exact L | exact T].
Defined.

(** *** The development pack *)



(** *** The client pack *)

Lemma appending_BuildClientTarget (env : Env) : appending (BuildClientTarget env).
Proof. unfold BuildClientTarget. solve_appending. Qed.

Lemma for_each_acts_finished (env : Env) (mk : string -> Action)
      (xs : list string) (lg : list Action) :
  snd (for_each xs (fun x => act env (mk x)) lg) = Finished tt ->
  Forall (fun a => succeeds env a = true) (map mk xs).
Proof. rewrite for_each_acts_all. simpl. apply acts_run_finished. Qed.

(** X16: [BuildClientTarget] puts no mod into the client pack: it makes no
    copy out of [dist/modcache]; the only folders it copies are those of
    [includeList], each to [dist/client/overrides] under its own name, and
    the only files it copies are the three of [packBuild].  It
    runs a command only after the directory was created and all four folders
    were copied.  When it returns, its calls were these five, in order, and
    then what [packBuild] does for the client pack. *)
Theorem BuildClientTarget_no_mods (env : Env) (lg : list Action) :
  let r := BuildClientTarget env lg in
  let new := appended lg (fst r) in
  (forall a, In a new ->
     is_joined_copy a = false
     /\ (forall src dest, a = cpSync src dest ->
           In src includeList
           /\ dest = ("dist/client/overrides/" ++ src)%string)
     /\ (forall src dest, a = copyFileSync src dest ->
           In a (pack_copies "client")))
  /\ (forall a, In a new -> is_exec a = true ->
        Forall (fun c => succeeds env c = true) client_head)
  /\ (snd r = Finished tt ->
      new = client_head ++ fst (packBuild env "client" [])).
Proof.
  intros r new. unfold new, r. split; [|split].
  - intros a I. pattern a.
    match goal with
    | |- ?P a =>
        refine (emits_appended _ P (BuildClientTarget env) lg a
                  (appending_BuildClientTarget env) _ I)
    end.
    clear I. unfold BuildClientTarget.
    apply emits_bind;
      [apply emits_act; repeat split; discriminate | intros _ _].
    apply emits_bind.
    + apply emits_for_each. intros x J. apply emits_act.
      split; [reflexivity|]. split; [|discriminate].
      intros src dest [= <- <-]. now split.
    + intros _ _. apply emits_packBuild_copies.
      * intros b J. split; [|split].
        -- unfold pack_copies in J. simpl in J.
           now destruct J as [<-|[<-|[<-|[]]]].
        -- intros src dest ->. unfold pack_copies in J. simpl in J.
           now destruct J as [J|[J|[J|[]]]].
        -- intros _ _ _. exact J.
      * intros. repeat split; discriminate.
  - intros a I. pattern a.
    match goal with
    | |- ?P a =>
        refine (emits_appended _ P (BuildClientTarget env) lg a
                  (appending_BuildClientTarget env) _ I)
    end.
    clear I. unfold BuildClientTarget.
    apply emits_bind; [apply emits_act; other_call | intros [] [l1 F1]].
    apply act_finished in F1.
    apply emits_bind;
      [apply emits_for_each; intros; apply emits_act; other_call
      | intros [] [l2 F2]].
    apply for_each_acts_finished in F2.
    apply emits_all. intros b _. unfold client_head. now constructor.
  - destruct (appending_appended _ (BuildClientTarget env) lg
                (appending_BuildClientTarget env)) as [-> ->].
    unfold BuildClientTarget. intros F.
    apply bind_finished_nil in F; [|solve_appending..].
    destruct F as [[] [_ [F ->]]].
    apply bind_finished_nil in F; [|solve_appending..].
    destruct F as [[] [F2 [F ->]]].
    rewrite for_each_acts_all in F2 |- *. cbn [fst snd] in F2 |- *.
    apply acts_run_finished in F2.
    rewrite (acts_run_all _ _ F2). reflexivity.
Qed.
